(** * Tafra: the innards of a dataframe

    A shallow embedding of [tafra.py]: the [Tafra] table (a mapping from
    column names to numpy arrays with a parallel mapping of type tags) and
    the aggregation classes [GroupBy], [Transform] and [IterateBy].

    Layout of the development:
    - Python exceptions and the error monad;
    - the numpy values the module touches (scalars, arrays, masks);
    - insertion-ordered dictionaries;
    - the [Tafra] methods and the aggregation classes;
    - [union] and [cross_join], which the specification describes and the
      module does not define;
    - an identity-aware store of arrays, for the questions of aliasing;
    - the theorems. *)

From Stdlib Require Import ZArith QArith String List Lia Bool.
From Stdlib Require Import SpecFloat.
From stdpp Require Import base option list strings gmap pretty.

Local Open Scope string_scope.
Local Open Scope nat_scope.

(** ** Python exceptions *)

Inductive exn :=
| ValueError (msg : string)
| KeyError (key : string)
| TypeError (msg : string)
| IndexError (msg : string)
| AssertionError (msg : string)
| OverflowError (msg : string).

(** A computation either raises ([inl]) or returns ([inr]). *)
Definition result (A : Type) : Type := (exn + A)%type.

Definition raise {A} (e : exn) : result A := inl e.
Definition ret {A} (a : A) : result A := inr a.

Definition bind {A B} (m : result A) (k : A -> result B) : result B :=
  match m with
  | inl e => inl e
  | inr a => k a
  end.

Notation "'let*' x ':=' m 'in' k" := (bind m (fun x => k))
  (at level 10, x pattern, m at level 100, k at level 200).

(** [for x in l: acc = body(acc, x)], leaving at the first exception. *)
Fixpoint foldM {A B} (body : B -> A -> result B) (l : list A) (acc : B)
  : result B :=
  match l with
  | [] => ret acc
  | x :: l' => let* acc' := body acc x in foldM body l' acc'
  end.

(** [[f(x) for x in l]], leaving at the first exception. *)
Fixpoint mapM {A B} (f : A -> result B) (l : list A) : result (list B) :=
  match l with
  | [] => ret []
  | x :: l' => let* y := f x in let* ys := mapM f l' in ret (y :: ys)
  end.

Definition nl : string := String (Ascii.ascii_of_nat 10) EmptyString.

(** [sub in s] on strings. *)
Definition contains (sub s : string) : bool :=
  match String.index 0 sub s with
  | Some _ => true
  | None => false
  end.

(** ** Scalars

    The element kinds of the arrays the module is used with: integers
    ([np.int64] in an [int64] array, Python [int] in an [object] array),
    booleans, strings and binary64 floats.  [SUndef] is a cell of
    uninitialised memory, as [np.empty] hands out. *)

Inductive scalar :=
| SInt (z : Z)
| SBool (b : bool)
| SStr (s : string)
| SFloat (f : spec_float)
| SUndef.

(** The number a numeric scalar denotes; a finite float is the dyadic
    rational [m * 2 ^ e]. *)
Inductive numval :=
| NaN
| Inf (neg : bool)
| Fin (q : Q).

Definition dyadic (m e : Z) : Q :=
  match e with
  | Z0 => Qmake m 1
  | Zpos p => Qmake (m * 2 ^ Zpos p) 1
  | Zneg p => Qmake m (2 ^ p)
  end.

Definition float_val (f : spec_float) : numval :=
  match f with
  | S754_zero _ => Fin (Qmake 0 1)
  | S754_infinity s => Inf s
  | S754_nan => NaN
  | S754_finite s m e => Fin (dyadic (if s then Zneg m else Zpos m) e)
  end.

Definition num_val (s : scalar) : option numval :=
  match s with
  | SInt z => Some (Fin (Qmake z 1))
  | SBool b => Some (Fin (Qmake (Z.b2z b) 1))
  | SFloat f => Some (float_val f)
  | SStr _ | SUndef => None
  end.

Definition numval_eqb (a b : numval) : bool :=
  match a, b with
  | Fin p, Fin q => Qeq_bool p q
  | Inf s, Inf t => Bool.eqb s t
  | _, _ => false
  end.

(** [a == b]: numbers compare by value across [bool], [int] and [float]
    (and [nan] differs from everything, itself included), strings compare
    with strings, and a string never equals a number. *)
Definition scalar_eqb (a b : scalar) : bool :=
  match a, b with
  | SStr s, SStr t => String.eqb s t
  | _, _ =>
      match num_val a, num_val b with
      | Some x, Some y => numval_eqb x y
      | _, _ => false
      end
  end.

(** Key tuples compare componentwise, as Python tuples do. *)
Fixpoint tuple_eqb (u v : list scalar) : bool :=
  match u, v with
  | [], [] => true
  | a :: u', b :: v' => scalar_eqb a b && tuple_eqb u' v'
  | _, _ => false
  end.

(** ** Arrays

    An [ndarray] carries the string form of its dtype and its cells.  A
    one-dimensional array is the list of its elements; arrays of other
    ranks appear only where the module rejects or squeezes them. *)

Inductive cells :=
| Arr0 (s : scalar)
| Arr1 (l : list scalar)
| ArrN (d : nat) (inner : list nat) (planes : list (list scalar)).

Record ndarray := { dtype : string; body : cells }.

(** The fragment of numpy the module calls. *)
Module np.

Definition ndim (a : ndarray) : nat :=
  match body a with
  | Arr0 _ => 0
  | Arr1 _ => 1
  | ArrN _ inner _ => 2 + length inner
  end.

Definition shape (a : ndarray) : list nat :=
  match body a with
  | Arr0 _ => []
  | Arr1 l => [length l]
  | ArrN d inner planes => length planes :: d :: inner
  end.

(** [len(a)]: the first dimension; a 0-d array has none. *)
Definition len (a : ndarray) : result nat :=
  match body a with
  | Arr0 _ => raise (TypeError "len() of unsized object")
  | Arr1 l => ret (length l)
  | ArrN _ _ planes => ret (length planes)
  end.

Definition flat (a : ndarray) : list scalar :=
  match body a with
  | Arr0 s => [s]
  | Arr1 l => l
  | ArrN _ _ planes => concat planes
  end.

Fixpoint chunks (n k : nat) (l : list scalar) : list (list scalar) :=
  match n with
  | 0 => []
  | S n' => take k l :: chunks n' k (drop k l)
  end.

Definition reshape (sh : list nat) (l : list scalar) : cells :=
  match sh with
  | [] => Arr0 (hd SUndef l)
  | [_] => Arr1 l
  | n :: d :: inner => ArrN d inner (chunks n (fold_right Nat.mul 1 (d :: inner)) l)
  end.

(** [a.squeeze()]: drop the dimensions of extent one. *)
Definition squeeze (a : ndarray) : ndarray :=
  {| dtype := dtype a;
     body := reshape (filter (fun n => n <> 1) (shape a)) (flat a) |}.

(** [a.copy()]: the same contents in fresh storage; the memory order of
    the copy has no bearing on the contents. *)
Definition copy (a : ndarray) : ndarray :=
  {| dtype := dtype a; body := body a |}.

(** [np.full(n, True)] *)
Definition full_true (n : nat) : list bool := replicate n true.

(** [np.empty(n, dtype)], [np.empty_like(a)]: uninitialised cells. *)
Definition empty (n : nat) (dt : string) : ndarray :=
  {| dtype := dt; body := Arr1 (replicate n SUndef) |}.

Definition empty_like (a : ndarray) : ndarray :=
  {| dtype := dtype a;
     body := match body a with
             | Arr0 _ => Arr0 SUndef
             | Arr1 l => Arr1 (replicate (length l) SUndef)
             | ArrN d inner planes =>
                 ArrN d inner (map (fun p => replicate (length p) SUndef) planes)
             end |}.

Definition truth (s : scalar) : bool :=
  match s with
  | SBool b => b
  | _ => false
  end.

(** [a == val], elementwise. *)
Definition equal (a : ndarray) (val : scalar) : ndarray :=
  let eqv := fun x => SBool (scalar_eqb x val) in
  {| dtype := "bool";
     body := match body a with
             | Arr0 s => Arr0 (eqv s)
             | Arr1 l => Arr1 (map eqv l)
             | ArrN d inner planes => ArrN d inner (map (map eqv) planes)
             end |}.

(** [which_rows &= rhs] for a one-dimensional boolean [which_rows]: the
    right-hand side must broadcast to the shape of [which_rows]. *)
Definition iand (which_rows : list bool) (rhs : ndarray) : result (list bool) :=
  match body rhs with
  | Arr0 s => ret (map (fun w => w && truth s) which_rows)
  | Arr1 l =>
      if decide (length l = length which_rows)
      then ret (zip_with andb which_rows (map truth l))
      else match l with
           | [s] => ret (map (fun w => w && truth s) which_rows)
           | _ => raise (ValueError "operands could not be broadcast together")
           end
  | ArrN _ _ _ => raise (ValueError "non-broadcastable output operand")
  end.

(** The elements of [l] at the true positions of [mask]. *)
Fixpoint select {A} (mask : list bool) (l : list A) : list A :=
  match mask, l with
  | b :: mask', x :: l' => if b then x :: select mask' l' else select mask' l'
  | _, _ => []
  end.

(** [a[mask]] for a boolean mask. *)
Definition getitem_mask (a : ndarray) (mask : list bool) : result ndarray :=
  match body a with
  | Arr0 _ => raise (IndexError "too many indices for array")
  | Arr1 l =>
      if decide (length mask = length l)
      then ret {| dtype := dtype a; body := Arr1 (select mask l) |}
      else raise (IndexError "boolean index did not match indexed array")
  | ArrN d inner planes =>
      if decide (length mask = length planes)
      then ret {| dtype := dtype a; body := ArrN d inner (select mask planes) |}
      else raise (IndexError "boolean index did not match indexed array")
  end.

(** Position [i] of an axis of extent [n], counting from the end when
    negative. *)
Definition axis_index (n : nat) (i : Z) : result nat :=
  if ((0 <=? i) && (i <? Z.of_nat n))%Z then ret (Z.to_nat i)
  else if ((- Z.of_nat n <=? i) && (i <? 0))%Z then ret (Z.to_nat (i + Z.of_nat n))
  else raise (IndexError "index is out of bounds").

Definition gather {A} (l : list A) (ix : list scalar) : result (list A) :=
  mapM (fun s =>
          match s with
          | SInt i =>
              let* k := axis_index (length l) i in
              match l !! k with
              | Some x => ret x
              | None => raise (IndexError "index is out of bounds")
              end
          | _ => raise (IndexError "arrays used as indices must be of integer (or boolean) type")
          end) ix.

Definition is_integer_dtype (dt : string) : bool :=
  String.prefix "int" dt || String.prefix "uint" dt.

(** [a[index]] for a one-dimensional index array with elements [ix]. *)
Definition getitem_array (a : ndarray) (index_dtype : string) (ix : list scalar)
  : result ndarray :=
  if decide (index_dtype = "bool") then getitem_mask a (map truth ix)
  else if is_integer_dtype index_dtype then
    match body a with
    | Arr0 _ => raise (IndexError "too many indices for array")
    | Arr1 l => let* l' := gather l ix in ret {| dtype := dtype a; body := Arr1 l' |}
    | ArrN d inner planes =>
        let* p' := gather planes ix in ret {| dtype := dtype a; body := ArrN d inner p' |}
    end
  else raise (IndexError "arrays used as indices must be of integer (or boolean) type").

(** [slice(start, stop, step).indices(n)], then the positions it walks. *)
Definition clamp (n : nat) (lower upper : Z) (i : Z) : Z :=
  if (i <? 0)%Z then Z.max (i + Z.of_nat n) lower else Z.min i upper.

Fixpoint walk (fuel : nat) (i stop step : Z) : list nat :=
  match fuel with
  | 0 => []
  | S fuel' =>
      if (if (0 <? step)%Z then (i <? stop)%Z else (stop <? i)%Z)
      then Z.to_nat i :: walk fuel' (i + step)%Z stop step
      else []
  end.

Definition slice_indices (n : nat) (start stop step : option Z) : result (list nat) :=
  let step := default 1%Z step in
  if decide (step = 0%Z) then raise (ValueError "slice step cannot be zero")
  else
    let lower := if (step <? 0)%Z then (-1)%Z else 0%Z in
    let upper := if (step <? 0)%Z then (Z.of_nat n - 1)%Z else Z.of_nat n in
    let start := match start with
                 | None => if (step <? 0)%Z then upper else lower
                 | Some i => clamp n lower upper i
                 end in
    let stop := match stop with
                | None => if (step <? 0)%Z then lower else upper
                | Some i => clamp n lower upper i
                end in
    ret (walk n start stop step).

Definition pick {A} (l : list A) (ix : list nat) : list A :=
  omap (fun i => l !! i) ix.

(** [a[start:stop:step]] *)
Definition getitem_slice (a : ndarray) (start stop step : option Z) : result ndarray :=
  match body a with
  | Arr0 _ => raise (IndexError "too many indices for array")
  | Arr1 l =>
      let* ix := slice_indices (length l) start stop step in
      ret {| dtype := dtype a; body := Arr1 (pick l ix) |}
  | ArrN d inner planes =>
      let* ix := slice_indices (length planes) start stop step in
      ret {| dtype := dtype a; body := ArrN d inner (pick planes ix) |}
  end.

(** The cells of [dst] at the true positions of [mask] take the elements
    of [src] in order. *)
Fixpoint scatter {A} (mask : list bool) (dst src : list A) : list A :=
  match mask, dst with
  | b :: mask', x :: dst' =>
      if b then
        match src with
        | y :: src' => y :: scatter mask' dst' src'
        | [] => x :: scatter mask' dst' []
        end
      else x :: scatter mask' dst' src
  | _, _ => dst
  end.

(** The cells of [dst] at the true positions of [mask] become [v]. *)
Definition fill {A} (mask : list bool) (dst : list A) (v : A) : list A :=
  zip_with (fun (b : bool) x => if b then v else x) mask dst.

Definition count_true (mask : list bool) : nat := length (select mask mask).

End np.

(** ** Dictionaries

    A Python [dict] keeps its keys in insertion order, and the module
    depends on it ([rows] reads the first column); so a dictionary is the
    list of its items.  Storing under a present key keeps the key's place. *)

Abbreviation dict V := (list (string * V)) (only parsing).

Fixpoint dict_get {V} (k : string) (d : dict V) : option V :=
  match d with
  | [] => None
  | (k', v) :: d' => if decide (k = k') then Some v else dict_get k d'
  end.

Fixpoint dict_set {V} (k : string) (v : V) (d : dict V) : dict V :=
  match d with
  | [] => [(k, v)]
  | (k', v') :: d' =>
      if decide (k = k') then (k, v) :: d' else (k', v') :: dict_set k v d'
  end.

Definition dict_keys {V} (d : dict V) : list string := map fst d.
Definition dict_values {V} (d : dict V) : list V := map snd d.

Definition dict_mem {V} (k : string) (d : dict V) : bool :=
  bool_decide (is_Some (dict_get k d)).

(** [d.pop(k, None)] *)
Definition dict_pop {V} (k : string) (d : dict V) : dict V :=
  filter (fun kv => fst kv <> k) d.

(** [d.update(other)], and the dictionary a comprehension builds from a
    sequence of items. *)
Definition dict_update {V} (d other : dict V) : dict V :=
  fold_left (fun acc kv => dict_set (fst kv) (snd kv) acc) other d.

Definition dict_of_items {V} (items : list (string * V)) : dict V :=
  dict_update [] items.

(** ** What numpy computes on the module's behalf

    Conversions are numpy's: [a.astype(t)], [np.asarray(o)] for a value
    that is not an array, and the conversion of a scalar stored into an
    array of a given dtype. *)

Inductive pyobject :=
| PyScalar (s : scalar)
| PyList (l : list scalar)
| PyNested (ll : list (list scalar)).

Inductive value :=
| VArray (a : ndarray)
| VObject (o : pyobject).

Class NumPy := {
  astype : string -> ndarray -> result ndarray;
  asarray : pyobject -> result ndarray;
  setitem_cast : string -> scalar -> result scalar
}.

(** [a[i] = v] and [a[mask] = v] on a one-dimensional array. *)
Definition setitem_int `{!NumPy} (a : ndarray) (i : nat) (v : scalar) : result ndarray :=
  match body a with
  | Arr1 l =>
      if decide (i < length l) then
        let* v' := setitem_cast (dtype a) v in
        ret {| dtype := dtype a; body := Arr1 (<[i := v']> l) |}
      else raise (IndexError "index is out of bounds")
  | Arr0 _ => raise (IndexError "too many indices for array")
  | ArrN _ _ _ => raise (ValueError "setting an array element with a sequence.")
  end.

Definition setitem_mask `{!NumPy} (a : ndarray) (mask : list bool) (v : scalar)
  : result ndarray :=
  match body a with
  | Arr1 l =>
      if decide (length mask = length l) then
        let* v' := setitem_cast (dtype a) v in
        ret {| dtype := dtype a; body := Arr1 (np.fill mask l v') |}
      else raise (IndexError "boolean index did not match indexed array")
  | Arr0 _ => raise (IndexError "too many indices for array")
  | ArrN _ _ _ => raise (ValueError "setting an array element with a sequence.")
  end.

(** [a[mask] = src] for one-dimensional arrays: [src] has one element per
    true position, or a single element that is broadcast; elements are
    converted when the dtypes differ. *)
Definition setitem_mask_array `{!NumPy} (a : ndarray) (mask : list bool) (src : ndarray)
  : result ndarray :=
  match body a, body src with
  | Arr1 l, Arr1 s =>
      if decide (length mask = length l) then
        let* s' := if decide (dtype src = dtype a) then ret s
                   else mapM (setitem_cast (dtype a)) s in
        if decide (length s' = np.count_true mask)
        then ret {| dtype := dtype a; body := Arr1 (np.scatter mask l s') |}
        else match s' with
             | [v] => ret {| dtype := dtype a; body := Arr1 (np.fill mask l v) |}
             | _ => raise (ValueError "cannot assign input values to the output values where the mask is true")
             end
      else raise (IndexError "boolean index did not match indexed array")
  | Arr0 _, _ => raise (IndexError "too many indices for array")
  | _, _ => raise (ValueError "shape mismatch: value array could not be broadcast to indexing result")
  end.

(** ** The type registry *)

Definition TAFRA_TYPE `{!NumPy} : dict (ndarray -> result ndarray) :=
  [ ("int", fun x => astype "int" x);
    ("float", fun x => astype "float" x);
    ("bool", fun x => astype "bool" x);
    ("str", fun x => astype "str" x);
    ("date", fun x => astype "datetime64" x);
    ("object", fun x => astype "object" x) ].

(** ** The table *)

Record Tafra := { _data : dict ndarray; _dtypes : dict string }.

(** A method runs on [self], may raise, and leaves [self] as it stands at
    that point. *)
Definition method (A : Type) : Type := Tafra -> result A * Tafra.

Definition mret {A} (a : A) : method A := fun self => (ret a, self).
Definition mraise {A} (e : exn) : method A := fun self => (raise e, self).
Definition lift {A} (m : result A) : method A := fun self => (m, self).
Definition mbind {A B} (m : method A) (k : A -> method B) : method B :=
  fun self =>
    match m self with
    | (inl e, self') => (inl e, self')
    | (inr a, self') => k a self'
    end.

Notation "'let!' x ':=' m 'in' k" := (mbind m (fun x => k))
  (at level 10, x pattern, m at level 100, k at level 200).

Definition gets {A} (f : Tafra -> A) : method A := fun self => (ret (f self), self).
Definition reads {A} (f : Tafra -> result A) : method A := fun self => (f self, self).
Definition modify (f : Tafra -> Tafra) : method unit := fun self => (ret tt, f self).
Definition skip : method unit := mret tt.

Fixpoint for_each {A} (l : list A) (body : A -> method unit) : method unit :=
  match l with
  | [] => skip
  | x :: l' => let! _ := body x in for_each l' body
  end.

(** [self._data[column]], [self._dtypes[column]] and the stores into them. *)
Definition data_at (column : string) : method ndarray :=
  reads (fun self => match dict_get column (_data self) with
                     | Some a => ret a
                     | None => raise (KeyError column)
                     end).

Definition dtypes_at (column : string) : method string :=
  reads (fun self => match dict_get column (_dtypes self) with
                     | Some t => ret t
                     | None => raise (KeyError column)
                     end).

Definition set_data (column : string) (a : ndarray) : method unit :=
  modify (fun self => {| _data := dict_set column a (_data self);
                         _dtypes := _dtypes self |}).

Definition set_dtype (column : string) (t : string) : method unit :=
  modify (fun self => {| _data := _data self;
                         _dtypes := dict_set column t (_dtypes self) |}).

Definition _format_type (t : string) : string :=
  let _t := t in
  if contains "int" _t then "int"
  else if contains "float" _t then "float"
  else if contains "bool" _t then "bool"
  else if contains "str" _t then "str"
  else if contains "<U" _t then "str"
  else if contains "date" _t then "date"
  else if contains "<M" _t then "date"
  else if contains "object" _t then "object"
  else if contains "O" _t then "object"
  else _t.

Definition _apply_type `{!NumPy} (t : string) (array : ndarray) : result ndarray :=
  match dict_get t TAFRA_TYPE with
  | Some f => f array
  | None => raise (KeyError t)
  end.

Definition _validate_types `{!NumPy} (dtypes : dict string) : result (dict string) :=
  let '(msg, _dtypes) :=
    fold_left
      (fun '(msg, _dtypes) '(column, _dtype) =>
         let t := _format_type _dtype in
         let _dtypes := dict_set column t _dtypes in
         if dict_mem t TAFRA_TYPE then (msg, _dtypes)
         else (msg +:+ "`" +:+ t +:+ "` is not a valid dtype for `" +:+ column +:+ ".`" +:+ nl,
               _dtypes))
      dtypes ("", []) in
  if decide (0 < String.length msg) then raise (ValueError msg) else ret _dtypes.

(** One turn of the loop of [update_types]: convert the column when its
    dtype does not format to its tag. *)
Definition update_type `{!NumPy} (column : string) : method unit :=
  let! a := data_at column in
  let! t := dtypes_at column in
  if decide (_format_type (dtype a) <> t) then
    let! a' := lift (_apply_type t a) in
    set_data column a'
  else skip.

Definition update_types `{!NumPy} (dtypes : option (dict string)) : method unit :=
  let! _ := match dtypes with
            | Some dtypes =>
                let! dtypes := lift (_validate_types dtypes) in
                modify (fun self => {| _data := _data self;
                                       _dtypes := dict_update (_dtypes self) dtypes |})
            | None => skip
            end in
  let! columns := gets (fun self => dict_keys (_dtypes self)) in
  for_each columns update_type.

(** One turn of the loop of [coalesce_types]: tag the column if it has
    no tag. *)
Definition coalesce_type (column : string) : method unit :=
  let! known := gets (fun self => dict_mem column (_dtypes self)) in
  if known then skip
  else
    let! a := data_at column in
    set_dtype column (_format_type (dtype a)).

Definition coalesce_types : method unit :=
  let! columns := gets (fun self => dict_keys (_data self)) in
  for_each columns coalesce_type.

Definition row_count_msg : string := "`Tafra` must have consistent row counts.".

(** One turn of the loop that compares the lengths of the columns;
    [rows] is [None] until the first column has been seen. *)
Definition check_rows (rows : option nat) (item : string * ndarray)
  : result (option nat) :=
  let (column, values) := item in
  match rows with
  | None => let* n := np.len values in ret (Some n)
  | Some r =>
      let* n := np.len values in
      if decide (r <> n) then raise (ValueError row_count_msg) else ret (Some r)
  end.

Definition __post_init__ `{!NumPy} : method unit :=
  let! items := gets _data in
  let! _ := lift (foldM check_rows items None) in
  let! given := gets (fun self => match _dtypes self with [] => false | _ => true end) in
  let! _ := if given then update_types None
            else modify (fun self => {| _data := _data self; _dtypes := [] |}) in
  coalesce_types.

(** [Tafra(_data, _dtypes)]: the dataclass stores the two fields and runs
    [__post_init__]; when that raises there is no object. *)
Definition __init__ `{!NumPy} (data : dict ndarray) (dtypes : dict string) : result Tafra :=
  match __post_init__ {| _data := data; _dtypes := dtypes |} with
  | (inl e, _) => inl e
  | (inr _, self) => inr self
  end.

Definition columns (self : Tafra) : list string := dict_keys (_data self).

Definition rows (self : Tafra) : result nat :=
  match dict_values (_data self) with
  | [] => ret 0
  | first :: _ => np.len first
  end.

Definition data (self : Tafra) : dict ndarray := _data self.
Definition dtypes (self : Tafra) : dict string := _dtypes self.

(** The index expressions [__getitem__] tells apart, and what it returns:
    a column of the table or a new table. *)
Inductive item :=
| ItemStr (name : string)
| ItemSlice (start stop step : option Z)
| ItemArray (index : ndarray)
| ItemOther (type_name : string).

Inductive selection :=
| Column (a : ndarray)
| Table (t : Tafra).

(** [self._data[name]] *)
Definition getitem_str (name : string) (self : Tafra) : result ndarray :=
  match dict_get name (_data self) with
  | Some a => ret a
  | None => raise (KeyError name)
  end.

Definition _slice `{!NumPy} (start stop step : option Z) (self : Tafra) : result Tafra :=
  let* d := mapM (fun '(column, value) =>
                    let* v := np.getitem_slice value start stop step in
                    ret (column, v)) (_data self) in
  __init__ d (_dtypes self).

(** The index must have [ndim == 1], that is, be an [Arr1]. *)
Definition _index `{!NumPy} (index : ndarray) (self : Tafra) : result Tafra :=
  match body index with
  | Arr1 ix =>
      let* d := mapM (fun '(column, value) =>
                        let* v := np.getitem_array value (dtype index) ix in
                        ret (column, v)) (_data self) in
      __init__ d (_dtypes self)
  | _ => raise (ValueError ("Indexing np.ndarray must ndim == 1, got ndim == "
                            +:+ pretty (np.ndim index)))
  end.

Definition __getitem__ `{!NumPy} (it : item) (self : Tafra) : result selection :=
  match it with
  | ItemStr name => let* a := getitem_str name self in ret (Column a)
  | ItemSlice start stop step => let* t := _slice start stop step self in ret (Table t)
  | ItemArray index => let* t := _index index self in ret (Table t)
  | ItemOther type_name => raise (ValueError ("Type " +:+ type_name +:+ " not supported."))
  end.

(** The first half of [_validate]: make the value an array of one
    dimension.  [np.asarray] returns an array or raises, so the check "is
    it an ndarray now?" cannot fail; the warning issued on a squeeze
    changes no value. *)
Definition _validate_shape `{!NumPy} (v : value) : result ndarray :=
  let* value := match v with
                | VArray a => ret a
                | VObject o => asarray o
                end in
  if decide (1 < np.ndim value) then
    let sq_value := np.squeeze value in
    if decide (1 < np.ndim sq_value) then
      raise (ValueError "`ndarray` or `np.squeeze(ndarray)` must have ndim == 1.")
    else if decide (np.ndim sq_value = 1) then ret sq_value
    else raise (AssertionError "ndim <= 0, unreachable")
  else ret value.

Definition assigned_rows_msg (rows len_value : nat) : string :=
  row_count_msg +:+ nl +:+ "This `Tafra` has " +:+ pretty rows
  +:+ " rows. Assigned np.ndarray has " +:+ pretty len_value +:+ " rows.".

Definition _validate `{!NumPy} (v : value) (self : Tafra) : result ndarray :=
  let* value := _validate_shape v in
  let* n := np.len value in
  let* r := rows self in
  if decide (n <> r) then raise (ValueError (assigned_rows_msg r n))
  else ret value.

Definition __setitem__ `{!NumPy} (name : string) (v : value) : method unit :=
  let! value := reads (_validate v) in
  let! _ := set_data name value in
  set_dtype name (_format_type (dtype value)).

Definition other_rows_msg (rows len_values : nat) : string :=
  "Other `Tafra` must have consistent row count. This `Tafra` has "
  +:+ pretty rows +:+ " rows, other `Tafra` has " +:+ pretty len_values +:+ " rows.".

Definition update `{!NumPy} (other : Tafra) : method unit :=
  let! rows := reads rows in
  let! _ := for_each (_data other) (fun '(column, values) =>
              let! n := lift (np.len values) in
              if decide (n <> rows) then mraise (ValueError (other_rows_msg rows n))
              else set_data column values) in
  update_types (Some (_dtypes other)).

Definition delete (column : string) : method unit :=
  modify (fun self => {| _data := dict_pop column (_data self);
                         _dtypes := dict_pop column (_dtypes self) |}).

Definition copy `{!NumPy} (self : Tafra) : result Tafra :=
  __init__ (map (fun '(column, value) => (column, np.copy value)) (_data self))
           (_dtypes self).

Definition to_list (cols : option (list string)) (self : Tafra) : result (list ndarray) :=
  match cols with
  | None => ret (dict_values (_data self))
  | Some cols => mapM (fun c => getitem_str c self) cols
  end.

(** A row-count error is a [ValueError] whose message opens with the
    row-count sentence. *)
Definition is_row_count_error (e : exn) : bool :=
  match e with
  | ValueError msg => String.prefix row_count_msg msg
  | _ => false
  end.

(** ** Aggregations *)

(** A reduction takes the sub-array of a group to one scalar, or raises. *)
Definition aggfn : Type := ndarray -> result scalar.

(** The values an aggregation mapping may hold: a callable, a pair of a
    callable and a source column, or anything else (with its [repr]). *)
Inductive agg_arg :=
| Callable (fn : aggfn)
| Renamed (fn : aggfn) (col : string)
| NotAnAggregation (repr : string).

Abbreviation InitAggregation := (dict agg_arg) (only parsing).

(** What iterating an array yields: its elements, or for an array of
    higher rank its sub-arrays, which cannot be hashed. *)
Inductive elem :=
| Elem (s : scalar)
| Sub (plane : list scalar).

Definition np_iter (a : ndarray) : result (list elem) :=
  match body a with
  | Arr0 _ => raise (TypeError "iteration over a 0-d array")
  | Arr1 l => ret (map Elem l)
  | ArrN _ _ planes => ret (map Sub planes)
  end.

(** [zip] applied to the unpacked [its]: nothing for no iterable at all,
    and otherwise tuples up to the shortest iterable. *)
Fixpoint zip_star {A} (its : list (list A)) : list (list A) :=
  match its with
  | [] => []
  | [c] => map (fun x => [x]) c
  | c :: cs => zip_with cons c (zip_star cs)
  end.

Definition hashable (e : elem) : result scalar :=
  match e with
  | Elem s => ret s
  | Sub _ => raise (TypeError "unhashable type: 'numpy.ndarray'")
  end.

(** [list(OrderedDict.fromkeys(keys))]: each key is inserted unless an
    equal key is present already; the order is that of first insertion. *)
Definition fromkeys (keys : list (list scalar)) : list (list scalar) :=
  fold_left (fun seen k => if existsb (fun s => tuple_eqb s k) seen then seen
                           else (seen ++ [k])%list) keys [].

Definition enumerate {A} (l : list A) : list (nat * A) := zip (seq 0 (length l)) l.

Module AggMethod.

Record t := { _group_by_cols : list string;
              _aggregation : dict (aggfn * string) }.

Definition __post_init__ (group_by : list string) (aggregation : InitAggregation)
  : result t :=
  let* aggs := foldM (fun acc '(rename, agg) =>
                        match agg with
                        | Callable fn => ret (dict_set rename (fn, rename) acc)
                        | Renamed fn col => ret (dict_set rename (fn, col) acc)
                        | NotAnAggregation repr =>
                            raise (ValueError (repr +:+ " is not a valid aggregation argument"))
                        end) aggregation [] in
  ret {| _group_by_cols := group_by; _aggregation := aggs |}.

Definition _validate (self : t) (tafra : Tafra) : result unit :=
  let cols := columns tafra in
  let check := fun (_ : unit) (col : string) =>
                 if bool_decide (col ∈ cols) then ret tt
                 else raise (KeyError (col +:+ " does not exist in tafra")) in
  let* _ := foldM check (_group_by_cols self) tt in
  foldM check (map snd (dict_values (_aggregation self))) tt.

Definition unique_groups (self : t) (tafra : Tafra) : result (list (list scalar)) :=
  let* arrays := mapM (fun col => getitem_str col tafra) (_group_by_cols self) in
  let* its := mapM np_iter arrays in
  let* keys := mapM (mapM hashable) (zip_star its) in
  ret (fromkeys keys).

Definition result_factory (self : t) (fn : string -> string -> result ndarray)
  : result (dict ndarray) :=
  let pairs := (map (fun col => (col, col)) (_group_by_cols self)
                ++ map (fun '(rename, agg) => (rename, snd agg)) (_aggregation self))%list in
  let* items := mapM (fun '(rename, col) =>
                        let* a := fn rename col in ret (rename, a)) pairs in
  ret (dict_of_items items).

(** [result[name]] *)
Definition result_at (name : string) (res : dict ndarray) : result ndarray :=
  match dict_get name res with
  | Some a => ret a
  | None => raise (KeyError name)
  end.

(** [for i, u in enumerate(unique): body], keeping the [which_rows] each
    iteration ends with. *)
Fixpoint for_groups (body : nat * list scalar -> dict ndarray ->
                            result (list bool * dict ndarray))
         (groups : list (nat * list scalar)) (res : dict ndarray)
  : result (list (list bool) * dict ndarray) :=
  match groups with
  | [] => ret ([], res)
  | g :: groups' =>
      let* (which_rows, res) := body g res in
      let* (masks, res) := for_groups body groups' res in
      ret (which_rows :: masks, res)
  end.

End AggMethod.

(** [np.full(tafra.rows, True)] *)
Definition all_rows (tafra : Tafra) : result (list bool) :=
  let* n := rows tafra in ret (np.full_true n).

(** One turn of the loop over [zip(u, self._group_by_cols)], as far as
    the mask goes: [which_rows &= tafra[col] == val]. *)
Definition mask_step (tafra : Tafra) (which_rows : list bool) (vc : scalar * string)
  : result (list bool) :=
  let (val, col) := vc in
  let* a := getitem_str col tafra in
  np.iand which_rows (np.equal a val).

Module GroupBy.

(** The body of the loop over [enumerate(unique)]. *)
Definition group `{!NumPy} (self : AggMethod.t) (tafra : Tafra)
           (iu : nat * list scalar) (res : dict ndarray)
  : result (list bool * dict ndarray) :=
  let (i, u) := iu in
  let* which_rows := all_rows tafra in
  let* (which_rows, res) :=
    foldM (fun '(which_rows, res) '(val, col) =>
             let* which_rows := mask_step tafra which_rows (val, col) in
             let* r := AggMethod.result_at col res in
             let* r' := setitem_int r i val in
             ret (which_rows, dict_set col r' res))
          (zip u (AggMethod._group_by_cols self)) (which_rows, res) in
  let* res :=
    foldM (fun res '(rename, (fn, col)) =>
             let* a := getitem_str col tafra in
             let* sub := np.getitem_mask a which_rows in
             let* v := fn sub in
             let* r := AggMethod.result_at rename res in
             let* r' := setitem_int r i v in
             ret (dict_set rename r' res))
          (AggMethod._aggregation self) res in
  ret (which_rows, res).

(** [apply] up to the end of its loop: the [which_rows] of every group and
    the result arrays. *)
Definition run `{!NumPy} (self : AggMethod.t) (tafra : Tafra)
  : result (list (list bool) * dict ndarray) :=
  let* _ := AggMethod._validate self tafra in
  let* unique := AggMethod.unique_groups self tafra in
  let* res := AggMethod.result_factory self
                (fun rename col =>
                   let* a := getitem_str col tafra in
                   ret (np.empty (length unique) (dtype a))) in
  AggMethod.for_groups (group self tafra) (enumerate unique) res.

Definition apply `{!NumPy} (self : AggMethod.t) (tafra : Tafra) : result Tafra :=
  let* (_, res) := run self tafra in
  __init__ res [].

End GroupBy.

Module Transform.

Definition group `{!NumPy} (self : AggMethod.t) (tafra : Tafra)
           (iu : nat * list scalar) (res : dict ndarray)
  : result (list bool * dict ndarray) :=
  let (i, u) := iu in
  let* which_rows := all_rows tafra in
  let* (which_rows, res) :=
    foldM (fun '(which_rows, res) '(val, col) =>
             let* which_rows := mask_step tafra which_rows (val, col) in
             let* a := getitem_str col tafra in
             let* sub := np.getitem_mask a which_rows in
             let* r := AggMethod.result_at col res in
             let* r' := setitem_mask_array r which_rows sub in
             ret (which_rows, dict_set col r' res))
          (zip u (AggMethod._group_by_cols self)) (which_rows, res) in
  let* res :=
    foldM (fun res '(rename, (fn, col)) =>
             let* a := getitem_str col tafra in
             let* sub := np.getitem_mask a which_rows in
             let* v := fn sub in
             let* r := AggMethod.result_at rename res in
             let* r' := setitem_mask r which_rows v in
             ret (dict_set rename r' res))
          (AggMethod._aggregation self) res in
  ret (which_rows, res).

Definition run `{!NumPy} (self : AggMethod.t) (tafra : Tafra)
  : result (list (list bool) * dict ndarray) :=
  let* _ := AggMethod._validate self tafra in
  let* unique := AggMethod.unique_groups self tafra in
  let* res := AggMethod.result_factory self
                (fun rename col =>
                   let* a := getitem_str col tafra in
                   ret (np.empty_like a)) in
  AggMethod.for_groups (group self tafra) (enumerate unique) res.

Definition apply `{!NumPy} (self : AggMethod.t) (tafra : Tafra) : result Tafra :=
  let* (_, res) := run self tafra in
  __init__ res [].

End Transform.

(** What a generator does when it is run to its end: the values it
    yields, and the exception that ends it if one does. *)
Definition generator (A : Type) : Type := (list A * option exn)%type.

Module IterateBy.

Definition mask_array (which_rows : list bool) : ndarray :=
  {| dtype := "bool"; body := Arr1 (map SBool which_rows) |}.

(** One turn of the loop: the mask of the group and the pair it yields.
    The dictionary of empty arrays the loop builds first is never used;
    [tafra[which_rows]] is [__getitem__] on an array, hence [_index]. *)
Definition group `{!NumPy} (self : AggMethod.t) (tafra : Tafra) (iu : nat * list scalar)
  : result (list bool * (nat * Tafra)) :=
  let (i, u) := iu in
  let* which_rows := all_rows tafra in
  let* _ := AggMethod.result_factory self
              (fun rename col => ret (np.empty (np.count_true which_rows) "float64")) in
  let* which_rows :=
    foldM (mask_step tafra) (zip u (AggMethod._group_by_cols self)) which_rows in
  let* t := _index (mask_array which_rows) tafra in
  ret (which_rows, (i, t)).

Fixpoint yield_groups `{!NumPy} (self : AggMethod.t) (tafra : Tafra)
         (groups : list (nat * list scalar)) : generator (list bool * (nat * Tafra)) :=
  match groups with
  | [] => ([], None)
  | g :: groups' =>
      match group self tafra g with
      | inl e => ([], Some e)
      | inr y => let (ys, stop) := yield_groups self tafra groups' in (y :: ys, stop)
      end
  end.

(** The generator together with the mask behind each pair it yields. *)
Definition run `{!NumPy} (self : AggMethod.t) (tafra : Tafra)
  : generator (list bool * (nat * Tafra)) :=
  match (let* _ := AggMethod._validate self tafra in
         AggMethod.unique_groups self tafra) with
  | inl e => ([], Some e)
  | inr unique => yield_groups self tafra (enumerate unique)
  end.

Definition apply `{!NumPy} (self : AggMethod.t) (tafra : Tafra) : generator (nat * Tafra) :=
  let (ys, stop) := run self tafra in (map snd ys, stop).

End IterateBy.

(** The helpers of [Tafra] that build the aggregation and apply it. *)
Definition group_by `{!NumPy} (group_by : list string) (aggregation : InitAggregation)
           (self : Tafra) : result Tafra :=
  let* agg := AggMethod.__post_init__ group_by aggregation in
  GroupBy.apply agg self.

Definition transform `{!NumPy} (group_by : list string) (aggregation : InitAggregation)
           (self : Tafra) : result Tafra :=
  let* agg := AggMethod.__post_init__ group_by aggregation in
  Transform.apply agg self.

Definition iterate_by `{!NumPy} (group_by : list string) (self : Tafra)
  : generator (nat * Tafra) :=
  match AggMethod.__post_init__ group_by [] with
  | inl e => ([], Some e)
  | inr agg => IterateBy.apply agg self
  end.

(** ** Python's [sum]

    [sum(a)] adds the elements of [a] to [0] from left to right.  In a
    typed array integers are [np.int64] and wrap around; in an [object]
    array they are Python integers.  Floats add as binary64. *)

Definition wrap64 (z : Z) : Z := ((z + 2 ^ 63) mod 2 ^ 64 - 2 ^ 63)%Z.

Definition int_of (s : scalar) : option Z :=
  match s with
  | SInt z => Some z
  | SBool b => Some (Z.b2z b)
  | _ => None
  end.

Definition to_float (fixed : bool) (z : Z) : result spec_float :=
  match binary_normalize 53 1024 z 0 false with
  | S754_infinity s =>
      if fixed then ret (S754_infinity s)
      else raise (OverflowError "int too large to convert to float")
  | f => ret f
  end.

(** [acc + x] for a running total [acc], which is an integer or a float. *)
Definition add_to (fixed : bool) (acc x : scalar) : result scalar :=
  match acc, x with
  | _, SUndef | SUndef, _ => ret SUndef
  | SFloat f, SFloat g => ret (SFloat (SFadd 53 1024 f g))
  | SFloat f, _ =>
      match int_of x with
      | Some z => let* g := to_float fixed z in ret (SFloat (SFadd 53 1024 f g))
      | None => raise (TypeError "unsupported operand type(s) for +")
      end
  | _, SFloat g =>
      match int_of acc with
      | Some z => let* f := to_float fixed z in ret (SFloat (SFadd 53 1024 f g))
      | None => raise (TypeError "unsupported operand type(s) for +")
      end
  | _, _ =>
      match int_of acc, int_of x with
      | Some a, Some b => ret (SInt (if fixed then wrap64 (a + b) else (a + b)%Z))
      | _, _ => raise (TypeError "unsupported operand type(s) for +")
      end
  end.

Definition py_sum : aggfn := fun a =>
  match body a with
  | Arr0 _ => raise (TypeError "iteration over a 0-d array")
  | Arr1 l => foldM (add_to (negb (bool_decide (dtype a = "object")))) l (SInt 0)
  | ArrN _ _ _ => raise (TypeError "only length-1 arrays can be converted to Python scalars")
  end.

(** Python's [len] as a reduction. *)
Definition py_len : aggfn := fun a => let* n := np.len a in ret (SInt (Z.of_nat n)).

(** ** An instance of numpy for the examples

    Conversions between booleans, 64-bit integers, binary64 floats and
    objects.  Conversions from and to text and dates are not part of this
    instance: they raise here. *)

Definition float_trunc (f : spec_float) : Z :=
  match f with
  | S754_zero _ => 0%Z
  | S754_finite s m e =>
      let v := match e with
               | Zneg p => Z.quot (Zpos m) (2 ^ Zpos p)
               | _ => (Zpos m * 2 ^ e)%Z
               end in
      if s then (- v)%Z else v
  | _ => (- 2 ^ 63)%Z
  end.

Definition float_nonzero (f : spec_float) : bool :=
  match f with
  | S754_zero _ => false
  | _ => true
  end.

Definition cast_scalar (kind : string) (s : scalar) : result scalar :=
  if decide (kind = "object") then ret s
  else match s with
       | SUndef => ret SUndef
       | SStr _ => raise (TypeError "text conversions are outside this instance")
       | SInt z =>
           if decide (kind = "int") then ret (SInt (wrap64 z))
           else if decide (kind = "bool") then ret (SBool (negb (z =? 0)%Z))
           else if decide (kind = "float") then
                  let* f := to_float true z in ret (SFloat f)
           else raise (TypeError "text conversions are outside this instance")
       | SBool b =>
           if decide (kind = "int") then ret (SInt (Z.b2z b))
           else if decide (kind = "bool") then ret (SBool b)
           else if decide (kind = "float") then
                  let* f := to_float true (Z.b2z b) in ret (SFloat f)
           else raise (TypeError "text conversions are outside this instance")
       | SFloat f =>
           if decide (kind = "int") then ret (SInt (wrap64 (float_trunc f)))
           else if decide (kind = "bool") then ret (SBool (float_nonzero f))
           else if decide (kind = "float") then ret (SFloat f)
           else raise (TypeError "text conversions are outside this instance")
       end.

Definition kind_dtype (kind : string) : string :=
  if decide (kind = "int") then "int64"
  else if decide (kind = "float") then "float64"
  else kind.

Definition map_cells (f : scalar -> result scalar) (c : cells) : result cells :=
  match c with
  | Arr0 s => let* s' := f s in ret (Arr0 s')
  | Arr1 l => let* l' := mapM f l in ret (Arr1 l')
  | ArrN d inner planes => let* p' := mapM (mapM f) planes in ret (ArrN d inner p')
  end.

Definition scalar_kind (s : scalar) : string :=
  match s with
  | SInt _ => "int"
  | SBool _ => "bool"
  | SFloat _ => "float"
  | SStr _ => "str"
  | SUndef => "object"
  end.

(** The common kind of a list of scalars: [bool] below [int] below
    [float]; text does not mix with numbers here. *)
Definition join_kind (k1 k2 : string) : result string :=
  if decide (k1 = k2) then ret k1
  else if decide (k1 = "str" \/ k2 = "str") then
         raise (TypeError "text conversions are outside this instance")
  else if decide (k1 = "float" \/ k2 = "float") then ret "float"
  else ret "int".

Definition common_kind (l : list scalar) : result string :=
  match l with
  | [] => ret "float"
  | s :: l' => foldM (fun k x => join_kind k (scalar_kind x)) l' (scalar_kind s)
  end.

Definition text_dtype (l : list scalar) : string :=
  "<U" +:+ pretty (foldr (fun s n => match s with
                                    | SStr t => Nat.max (String.length t) n
                                    | _ => n
                                    end) 0 l).

Definition make_array (l : list scalar) (shape_of : list scalar -> cells) : result ndarray :=
  let* k := common_kind l in
  if decide (k = "str") then ret {| dtype := text_dtype l; body := shape_of l |}
  else let* l' := mapM (cast_scalar k) l in
       ret {| dtype := kind_dtype k; body := shape_of l' |}.

#[export] Instance numpy : NumPy := {|
  astype := fun t a =>
    let kind := if decide (t = "datetime64") then "date" else t in
    if decide (kind = "str" \/ kind = "date") then
      raise (TypeError "text conversions are outside this instance")
    else let* c := map_cells (cast_scalar kind) (body a) in
         ret {| dtype := kind_dtype kind; body := c |};
  asarray := fun o =>
    match o with
    | PyScalar s => make_array [s] (fun l => Arr0 (hd SUndef l))
    | PyList l => make_array l Arr1
    | PyNested ll =>
        match ll with
        | [] => ret {| dtype := "float64"; body := ArrN 0 [] [] |}
        | row :: _ =>
            if forallb (fun r => bool_decide (length r = length row)) ll
            then make_array (concat ll)
                   (fun l => ArrN (length row) [] (np.chunks (length ll) (length row) l))
            else raise (ValueError "setting an array element with a sequence.")
        end
    end;
  setitem_cast := fun dt v =>
    if decide (dt = "object") then ret v
    else if np.is_integer_dtype dt then cast_scalar "int" v
    else if String.prefix "float" dt then cast_scalar "float" v
    else if decide (dt = "bool") then cast_scalar "bool" v
    else raise (TypeError "text conversions are outside this instance")
|}.

(** ** The table of the module's own example *)

Definition int64_array (l : list Z) : ndarray :=
  {| dtype := "int64"; body := Arr1 (map SInt l) |}.

Definition object_array (l : list scalar) : ndarray :=
  {| dtype := "object"; body := Arr1 l |}.

Definition float64_array (l : list spec_float) : ndarray :=
  {| dtype := "float64"; body := Arr1 (map SFloat l) |}.

Definition example_data : dict ndarray :=
  [ ("x", int64_array [1; 2; 3; 4; 5; 6]%Z);
    ("y", object_array [SStr "one"; SStr "two"; SStr "one";
                        SStr "two"; SStr "one"; SStr "two"]);
    ("z", int64_array [0; 0; 0; 1; 1; 1]%Z) ].

Definition build_tafra : result Tafra := __init__ example_data [].

(** ** Operations that the specification describes and [tafra.py] lacks

    The test suite calls [union], [union_inplace] and [cross_join] on a
    Tafra; the module under study defines neither (its [update] stores
    the columns of another table over the table's own and demands equal
    row counts, which is another operation).  They are modelled here from
    the specification, on tables whose arrays are one-dimensional. *)


(** [np.repeat(a, k)]: every element [k] times in a row. *)
Definition np_repeat (a : ndarray) (k : nat) : ndarray :=
  {| dtype := dtype a; body := Arr1 (flat_map (replicate k) (np.flat a)) |}.

(** [np.tile(a, k)]: the whole array [k] times over. *)
Definition np_tile (a : ndarray) (k : nat) : ndarray :=
  {| dtype := dtype a; body := Arr1 (concat (replicate k (np.flat a))) |}.





(** Modelled from the spec: one column of the cross join, which
    [tafra.py] does not define.  "Row i*right.rows + j pairs left-row i
    with right-row j": a left column has each element [right.rows] times
    in a row, a right column is laid out [left.rows] times over; "fails
    with IndexError if a requested column does not exist on either side".
    A name both sides have is taken from the left. *)
Definition cross_column (left right : Tafra) (nl nr : nat) (c : string)
  : result (string * ndarray) :=
  match dict_get c (_data left), dict_get c (_data right) with
  | Some a, _ => ret (c, np_repeat a nr)
  | None, Some b => ret (c, np_tile b nl)
  | None, None => raise (IndexError (c +:+ " does not exist in either table"))
  end.

(** Modelled from the spec: "the requested (or all) columns from both
    sides". *)
Definition cross_names (left right : Tafra) (select : option (list string)) : list string :=
  match select with
  | Some names => names
  | None => (columns left ++ columns right)%list
  end.

(** Modelled from the spec: a selection takes columns "from both sides".
    In the test suite ([test_cross_join]) the selections [['x', 'z']] and
    [['a', 'c']], which name columns of one table only, raise IndexError,
    and [['x', 'z', 'a', 'c']] is accepted. *)
Definition cross_select_ok (left right : Tafra) (names : list string) : bool :=
  existsb (fun c => dict_mem c (_data left)) names
  && existsb (fun c => dict_mem c (_data right)) names.

(** Modelled from the spec: [cross_join], which [tafra.py] does not
    define.  "Produces a Table of left.rows * right.rows rows -- row
    i*right.rows + j pairs left-row i with right-row j -- containing the
    requested (or all) columns from both sides; fails with IndexError if
    a requested column does not exist on either side." *)
Definition cross_join (right : Tafra) (select : option (list string)) (left : Tafra)
  : result Tafra :=
  let* nl := rows left in
  let* nr := rows right in
  let* _ := match select with
            | Some names =>
                if cross_select_ok left right names then ret tt
                else raise (IndexError "the selection names no column of one of the tables")
            | None => ret tt
            end in
  let* items := mapM (cross_column left right nl nr) (cross_names left right select) in
  let d := dict_of_items items in
  ret {| _data := d;
         _dtypes := map (fun '(c, a) => (c, _format_type (dtype a))) d |}.

(** ** Arrays as objects

    Whether two tables share an array is a matter of which array object a
    column refers to.  Here a column of a table is the location of an
    array in a store; copying allocates, assigning an element writes in
    place.  The contents of such a table at a given store are a [Tafra]
    of the previous sections. *)
Module Store.

Definition loc : Type := nat.

(** The arrays allocated so far: the locations below [next]. *)
Record heap := { next : loc; cell : loc -> ndarray }.

Definition alloc (a : ndarray) (h : heap) : loc * heap :=
  (next h,
   {| next := S (next h);
      cell := fun l => if decide (l = next h) then a else cell h l |}).

(** An in-place change of the array at [l]: its contents become [a]. *)
Definition write (l : loc) (a : ndarray) (h : heap) : heap :=
  {| next := next h;
     cell := fun l' => if decide (l' = l) then a else cell h l' |}.

Record t := { _data : list (string * loc); _dtypes : list (string * string) }.

(** The contents of the table at a store, and of one of its columns. *)
Definition snapshot (h : heap) (self : t) : Tafra :=
  Build_Tafra (map (fun '(column, l) => (column, cell h l)) (_data self)) (_dtypes self).

Definition column (h : heap) (self : t) (name : string) : option ndarray :=
  cell h <$> dict_get name (_data self).

(** [self[name]] for a string: [self._data[name]], the array itself. *)
Definition getitem_str (name : string) (self : t) : result loc :=
  match dict_get name (_data self) with
  | Some l => ret l
  | None => raise (KeyError name)
  end.

(** [a[i] = v] on the array object at [l]. *)
Definition setitem `{!NumPy} (l : loc) (i : nat) (v : scalar) (h : heap) : result heap :=
  let* a' := setitem_int (cell h l) i v in
  ret (write l a' h).

(** The loop of [update_types()]: a column whose dtype does not format
    to its tag is replaced by a converted array, which is a new object. *)
Fixpoint update_types_loop `{!NumPy} (columns : list string) (self : t) (h : heap)
  : result (t * heap) :=
  match columns with
  | [] => ret (self, h)
  | column :: rest =>
      match dict_get column (_data self) with
      | None => raise (KeyError column)
      | Some l =>
          match dict_get column (_dtypes self) with
          | None => raise (KeyError column)
          | Some tag =>
              if decide (_format_type (dtype (cell h l)) <> tag) then
                let* a' := _apply_type tag (cell h l) in
                let (l', h') := alloc a' h in
                update_types_loop rest
                  {| _data := dict_set column l' (_data self);
                     _dtypes := _dtypes self |} h'
              else update_types_loop rest self h
          end
      end
  end.

Definition update_types `{!NumPy} (self : t) (h : heap) : result (t * heap) :=
  update_types_loop (dict_keys (_dtypes self)) self h.

Fixpoint coalesce_loop (columns : list string) (self : t) (h : heap) : result t :=
  match columns with
  | [] => ret self
  | column :: rest =>
      if dict_mem column (_dtypes self) then coalesce_loop rest self h
      else
        match dict_get column (_data self) with
        | None => raise (KeyError column)
        | Some l =>
            coalesce_loop rest
              {| _data := _data self;
                 _dtypes := dict_set column (_format_type (dtype (cell h l)))
                                     (_dtypes self) |} h
        end
  end.

Definition coalesce_types (self : t) (h : heap) : result t :=
  coalesce_loop (dict_keys (_data self)) self h.

Definition __post_init__ `{!NumPy} (self : t) (h : heap) : result (t * heap) :=
  let* _ := foldM check_rows (map (fun '(column, l) => (column, cell h l)) (_data self))
                  None in
  let* (self, h) := match _dtypes self with
                    | [] => ret ({| _data := _data self; _dtypes := [] |}, h)
                    | _ => update_types self h
                    end in
  let* self := coalesce_types self h in
  ret (self, h).

(** [Tafra(_data, _dtypes)] on array objects. *)
Definition __init__ `{!NumPy} (data : list (string * loc)) (dtypes : list (string * string))
           (h : heap) : result (t * heap) :=
  __post_init__ {| _data := data; _dtypes := dtypes |} h.

(** The dictionary [{column: value.copy() for column, value in ...}]:
    one new array per column. *)
Fixpoint copy_columns (items : list (string * loc)) (h : heap)
  : list (string * loc) * heap :=
  match items with
  | [] => ([], h)
  | (column, l) :: rest =>
      let (l', h1) := alloc (np.copy (cell h l)) h in
      let (rest', h2) := copy_columns rest h1 in
      ((column, l') :: rest', h2)
  end.

Definition copy `{!NumPy} (self : t) (h : heap) : result (t * heap) :=
  let (data, h1) := copy_columns (_data self) h in
  __init__ data (_dtypes self) h1.

(** Every array of the table has been allocated. *)
Definition valid (h : heap) (self : t) : Prop :=
  Forall (fun l => l < next h) (dict_values (_data self)).

(** The arrays of the table were allocated at or after [n]. *)
Definition fresh_from (n : loc) (h : heap) (self : t) : Prop :=
  Forall (fun l => n <= l < next h) (dict_values (_data self)).

(** The store [h'] has the arrays of [h], unchanged, and maybe more. *)
Definition extends (h h' : heap) : Prop :=
  next h <= next h' /\ forall l, l < next h -> cell h' l = cell h l.

(** The example table as objects: its three arrays at 0, 1 and 2. *)
Definition example_heap : heap :=
  {| next := 3;
     cell := fun l => match l with
                      | 0 => int64_array [1; 2; 3; 4; 5; 6]%Z
                      | 1 => object_array [SStr "one"; SStr "two"; SStr "one";
                                           SStr "two"; SStr "one"; SStr "two"]
                      | _ => int64_array [0; 0; 0; 1; 1; 1]%Z
                      end |}.

Definition example : t :=
  {| _data := [("x", 0); ("y", 1); ("z", 2)];
     _dtypes := [("x", "int"); ("y", "object"); ("z", "int")] |}.

End Store.

(** ** Notions the theorems are stated with *)

(** What the module relies on from numpy's conversions: [astype] keeps
    the length of the array. *)
Class NumPyLaws (N : NumPy) : Prop := {
  astype_len : forall t a a', astype t a = inr a' -> np.len a' = np.len a
}.

(** Invariant I2: every column is as long as [rows] says. *)
Definition row_consistent (t : Tafra) : Prop :=
  exists n, rows t = inr n /\
            Forall (fun a => np.len a = inr n) (dict_values (_data t)).

(** The lengths of the columns, in order. *)
Definition lens (d : dict ndarray) : list (string * result nat) :=
  map (fun kv => (fst kv, np.len (snd kv))) d.

(** The table of the example, once built. *)
Definition example_tafra : Tafra :=
  {| _data := example_data;
     _dtypes := [("x", "int"); ("y", "object"); ("z", "int")] |}.

(** The positions a mask selects, in increasing order. *)
Definition true_indices (mask : list bool) : list nat :=
  np.select mask (seq 0 (length mask)).

(** The empty table. *)
Definition empty_tafra : Tafra := {| _data := []; _dtypes := [] |}.

(** Keys that differ pairwise, each from all the later ones. *)
Fixpoint distinct_keys (l : list (list scalar)) : Prop :=
  match l with
  | [] => True
  | x :: l' => Forall (fun y => tuple_eqb x y = false) l' /\ distinct_keys l'
  end.

(** A value that equals itself: everything but [nan] and an
    uninitialised cell. *)
Definition self_equal (s : scalar) : Prop := scalar_eqb s s = true.

(** The mask of the group with key [u]: the loop over the group-by
    columns, without the stores into the result. *)
Definition which_rows_of (tafra : Tafra) (cols : list string) (u : list scalar)
  : result (list bool) :=
  let* which_rows := all_rows tafra in
  foldM (mask_step tafra) (zip u cols) which_rows.

(** The rows of [n]-element columns, read across. *)
Fixpoint transpose {A} (n : nat) (cols : list (list A)) : list (list A) :=
  match cols with
  | [] => replicate n []
  | c :: cs => zip_with cons c (transpose n cs)
  end.

(** No group-by value is [nan] (or uninitialised). *)
Definition group_values_self_equal (tafra : Tafra) (cols : list string) : Prop :=
  forall col a, In col cols -> getitem_str col tafra = inr a ->
                Forall self_equal (np.flat a).

(** A table with one float column that holds [nan] and [1.0]. *)
Definition nan_tafra : Tafra :=
  {| _data := [("x", float64_array [S754_nan; S754_finite false 4503599627370496 (-52)])];
     _dtypes := [("x", "float")] |}.

Definition group_by_x : AggMethod.t :=
  {| AggMethod._group_by_cols := ["x"]; AggMethod._aggregation := [] |}.

Definition group_by_nothing : AggMethod.t :=
  {| AggMethod._group_by_cols := []; AggMethod._aggregation := [] |}.

Definition example_agg : AggMethod.t :=
  {| AggMethod._group_by_cols := ["y"; "z"]; AggMethod._aggregation := [] |}.

(** What it is for masks to partition [n] rows. *)
Definition partition_rows (n : nat) (masks : list (list bool)) : Prop :=
  Forall (fun m => length m = n) masks /\
  (forall i j mi mj r, i <> j -> masks !! i = Some mi -> masks !! j = Some mj ->
                       mi !! r = Some true -> mj !! r = Some true -> False) /\
  (forall r, r < n -> exists i mi, masks !! i = Some mi /\ mi !! r = Some true) /\
  sum_list (map np.count_true masks) = n.

(** A group-by column that is a one-dimensional array with elements [l]. *)
Definition column_is (tafra : Tafra) (col : string) (l : list scalar) : Prop :=
  exists a, getitem_str col tafra = inr a /\ body a = Arr1 l.

(** The result array for the group-by column [c] has the shape and dtype
    of the column, and agrees with it at the rows [P] singles out. *)
Definition filled (tafra : Tafra) (res : list (string * ndarray)) (c : string)
           (P : nat -> Prop) : Prop :=
  forall a l, getitem_str c tafra = inr a -> body a = Arr1 l ->
    exists l', dict_get c res = Some {| dtype := dtype a; body := Arr1 l' |} /\
               length l' = length l /\
               forall i, P i -> l' !! i = l !! i.

Definition mask_le (m m' : list bool) : Prop :=
  forall i, m !! i = Some true -> m' !! i = Some true.

(** The number of keys of [U] that [k] equals. *)
Definition hits (k : list scalar) (U : list (list scalar)) : nat :=
  sum_list (map (fun u => if tuple_eqb k u then 1 else 0) U).

(** For each key of [U], the mask of the rows of [keys] that equal it. *)
Definition key_masks (keys U : list (list scalar)) : list (list bool) :=
  map (fun u => map (fun k => tuple_eqb k u) keys) U.

(** One insertion of [fromkeys]. *)
Definition fromkeys_step (seen : list (list scalar)) (k : list scalar) :=
  if existsb (fun s => tuple_eqb s k) seen then seen else (seen ++ [k])%list.

Definition str_one : scalar := SStr "one".
Definition str_two : scalar := SStr "two".

(** A table with the columns of the example and the given rows. *)
Definition example_part (xs : list Z) (ys : list scalar) (zs : list Z) : Tafra :=
  {| _data := [("x", int64_array xs); ("y", object_array ys); ("z", int64_array zs)];
     _dtypes := [("x", "int"); ("y", "object"); ("z", "int")] |}.

(** Every array of a result dictionary has length [n]. *)
Definition all_len (n : nat) (res : list (string * ndarray)) : Prop :=
  Forall (fun a => np.len a = inr n) (dict_values res).

Definition sum_x_agg : AggMethod.t :=
  {| AggMethod._group_by_cols := ["y"; "z"];
     AggMethod._aggregation := [("x", (py_sum, "x"))] |}.

(** An aggregation that sums [z] under the name of the group-by column
    [z] itself. *)
Definition sum_z_agg : AggMethod.t :=
  {| AggMethod._group_by_cols := ["z"];
     AggMethod._aggregation := [("z", (py_sum, "z"))] |}.

(** A column of time differences: its dtype has no canonical tag. *)
Definition timedelta_array (l : list Z) : ndarray :=
  {| dtype := "timedelta64[ns]"; body := Arr1 (map SInt l) |}.

Definition timedelta_tafra : Tafra :=
  {| _data := [("c", timedelta_array [1; 2; 3; 4; 5; 6]%Z)];
     _dtypes := [("c", "timedelta64[ns]")] |}.

Definition group_by_w : AggMethod.t :=
  {| AggMethod._group_by_cols := ["w"]; AggMethod._aggregation := [] |}.

(** The data model of the specification: every array of the table is
    one-dimensional. *)
Definition one_dimensional (t : Tafra) : Prop :=
  Forall (fun a => exists l, body a = Arr1 l) (dict_values (_data t)).



(** A second table for the joins, with columns of its own. *)
Definition example_right : Tafra :=
  {| _data := [("a", int64_array [10; 20]%Z); ("b", object_array [str_one; str_two])];
     _dtypes := [("a", "int"); ("b", "object")] |}.

(** ** Records

    [to_records] yields one tuple per row, each field converted by the
    entry of [RECORD_TYPE] for the tag of its column. *)

(** The Python values a record holds. *)
Inductive pyvalue :=
| PyInt (z : Z)
| PyFloat (f : spec_float)
| PyBool (b : bool)
| PyStr (s : string)
| PyNone.

(** The builtins [RECORD_TYPE] and [_cast_records] call: Python's [int],
    [float], [bool] and [str], the [strftime] of a date, and
    [np.isnan]. *)
Class Builtins := {
  py_int : scalar -> result pyvalue;
  py_float : scalar -> result pyvalue;
  py_bool : scalar -> result pyvalue;
  py_str : scalar -> result pyvalue;
  strftime : string -> scalar -> result pyvalue;
  isnan : scalar -> result bool
}.

Definition RECORD_TYPE `{!Builtins} : dict (scalar -> result pyvalue) :=
  [ ("int", fun x => py_int x);
    ("float", fun x => py_float x);
    ("bool", fun x => py_bool x);
    ("str", fun x => py_str x);
    ("date", fun x => strftime "%Y-%m-%d" x);
    ("object", fun x => py_str x) ].

(** [a.item()]: the one element of an array of size one. *)
Definition np_item (a : ndarray) : result scalar :=
  match np.flat a with
  | [s] => ret s
  | _ => raise (ValueError "can only convert an array of size 1 to a Python scalar")
  end.

(** [a[[row]]]: indexing with the list of one integer. *)
Definition getitem_row (a : ndarray) (row : nat) : result ndarray :=
  np.getitem_array a "int64" [SInt (Z.of_nat row)].

Definition _cast_records `{!Builtins} (dtype : string) (data : ndarray) (cast_null : bool)
  : result pyvalue :=
  let* convert := match dict_get dtype RECORD_TYPE with
                  | Some f => ret f
                  | None => raise (KeyError dtype)
                  end in
  let* x := np_item data in
  let* value := convert x in
  if cast_null && bool_decide (dtype = "float") then
    let* x := np_item data in
    let* null := isnan x in
    if null then ret PyNone else ret value
  else ret value.

(** The tuple of one row. *)
Definition record `{!Builtins} (_columns : list string) (cast_null : bool) (row : nat)
           (self : Tafra) : result (list pyvalue) :=
  mapM (fun c =>
          let* tag := match dict_get c (_dtypes self) with
                      | Some t => ret t
                      | None => raise (KeyError c)
                      end in
          let* a := getitem_str c self in
          let* data := getitem_row a row in
          _cast_records tag data cast_null) _columns.

Fixpoint yield_records `{!Builtins} (_columns : list string) (cast_null : bool)
         (rows : list nat) (self : Tafra) : generator (list pyvalue) :=
  match rows with
  | [] => ([], None)
  | row :: rows' =>
      match record _columns cast_null row self with
      | inl e => ([], Some e)
      | inr r => let (rs, stop) := yield_records _columns cast_null rows' self in
                 (r :: rs, stop)
      end
  end.

Definition to_records `{!Builtins} (cols : option (list string)) (cast_null : bool)
           (self : Tafra) : generator (list pyvalue) :=
  let _columns := match cols with
                  | None => columns self
                  | Some cols => cols
                  end in
  match rows self with
  | inl e => ([], Some e)
  | inr n => yield_records _columns cast_null (seq 0 n) self
  end.

(** An instance of the builtins for the examples: conversions between
    booleans, integers and floats, and [str] of a string.  Parsing and
    printing numbers, and dates, are not part of this instance. *)
Definition float_is_nan (f : spec_float) : bool :=
  match f with
  | S754_nan => true
  | _ => false
  end.

#[export] Instance builtins : Builtins := {|
  py_int := fun x =>
    match x with
    | SInt z => ret (PyInt z)
    | SBool b => ret (PyInt (Z.b2z b))
    | SFloat (S754_finite _ _ _ as f) | SFloat (S754_zero _ as f) => ret (PyInt (float_trunc f))
    | SFloat S754_nan => raise (ValueError "cannot convert float NaN to integer")
    | SFloat (S754_infinity _) => raise (OverflowError "cannot convert float infinity to integer")
    | _ => raise (TypeError "text conversions are outside this instance")
    end;
  py_float := fun x =>
    match x with
    | SFloat f => ret (PyFloat f)
    | SInt z => let* f := to_float false z in ret (PyFloat f)
    | SBool b => let* f := to_float false (Z.b2z b) in ret (PyFloat f)
    | _ => raise (TypeError "text conversions are outside this instance")
    end;
  py_bool := fun x =>
    match x with
    | SBool b => ret (PyBool b)
    | SInt z => ret (PyBool (negb (z =? 0)%Z))
    | SFloat f => ret (PyBool (float_nonzero f))
    | SStr s => ret (PyBool (negb (String.eqb s "")))
    | SUndef => raise (TypeError "text conversions are outside this instance")
    end;
  py_str := fun x =>
    match x with
    | SStr s => ret (PyStr s)
    | _ => raise (TypeError "text conversions are outside this instance")
    end;
  strftime := fun _ _ => raise (TypeError "text conversions are outside this instance");
  isnan := fun x =>
    match x with
    | SFloat f => ret (float_is_nan f)
    | SInt _ | SBool _ => ret false
    | _ => raise (TypeError "ufunc 'isnan' not supported for the input types")
    end
|}.

(** ** [from_dataframe]

    A pandas [DataFrame] as far as [from_dataframe] reads it: its
    columns in order, each with the string of its dtype ([df.dtypes])
    and the array of its values ([df[c].values]). *)

Definition DataFrame : Type := list (string * (string * ndarray)).

Definition df_columns (df : DataFrame) : list string := map fst df.
Definition df_dtypes (df : DataFrame) : list string := map (fun c => fst (snd c)) df.

Definition df_values (c : string) (df : DataFrame) : result ndarray :=
  match dict_get c df with
  | Some (_, a) => ret a
  | None => raise (KeyError c)
  end.

Definition from_dataframe `{!NumPy} (df : DataFrame) (dtypes : option (dict string))
  : result Tafra :=
  let dtypes := match dtypes with
                | None => dict_of_items (zip (df_columns df) (df_dtypes df))
                | Some dtypes => dtypes
                end in
  let dtypes := dict_of_items (map (fun '(c, t) => (c, _format_type t)) dtypes) in
  let dtypes_at := fun c => match dict_get c dtypes with
                            | Some t => ret t
                            | None => raise (KeyError c)
                            end in
  let* data := mapM (fun c =>
                       let* t := dtypes_at c in
                       let* values := df_values c df in
                       let* a := _apply_type t values in
                       ret (c, a)) (df_columns df) in
  let* tags := mapM (fun c => let* t := dtypes_at c in ret (c, t)) (df_columns df) in
  __init__ (dict_of_items data) (dict_of_items tags).

(** A frame with an integer column and a column of time differences. *)
Definition example_frame : DataFrame :=
  [ ("a", ("int32", {| dtype := "int32"; body := Arr1 [SInt 1; SInt 2] |}));
    ("b", ("bool", {| dtype := "bool"; body := Arr1 [SBool true; SBool false] |})) ].

Definition timedelta_frame : DataFrame :=
  [ ("d", ("timedelta64[ns]", timedelta_array [1; 2]%Z)) ].

(** ** More methods on arrays as objects

    [_index] and [update] on tables whose columns are array objects:
    [value[index]] with an index array makes a new array (numpy's
    advanced indexing copies), while [update] stores the arrays of the
    other table themselves. *)

Module Objects.

(** The dictionary [{column: value[index] for column, value in ...}]. *)
Fixpoint index_columns (index_dtype : string) (ix : list scalar)
         (items : list (string * Store.loc)) (h : Store.heap)
  : result (list (string * Store.loc) * Store.heap) :=
  match items with
  | [] => ret ([], h)
  | (column, l) :: rest =>
      let* a := np.getitem_array (Store.cell h l) index_dtype ix in
      let (l', h1) := Store.alloc a h in
      let* (rest', h2) := index_columns index_dtype ix rest h1 in
      ret ((column, l') :: rest', h2)
  end.

Definition _index `{!NumPy} (index : ndarray) (self : Store.t) (h : Store.heap)
  : result (Store.t * Store.heap) :=
  match body index with
  | Arr1 ix =>
      let* (data, h1) := index_columns (dtype index) ix (Store._data self) h in
      Store.__init__ data (Store._dtypes self) h1
  | _ => raise (ValueError ("Indexing np.ndarray must ndim == 1, got ndim == "
                            +:+ pretty (np.ndim index)))
  end.

(** [self.update(other)], when it returns: the table afterwards. *)
Definition update `{!NumPy} (other self : Store.t) (h : Store.heap)
  : result (Store.t * Store.heap) :=
  let* rows := rows (Store.snapshot h self) in
  let* data := foldM (fun data '(column, l) =>
                        let* n := np.len (Store.cell h l) in
                        if decide (n <> rows) then raise (ValueError (other_rows_msg rows n))
                        else ret (dict_set column l data))
                     (Store._data other) (Store._data self) in
  let* dtypes := _validate_types (Store._dtypes other) in
  Store.update_types {| Store._data := data;
                        Store._dtypes := dict_update (Store._dtypes self) dtypes |} h.

End Objects.

(** ** Further notions, for the properties of the remaining methods *)

(** The line that [_validate_types] adds to its message for a tag that is
    not registered. *)
Definition invalid_dtype_line (column t : string) : string :=
  "`" +:+ t +:+ "` is not a valid dtype for `" +:+ column +:+ ".`" +:+ nl.

(** The items of a dtype mapping with their tags formatted, and those
    among them whose tag is not registered. *)
Definition formatted (dtypes : dict string) : list (string * string) :=
  map (fun ct => (fst ct, _format_type (snd ct))) dtypes.

Definition unregistered `{!NumPy} (dtypes : dict string) : list (string * string) :=
  filter (fun ct => dict_mem (snd ct) TAFRA_TYPE = false) (formatted dtypes).

Definition invalid_dtype_lines (bad : list (string * string)) : string :=
  foldr (fun ct msg => invalid_dtype_line (fst ct) (snd ct) +:+ msg) "" bad.

(** The tags describe the arrays: every column has a tag, and a tag
    belongs to a column whose dtype formats to it. *)
Definition tags_agree (t : Tafra) : Prop :=
  (forall c, c ∈ dict_keys (_data t) -> is_Some (dict_get c (_dtypes t))) /\
  (forall c tag, dict_get c (_dtypes t) = Some tag ->
     exists a, dict_get c (_data t) = Some a /\ _format_type (dtype a) = tag).

(** What [update_types] makes of the array [a] of a column, given the tag
    the column has when the loop runs: nothing without a tag or when the
    dtype formats to the tag, and otherwise the conversion. *)
Definition retyped `{!NumPy} (tag : option string) (a : ndarray) : result ndarray :=
  match tag with
  | None => ret a
  | Some tag => if decide (_format_type (dtype a) <> tag) then _apply_type tag a else ret a
  end.

(** The tags [update_types] works with: those of the table, updated with
    the validated ones when there are some. *)
Definition updated_tags (dtypes : option (dict string)) (t : Tafra) : dict string :=
  match dtypes with
  | Some dtypes => dict_update (_dtypes t) (dict_of_items (formatted dtypes))
  | None => _dtypes t
  end.

(** [d'] has the columns of [d], each with an array of the same dtype. *)
Definition same_columns (d d' : dict ndarray) : Prop :=
  Forall2 (fun ca ca' => fst ca' = fst ca /\ dtype (snd ca') = dtype (snd ca)) d d'.

(** The arrays of a result dictionary are one-dimensional, of length [U]. *)
Definition shaped (U : nat) (res : dict ndarray) : Prop :=
  Forall (fun a => exists l, body a = Arr1 l /\ length l = U) (dict_values res).

(** The cell [i] of the result array [name] holds [v], as converted to
    the dtype of the array when it was stored. *)
Definition cell_holds `{!NumPy} (res : dict ndarray) (name : string) (i : nat) (v : scalar)
  : Prop :=
  exists a l v', dict_get name res = Some a /\ body a = Arr1 l /\
                 setitem_cast (dtype a) v = inr v' /\ l !! i = Some v'.

(** The reduction [fn] of the rows of [col] that [mask] selects is [v]. *)
Definition aggregate_is (tafra : Tafra) (mask : list bool) (fn : aggfn) (col : string)
           (v : scalar) : Prop :=
  exists a sub, getitem_str col tafra = inr a /\ np.getitem_mask a mask = inr sub /\
                fn sub = inr v.

(** The arrays of [res'] have the dtypes of the arrays of [res] under the
    same names. *)
Definition same_dtypes (res res' : dict ndarray) : Prop :=
  forall name a', dict_get name res' = Some a' ->
                  exists a0, dict_get name res = Some a0 /\ dtype a' = dtype a0.

(** A table to update the example with: a new [x] and a column [w]. *)
Definition example_other : Tafra :=
  {| _data := [("x", int64_array [6; 5; 4; 3; 2; 1]%Z);
               ("w", int64_array [1; 1; 2; 2; 3; 3]%Z)];
     _dtypes := [("x", "int"); ("w", "int")] |}.

(** The key [u] is the key at the position [i] of [keys], and no key
    before that position equals it. *)
Definition first_at (keys : list (list scalar)) (i : nat) (u : list scalar) : Prop :=
  keys !! i = Some u /\
  forall j k, j < i -> keys !! j = Some k -> tuple_eqb k u = false.

(** The positions go up: each is below all those after it. *)
Fixpoint increasing (l : list nat) : Prop :=
  match l with
  | [] => True
  | i :: l' => Forall (lt i) l' /\ increasing l'
  end.

(** [unique] lists the keys of [keys] by first occurrence: its keys sit
    in [keys] at positions that go up, none has an equal key before its
    position, and every key of [keys] equals one of them. *)
Definition first_occurrences (keys unique : list (list scalar)) : Prop :=
  exists firsts,
    increasing firsts /\ Forall2 (first_at keys) firsts unique /\
    forall k, In k keys -> exists u, In u unique /\ tuple_eqb u k = true.

(** What a record holds for the element [x] of a column tagged [tag]:
    [int(x)], [float(x)], [bool(x)] or [str(x)] as the tag says, the
    [strftime] of a date, [str(x)] of an object; and, when nulls are
    cast, [None] for an [x] of a [float] column that is nan. *)
Definition field_value `{!Builtins} (tag : string) (cast_null : bool) (x : scalar)
           (v : pyvalue) : Prop :=
  (tag = "int" /\ py_int x = inr v) \/
  (tag = "float" /\
   exists f, py_float x = inr f /\
             if cast_null
             then exists null, isnan x = inr null /\ v = (if null then PyNone else f)
             else v = f) \/
  (tag = "bool" /\ py_bool x = inr v) \/
  (tag = "str" /\ py_str x = inr v) \/
  (tag = "date" /\ strftime "%Y-%m-%d" x = inr v) \/
  (tag = "object" /\ py_str x = inr v).

(** The field of the column [c] in the record of the row [i]: what a
    record holds for the element [i] of the column, under the tag of the
    column. *)
Definition field_of `{!Builtins} (t : Tafra) (cast_null : bool) (i : nat)
           (c : string) (v : pyvalue) : Prop :=
  exists tag a l x,
    dict_get c (_dtypes t) = Some tag /\ getitem_str c t = inr a /\
    body a = Arr1 l /\ l !! i = Some x /\
    field_value tag cast_null x v.

(** The tags [from_dataframe] works with: the dtypes given, or those of
    the frame, formatted. *)
Definition frame_tags (df : DataFrame) (dtypes : option (dict string)) : dict string :=
  dict_of_items
    (map (fun '(c, t) => (c, _format_type t))
         match dtypes with
         | None => dict_of_items (zip (df_columns df) (df_dtypes df))
         | Some dtypes => dtypes
         end).

(** * Properties *)

Ltac invert H := inversion H; subst; clear H.

Lemma bind_inr {A B} (m : result A) (k : A -> result B) b :
  bind m k = inr b -> exists a, m = inr a /\ k a = inr b.
Proof. destruct m; simpl; [discriminate | eauto]. Qed.

Lemma bind_inl {A B} (m : result A) (k : A -> result B) e :
  bind m k = inl e -> m = inl e \/ exists a, m = inr a /\ k a = inl e.
Proof. destruct m; simpl; [intros [= ->]; auto | eauto]. Qed.

Tactic Notation "bind_inv" hyp(H) "as" ident(a) ident(Ha) :=
  apply bind_inr in H; destruct H as (a & Ha & H).

(** *** Dictionaries *)

Lemma dict_get_set_eq {V} k (v : V) d : dict_get k (dict_set k v d) = Some v.
Proof.
  induction d as [|[k' v'] d IH]; simpl.
  - rewrite decide_True; auto.
  - destruct (decide (k = k')) as [->|Hne]; simpl.
    + rewrite decide_True; auto.
    + rewrite decide_False; auto.
Qed.

Lemma dict_get_set_ne {V} k k' (v : V) d :
  k <> k' -> dict_get k' (dict_set k v d) = dict_get k' d.
Proof.
  intros Hne. induction d as [|[k0 v0] d IH]; simpl.
  - rewrite decide_False; auto.
  - destruct (decide (k = k0)) as [->|Hne0]; simpl.
    + rewrite !decide_False; auto.
    + destruct (decide (k' = k0)); auto.
Qed.

Lemma dict_get_In {V} k (v : V) d : dict_get k d = Some v -> In (k, v) d.
Proof.
  induction d as [|[k' v'] d IH]; simpl; [discriminate|].
  destruct (decide (k = k')) as [->|]; [intros [= ->]; auto | auto].
Qed.

Lemma dict_get_values {V} k (v : V) d : dict_get k d = Some v -> In v (dict_values d).
Proof. intros H%dict_get_In. apply (in_map snd) in H. exact H. Qed.

Lemma In_dict_values_get {V} (v : V) d :
  In v (dict_values d) -> exists k v', dict_get k d = Some v' /\ In (k, v') d.
Proof.
  induction d as [|[k' v'] d IH]; simpl; [tauto|].
  intros _. exists k', v'. rewrite decide_True; auto.
Qed.

Lemma dict_values_set_Forall {V} (P : V -> Prop) k v (d : dict V) :
  P v -> Forall P (dict_values d) -> Forall P (dict_values (dict_set k v d)).
Proof.
  intros Hv. induction d as [|[k' v'] d IH]; simpl; intros Hd.
  - repeat constructor; auto.
  - invert Hd. destruct (decide (k = k')); simpl; constructor; auto.
Qed.

Lemma dict_values_pop_Forall {V} (P : V -> Prop) k (d : dict V) :
  Forall P (dict_values d) -> Forall P (dict_values (dict_pop k d)).
Proof.
  unfold dict_pop. induction d as [|[k' v'] d IH]; intros H; [constructor|].
  simpl in H. invert H. rewrite filter_cons.
  destruct (decide (fst (k', v') <> k)); simpl; auto.
Qed.

(** Storing an array of the same length under a present key leaves the
    lengths of the columns as they were. *)
Lemma lens_set_same k a a' d :
  dict_get k d = Some a -> np.len a' = np.len a -> lens (dict_set k a' d) = lens d.
Proof.
  intros Hget Hlen. induction d as [|[k' v'] d IH]; simpl in *; [discriminate|].
  destruct (decide (k = k')) as [->|Hne]; simpl.
  - invert Hget. now rewrite Hlen.
  - f_equal. auto.
Qed.

(** *** The loops of the table *)

Lemma check_rows_from n items r :
  foldM check_rows items (Some n) = inr r ->
  r = Some n /\ Forall (fun a => np.len a = inr n) (dict_values items).
Proof.
  induction items as [|[k a] items IH]; simpl.
  - intros [= <-]. split; [auto | constructor].
  - intros H. bind_inv H as r' Hr'. bind_inv Hr' as m Hm.
    destruct (decide (n <> m)) as [|Heq]; [discriminate|].
    apply dec_stable in Heq. subst m. invert Hr'.
    apply IH in H as [-> HF]. split; auto.
Qed.

Lemma check_rows_ok items r :
  foldM check_rows items None = inr r ->
  exists n, rows {| _data := items; _dtypes := [] |} = inr n /\
            Forall (fun a => np.len a = inr n) (dict_values items).
Proof.
  destruct items as [|[k a] items]; simpl.
  - intros _. exists 0. split; [reflexivity | constructor].
  - intros H. bind_inv H as r' Hr'. bind_inv Hr' as m Hm. invert Hr'.
    apply check_rows_from in H as [-> HF].
    exists m. unfold rows. simpl. auto.
Qed.

(** With every value sized, the row check raises the row-count error, and
    nothing else, exactly when two lengths differ. *)
Lemma check_rows_sized n items :
  Forall (fun a => exists m, np.len a = inr m) (dict_values items) ->
  (foldM check_rows items (Some n) = inr (Some n) /\
   Forall (fun a => np.len a = inr n) (dict_values items)) \/
  (foldM check_rows items (Some n) = inl (ValueError row_count_msg) /\
   ~ Forall (fun a => np.len a = inr n) (dict_values items)).
Proof.
  induction items as [|[k a] items IH]; simpl; intros HS.
  - left. split; [reflexivity | constructor].
  - invert HS. destruct H1 as [m Hm]. rewrite Hm. simpl.
    destruct (decide (n <> m)) as [Hne|Heq].
    + right. split; [reflexivity|]. intros HF. invert HF. congruence.
    + apply dec_stable in Heq. subst m. simpl.
      destruct (IH H2) as [[-> HF]|[-> HF]].
      * left. split; auto.
      * right. split; auto. intros HF'. invert HF'. auto.
Qed.

Lemma rows_lens t t' : lens (_data t) = lens (_data t') -> rows t = rows t'.
Proof.
  unfold rows, lens. destruct (_data t) as [|[k a] d], (_data t') as [|[k' a'] d'];
    simpl; try discriminate; auto.
  intros [= _ H _]. exact H.
Qed.

Lemma Forall_lens n d d' :
  lens d = lens d' ->
  Forall (fun a => np.len a = inr n) (dict_values d) ->
  Forall (fun a => np.len a = inr n) (dict_values d').
Proof.
  revert d'. induction d as [|[k a] d IH]; intros [|[k' a'] d']; simpl;
    try discriminate; auto.
  intros [= _ H1 H2] HF. invert HF. constructor; [congruence | eauto].
Qed.

Lemma row_consistent_lens t t' :
  lens (_data t) = lens (_data t') -> row_consistent t -> row_consistent t'.
Proof.
  intros HL (n & Hr & HF). exists n. split.
  - rewrite <- (rows_lens _ _ HL). exact Hr.
  - eapply Forall_lens; eauto.
Qed.

(** A loop over columns keeps what each of its turns keeps. *)
Lemma for_each_preserves {A} (P : Tafra -> Prop) (body : A -> method unit) l :
  (forall x self, P self -> P (snd (body x self))) ->
  forall self, P self -> P (snd (for_each l body self)).
Proof.
  intros Hbody. induction l as [|x l IH]; simpl; intros self HP; auto.
  unfold mbind. specialize (Hbody x self HP).
  destruct (body x self) as [[e|[]] self']; simpl in *; auto.
Qed.

Lemma prefix_append s t : String.prefix s (s +:+ t) = true.
Proof.
  induction s as [|c s IH]; simpl; [now destruct t|].
  destruct (Ascii.ascii_dec c c); [exact IH | congruence].
Qed.

Lemma assigned_rows_is_row_count_error r n :
  is_row_count_error (ValueError (assigned_rows_msg r n)) = true.
Proof.
  unfold is_row_count_error, assigned_rows_msg.
  apply prefix_append.
Qed.

Lemma rows_set_consistent r c a self :
  rows self = inr r ->
  Forall (fun a => np.len a = inr r) (dict_values (_data self)) ->
  np.len a = inr r ->
  rows {| _data := dict_set c a (_data self); _dtypes := _dtypes self |} = inr r /\
  Forall (fun a => np.len a = inr r)
         (dict_values (dict_set c a (_data self))).
Proof.
  intros Hr HF Ha. split; [|now apply dict_values_set_Forall].
  unfold rows in *. simpl. destruct (_data self) as [|[k v] d]; simpl in *; auto.
  destruct (decide (c = k)); simpl; auto.
Qed.

Lemma mapM_length {A B} (f : A -> result B) l l' :
  mapM f l = inr l' -> length l' = length l.
Proof.
  revert l'. induction l as [|x l IH]; simpl; intros l' H.
  - invert H. reflexivity.
  - bind_inv H as y Hy. bind_inv H as ys Hys. invert H. simpl. f_equal. auto.
Qed.

Section with_numpy.
Context {N : NumPy} {L : NumPyLaws N}.

Lemma _apply_type_len t a a' : _apply_type t a = inr a' -> np.len a' = np.len a.
Proof.
  unfold _apply_type. destruct (dict_get t TAFRA_TYPE) as [f|] eqn:Hf; [|discriminate].
  apply dict_get_In in Hf. simpl in Hf.
  intuition; try (match goal with H : (_, _) = (_, _) |- _ => invert H end;
                  eapply astype_len; eauto).
Qed.

(** [update_types] and [coalesce_types] leave the lengths of the columns
    alone, whether they return or raise. *)
Lemma update_types_lens dtypes self :
  lens (_data (snd (update_types dtypes self))) = lens (_data self).
Proof.
  unfold update_types, mbind.
  set (pre := match dtypes with Some _ => _ | None => _ end).
  assert (Hpre : lens (_data (snd (pre self))) = lens (_data self)).
  { subst pre. destruct dtypes as [d|]; simpl; auto.
    unfold mbind, lift. destruct (_validate_types d); simpl; auto. }
  destruct (pre self) as [[e|[]] self1]; simpl in *; auto.
  rewrite <- Hpre.
  apply (for_each_preserves (fun s => lens (_data s) = lens (_data self1))); auto.
  intros column s Hs. unfold update_type, mbind, data_at, dtypes_at, reads. simpl.
  destruct (dict_get column (_data s)) as [a|] eqn:Ha; simpl; auto.
  destruct (dict_get column (_dtypes s)) as [t|] eqn:Ht; simpl; auto.
  destruct (decide (_format_type (dtype a) <> t)); simpl; auto.
  unfold lift. destruct (_apply_type t a) as [e|a'] eqn:Hap; simpl; auto.
  rewrite <- Hs. eapply lens_set_same; eauto using _apply_type_len.
Qed.

Lemma coalesce_types_data self : _data (snd (coalesce_types self)) = _data self.
Proof.
  unfold coalesce_types, mbind. simpl.
  apply (for_each_preserves (fun s => _data s = _data self)); auto.
  intros column s Hs. unfold coalesce_type, mbind, gets, data_at, reads. simpl.
  destruct (dict_mem column (_dtypes s)); simpl; auto.
  destruct (dict_get column (_data s)); simpl; auto.
Qed.

Lemma post_init_lens self :
  lens (_data (snd (__post_init__ self))) = lens (_data self).
Proof.
  unfold __post_init__, mbind, gets, lift. simpl.
  destruct (foldM _ (_data self) None) as [e|r]; simpl; auto.
  destruct (_dtypes self) eqn:Hd; simpl.
  - rewrite coalesce_types_data. reflexivity.
  - pose proof (update_types_lens None self) as HU.
    destruct (update_types None self) as [[e|[]] s1]; simpl in *; auto.
    rewrite coalesce_types_data. exact HU.
Qed.

Lemma init_row_consistent data dtypes t :
  __init__ data dtypes = inr t -> row_consistent t.
Proof.
  unfold __init__. intros H.
  pose proof (post_init_lens {| _data := data; _dtypes := dtypes |}) as HL.
  destruct (__post_init__ _) as [[e|[]] self] eqn:HP; [discriminate|].
  invert H. simpl in HL.
  unfold __post_init__, mbind, gets, lift in HP. simpl in HP.
  destruct (foldM _ data None) as [e|r] eqn:HC; [discriminate|].
  apply check_rows_ok in HC as (n & Hr & HF).
  apply (row_consistent_lens {| _data := data; _dtypes := [] |}).
  - simpl. symmetry. exact HL.
  - exists n. auto.
Qed.

Lemma init_empty : exists t, __init__ [] [] = inr t /\ rows t = inr 0.
Proof. eexists. split; reflexivity. Qed.

Lemma init_row_count_error data dtypes :
  Forall (fun a => exists m, np.len a = inr m) (dict_values data) ->
  ~ (exists n, Forall (fun a => np.len a = inr n) (dict_values data)) ->
  exists e, __init__ data dtypes = inl e /\ is_row_count_error e = true.
Proof.
  intros HS Hno. exists (ValueError row_count_msg). split; [|reflexivity].
  unfold __init__, __post_init__, mbind, gets, lift. simpl.
  destruct data as [|[k a] items].
  - exfalso. apply Hno. exists 0. constructor.
  - simpl in *. invert HS. destruct H1 as [m Hm]. rewrite Hm. simpl.
    destruct (check_rows_sized m items H2) as [[_ HF]|[-> _]]; [|reflexivity].
    exfalso. apply Hno. exists m. constructor; auto.
Qed.

Lemma setitem_row_count_error name v t a n r :
  _validate_shape v = inr a -> np.len a = inr n -> rows t = inr r -> n <> r ->
  exists e, __setitem__ name v t = (inl e, t) /\ is_row_count_error e = true.
Proof.
  intros Hv Hn Hr Hne. exists (ValueError (assigned_rows_msg r n)).
  split; [|apply assigned_rows_is_row_count_error].
  unfold __setitem__, mbind, reads, _validate. rewrite Hv. simpl.
  rewrite Hn. simpl. rewrite Hr. simpl. rewrite decide_True; auto.
Qed.

Lemma setitem_row_consistent name v t :
  row_consistent t -> row_consistent (snd (__setitem__ name v t)).
Proof.
  intros (r & Hr & HF). unfold __setitem__, mbind, reads.
  destruct (_validate v t) as [e|a] eqn:Hv; simpl; [exists r; auto|].
  unfold _validate in Hv. bind_inv Hv as a0 Ha0. bind_inv Hv as n Hn.
  bind_inv Hv as r' Hr'. rewrite Hr in Hr'. invert Hr'.
  destruct (decide (n <> r')) as [|Heq]; [discriminate|].
  apply dec_stable in Heq. subst n. invert Hv.
  exists r'. simpl. apply (rows_set_consistent r' name a t); auto.
Qed.

Lemma update_types_row_consistent dtypes t :
  row_consistent t -> row_consistent (snd (update_types dtypes t)).
Proof. apply row_consistent_lens. symmetry. apply update_types_lens. Qed.

Lemma update_row_consistent other t :
  row_consistent t -> row_consistent (snd (update other t)).
Proof.
  intros (r & Hr & HF). unfold update, mbind, reads. rewrite Hr. simpl.
  set (P := fun s => rows s = inr r /\
                     Forall (fun a => np.len a = inr r) (dict_values (_data s))).
  assert (HP : P (snd (for_each (_data other)
             (fun '(column, values) =>
                let! n := lift (np.len values) in
                if decide (n <> r) then mraise (ValueError (other_rows_msg r n))
                else set_data column values) t))).
  { apply for_each_preserves; [|split; auto].
    intros [column values] s [Hs1 Hs2]. unfold mbind, lift.
    destruct (np.len values) as [e|n] eqn:Hn; simpl; [split; auto|].
    destruct (decide (n <> r)) as [|Heq]; simpl; [split; auto|].
    apply dec_stable in Heq. subst n. now apply rows_set_consistent. }
  destruct (for_each _ _ t) as [[e|[]] s]; simpl in *.
  - exists r. exact HP.
  - apply update_types_row_consistent. exists r. exact HP.
Qed.

Lemma delete_row_consistent column t :
  row_consistent t -> row_consistent (snd (delete column t)).
Proof.
  intros (r & Hr & HF). unfold delete, modify. simpl.
  pose proof (dict_values_pop_Forall _ column _ HF) as HF'.
  destruct (dict_pop column (_data t)) as [|[k a] d] eqn:Hd.
  - exists 0. unfold rows. simpl. split; [reflexivity | constructor].
  - exists r. unfold rows. simpl. split; auto. simpl in HF'. now invert HF'.
Qed.

End with_numpy.

(** The instance of the examples satisfies the law. *)
Lemma map_cells_len f c c' dt dt' :
  map_cells f c = inr c' ->
  np.len {| dtype := dt'; body := c' |} = np.len {| dtype := dt; body := c |}.
Proof.
  destruct c as [s|l|d inner planes]; simpl; intros H.
  - bind_inv H as s' Hs. now invert H.
  - bind_inv H as l' Hl. invert H. unfold np.len. simpl.
    now rewrite (mapM_length _ _ _ Hl).
  - bind_inv H as p' Hp. invert H. unfold np.len. simpl.
    now rewrite (mapM_length _ _ _ Hp).
Qed.

#[export] Instance numpy_laws : NumPyLaws numpy.
Proof.
  constructor. intros t a a'. simpl.
  destruct (decide _); [discriminate|].
  intros H. bind_inv H as c Hc. invert H. destruct a as [dt b].
  eapply map_cells_len; eauto.
Qed.

(** C1. Every column of a Tafra has the same length and [rows] is that
    length: the constructor establishes it, an empty Tafra has no rows,
    and assignment, [update], [update_types] and [delete] keep it.
    Building a Tafra from arrays whose lengths disagree raises the
    row-count error, and so does assigning a column whose length is not
    the row count, which leaves the table as it was. *)
Theorem C1_row_count_invariant {N : NumPy} {L : NumPyLaws N} :
  (forall data dtypes t, __init__ data dtypes = inr t -> row_consistent t) /\
  (exists t, __init__ [] [] = inr t /\ rows t = inr 0) /\
  (forall t, row_consistent t ->
     (forall name v, row_consistent (snd (__setitem__ name v t))) /\
     (forall other, row_consistent (snd (update other t))) /\
     (forall dtypes, row_consistent (snd (update_types dtypes t))) /\
     (forall column, row_consistent (snd (delete column t)))) /\
  (forall data dtypes,
     Forall (fun a => exists m, np.len a = inr m) (dict_values data) ->
     ~ (exists n, Forall (fun a => np.len a = inr n) (dict_values data)) ->
     exists e, __init__ data dtypes = inl e /\ is_row_count_error e = true) /\
  (forall t name v a n r,
     _validate_shape v = inr a -> np.len a = inr n -> rows t = inr r -> n <> r ->
     exists e, __setitem__ name v t = (inl e, t) /\ is_row_count_error e = true).
Proof.
  split; [exact init_row_consistent|].
  split; [exact init_empty|].
  split; [|split; [exact init_row_count_error | intros; eapply setitem_row_count_error; eauto]].
  intros t Ht. repeat split; intros.
  - now apply setitem_row_consistent.
  - now apply update_row_consistent.
  - now apply update_types_row_consistent.
  - now apply delete_row_consistent.
Qed.

Lemma C1_row_count_invariant_witness :
  row_consistent example_tafra /\
  row_consistent (snd (__setitem__ "w" (VObject (PyList [SInt 1; SInt 2; SInt 3;
                                                         SInt 4; SInt 5; SInt 6]))
                                   example_tafra)) /\
  (exists e, __init__ [("x", int64_array [1; 2]%Z); ("y", int64_array [3; 4; 5]%Z)] []
             = inl e /\ is_row_count_error e = true) /\
  (exists e, __setitem__ "x" (VArray (int64_array [1; 2; 3]%Z)) example_tafra
             = (inl e, example_tafra) /\ is_row_count_error e = true).
Proof.
  destruct (@C1_row_count_invariant numpy numpy_laws) as (H1 & _ & H3 & H4 & H5).
  assert (Hex : row_consistent example_tafra).
  { apply (H1 example_data []). reflexivity. }
  split; [exact Hex|].
  split; [apply (H3 example_tafra Hex)|].
  split.
  - apply H4.
    + repeat constructor; eexists; reflexivity.
    + intros [n Hn]. inversion Hn as [|? ? Hx Hn']. inversion Hn' as [|? ? Hy _].
      vm_compute in Hx, Hy. congruence.
  - apply (H5 example_tafra "x" _ (int64_array [1; 2; 3]%Z) 3 6); try reflexivity. lia.
Defined.

(** *** The example of the module *)

Lemma build_tafra_example : build_tafra = inr example_tafra.
Proof. reflexivity. Qed.

(** C3, as the code has it. Grouping the example table by [y] and [z]
    with [x] summed gives four rows, for the groups (one, 0), (two, 0),
    (two, 1), (one, 1) in this order of first occurrence; their sums of
    [x] are 4, 2, 10 and 5. *)
Theorem C3_group_by_example :
  exists t gb,
    build_tafra = inr t /\
    group_by ["y"; "z"] [("x", Callable py_sum)] t = inr gb /\
    rows gb = inr 4 /\
    getitem_str "y" gb = inr (object_array [str_one; str_two; str_two; str_one]) /\
    getitem_str "z" gb = inr (int64_array [0; 0; 1; 1]%Z) /\
    getitem_str "x" gb = inr (int64_array [4; 2; 10; 5]%Z).
Proof.
  eexists. eexists. split; [reflexivity|].
  split; [vm_compute; reflexivity|].
  repeat split.
Qed.

(** C3 as stated fails: the sums of [x] are not 3, 2, 9, 5. *)
Lemma C3_group_by_example_counterexample :
  ~ (exists gb,
       group_by ["y"; "z"] [("x", Callable py_sum)] example_tafra = inr gb /\
       getitem_str "x" gb = inr (int64_array [3; 2; 9; 5]%Z)).
Proof.
  intros (gb & Hgb & Hx). vm_compute in Hgb. inversion Hgb; subst gb.
  vm_compute in Hx. discriminate.
Qed.

(** C4, as the code has it. Iterating the example table by [y] and [z]
    yields four groups, in the order of first occurrence (one, 0),
    (two, 0), (two, 1), (one, 1); their masks select the rows {0, 2},
    {1}, {3, 5} and {4}; and the generator ends without an exception. *)
Theorem C4_iterate_by_example :
  AggMethod.__post_init__ ["y"; "z"] [] = inr example_agg /\
  AggMethod.unique_groups example_agg example_tafra
    = inr [[str_one; SInt 0]; [str_two; SInt 0]; [str_two; SInt 1]; [str_one; SInt 1]] /\
  map (fun y => true_indices (fst y)) (fst (IterateBy.run example_agg example_tafra))
    = [[0; 2]; [1]; [3; 5]; [4]] /\
  iterate_by ["y"; "z"] example_tafra
    = ([(0, example_part [1; 3]%Z [str_one; str_one] [0; 0]%Z);
        (1, example_part [2]%Z [str_two] [0]%Z);
        (2, example_part [4; 6]%Z [str_two; str_two] [1; 1]%Z);
        (3, example_part [5]%Z [str_one] [1]%Z)], None).
Proof. repeat split. Qed.

(** C4 as stated fails: the generator does not yield exactly 3 groups. *)
Lemma C4_iterate_by_example_counterexample :
  length (fst (iterate_by ["y"; "z"] example_tafra)) <> 3.
Proof. vm_compute. discriminate. Qed.

(** *** No group-by column, no group *)

Lemma unique_groups_no_columns agg t :
  AggMethod._group_by_cols agg = [] -> AggMethod.unique_groups agg t = inr [].
Proof. intros H. unfold AggMethod.unique_groups. rewrite H. reflexivity. Qed.

(** C10. Grouping a Tafra that has rows by no column at all yields no
    group: the unique keys are the empty list, [group_by([], {})] returns
    a Tafra of no rows, and [iterate_by([])] yields nothing. *)
Theorem C10_empty_group_by {N : NumPy} (t : Tafra) (n : nat) :
  rows t = inr n -> 0 < n ->
  (forall agg, AggMethod.__post_init__ [] [] = inr agg ->
               AggMethod.unique_groups agg t = inr []) /\
  (exists gb, group_by [] [] t = inr gb /\ rows gb = inr 0) /\
  iterate_by [] t = ([], None).
Proof.
  intros _ _. split; [|split].
  - intros agg [= <-]. reflexivity.
  - exists empty_tafra. split; reflexivity.
  - reflexivity.
Qed.

Lemma C10_empty_group_by_witness :
  (forall agg, AggMethod.__post_init__ [] [] = inr agg ->
               AggMethod.unique_groups agg example_tafra = inr []) /\
  (exists gb, group_by [] [] example_tafra = inr gb /\ rows gb = inr 0) /\
  iterate_by [] example_tafra = ([], None).
Proof.
  apply (@C10_empty_group_by numpy example_tafra 6); [reflexivity | lia].
Defined.

(** *** Equality of scalars and keys *)

Lemma Qeq_bool_sym p q : Qeq_bool p q = Qeq_bool q p.
Proof.
  apply eq_true_iff_eq. rewrite !Qeq_bool_iff. split; intros H; now symmetry.
Qed.

Lemma numval_eqb_sym a b : numval_eqb a b = numval_eqb b a.
Proof.
  destruct a as [|s|p], b as [|t|q]; simpl; auto using Qeq_bool_sym.
  now destruct s, t.
Qed.

Lemma numval_eqb_trans a b c :
  numval_eqb a b = true -> numval_eqb b c = true -> numval_eqb a c = true.
Proof.
  destruct a as [|s|p], b as [|t|q], c as [|r|o]; simpl; try discriminate.
  - destruct s, t, r; simpl; auto.
  - apply Qeq_bool_trans.
Qed.

Lemma scalar_eqb_sym a b : scalar_eqb a b = scalar_eqb b a.
Proof.
  destruct a, b; unfold scalar_eqb; cbn [num_val];
    auto using numval_eqb_sym, String.eqb_sym.
Qed.

Lemma scalar_eqb_trans a b c :
  scalar_eqb a b = true -> scalar_eqb b c = true -> scalar_eqb a c = true.
Proof.
  destruct a, b; unfold scalar_eqb; cbn [num_val]; try discriminate;
    destruct c; cbn [num_val]; try discriminate;
    try apply numval_eqb_trans.
  rewrite !String.eqb_eq. congruence.
Qed.

Lemma tuple_eqb_sym u v : tuple_eqb u v = tuple_eqb v u.
Proof.
  revert v. induction u as [|a u IH]; intros [|b v]; simpl; auto.
  now rewrite scalar_eqb_sym, IH.
Qed.

Lemma tuple_eqb_trans u v w :
  tuple_eqb u v = true -> tuple_eqb v w = true -> tuple_eqb u w = true.
Proof.
  revert v w. induction u as [|a u IH]; intros [|b v] [|c w]; simpl; try discriminate; auto.
  rewrite !andb_true_iff. intros [H1 H2] [H3 H4]. split.
  - eapply scalar_eqb_trans; eauto.
  - eapply IH; eauto.
Qed.

Lemma tuple_eqb_refl u : Forall self_equal u -> tuple_eqb u u = true.
Proof.
  induction 1 as [|a u Ha _ IH]; simpl; auto. now rewrite Ha, IH.
Qed.

(** *** First occurrences *)


Lemma fromkeys_fold keys : fromkeys keys = fold_left fromkeys_step keys [].
Proof. reflexivity. Qed.

Lemma existsb_false_Forall {A} (f : A -> bool) l :
  existsb f l = false <-> Forall (fun x => f x = false) l.
Proof.
  induction l as [|x l IH]; simpl.
  - split; auto.
  - rewrite orb_false_iff, IH. split.
    + intros [? ?]. constructor; auto.
    + intros H. invert H. auto.
Qed.

Lemma existsb_true_In {A} (f : A -> bool) l :
  existsb f l = true -> exists x, In x l /\ f x = true.
Proof. intros H. apply existsb_exists in H. exact H. Qed.

Lemma distinct_keys_snoc l k :
  distinct_keys (l ++ [k]) <-> distinct_keys l /\ Forall (fun s => tuple_eqb s k = false) l.
Proof.
  induction l as [|x l IH]; simpl.
  - split; [intros _; split; auto | intros _; split; auto].
  - rewrite IH, Forall_app. split.
    + intros [[H1 H2] [H3 H4]]. invert H2. repeat split; auto.
    + intros [[H1 H2] H3]. invert H3. repeat split; auto.
Qed.

Lemma fromkeys_fold_spec keys seen :
  distinct_keys seen ->
  Forall (fun k => tuple_eqb k k = true) keys ->
  let out := fold_left fromkeys_step keys seen in
  distinct_keys out /\
  (forall s, In s seen -> In s out) /\
  (forall u, In u out -> In u seen \/ In u keys) /\
  (forall k, In k keys -> exists u, In u out /\ tuple_eqb u k = true).
Proof.
  revert seen. induction keys as [|k keys IH]; simpl; intros seen Hd Hr.
  - repeat split; auto. intros k [].
  - invert Hr. unfold fromkeys_step at 2 4 6 8.
    destruct (existsb _ seen) eqn:Hex.
    + destruct (IH seen Hd H2) as (I1 & I2 & I3 & I4).
      repeat split; auto.
      * intros u Hu. destruct (I3 u Hu); auto.
      * intros k' [<-|Hk']; auto.
        apply existsb_true_In in Hex as (s & Hs & Hsk). eauto.
    + apply existsb_false_Forall in Hex.
      assert (Hd' : distinct_keys (seen ++ [k])) by (apply distinct_keys_snoc; auto).
      destruct (IH _ Hd' H2) as (I1 & I2 & I3 & I4).
      repeat split; auto.
      * intros s Hs. apply I2, in_or_app. auto.
      * intros u Hu. destruct (I3 u Hu) as [Hin|]; auto.
        apply in_app_or in Hin as [|[<-|[]]]; auto.
      * intros k' [<-|Hk']; auto.
        exists k. split; auto. apply I2, in_or_app. right. left. reflexivity.
Qed.

Lemma fromkeys_spec keys :
  Forall (fun k => tuple_eqb k k = true) keys ->
  distinct_keys (fromkeys keys) /\
  (forall u, In u (fromkeys keys) -> In u keys) /\
  (forall k, In k keys -> exists u, In u (fromkeys keys) /\ tuple_eqb u k = true).
Proof.
  intros Hr. rewrite fromkeys_fold.
  destruct (fromkeys_fold_spec keys [] I Hr) as (H1 & _ & H3 & H4).
  repeat split; auto. intros u Hu. destruct (H3 u Hu) as [[]|]; auto.
Qed.

Lemma distinct_keys_lookup l i j a b :
  distinct_keys l -> i < j -> l !! i = Some a -> l !! j = Some b ->
  tuple_eqb a b = false.
Proof.
  revert i j. induction l as [|x l IH]; intros i j Hd Hij Hi Hj; [discriminate|].
  destruct Hd as [Hx Hd]. destruct j as [|j]; [lia|]. simpl in Hj.
  destruct i as [|i]; simpl in Hi.
  - invert Hi. rewrite Forall_forall in Hx. apply Hx.
    apply list_elem_of_lookup. eauto.
  - apply (IH i j); auto. lia.
Qed.

(** *** Masks of distinct keys partition the rows *)


Lemma hits_zero k U : Forall (fun u => tuple_eqb k u = false) U -> hits k U = 0.
Proof.
  unfold hits. induction 1 as [|u U Hu _ IH]; simpl; auto. now rewrite Hu.
Qed.

Lemma hits_one k U :
  distinct_keys U -> (exists u, In u U /\ tuple_eqb u k = true) -> hits k U = 1.
Proof.
  induction U as [|x U IH]; intros Hd (u & Hu & Huk); [destruct Hu|].
  destruct Hd as [Hx Hd]. unfold hits. simpl. fold (hits k U).
  destruct (tuple_eqb k x) eqn:Hkx.
  - rewrite hits_zero; auto.
    rewrite Forall_forall in *. intros y Hy.
    destruct (tuple_eqb k y) eqn:Hky; auto.
    rewrite tuple_eqb_sym in Hkx.
    specialize (Hx y Hy). rewrite (tuple_eqb_trans x k y Hkx Hky) in Hx. discriminate.
  - destruct Hu as [->|Hu].
    + rewrite tuple_eqb_sym in Huk. congruence.
    + simpl. apply IH; eauto.
Qed.


Lemma count_true_cons b m :
  np.count_true (b :: m) = (if b then 1 else 0) + np.count_true m.
Proof. now destruct b. Qed.

Lemma hits_total keys U :
  Forall (fun k => hits k U = 1) keys ->
  sum_list (map np.count_true (key_masks keys U)) = length keys.
Proof.
  unfold key_masks. rewrite map_map.
  induction 1 as [|k keys Hk _ IH]; simpl.
  - induction U; simpl; auto.
  - transitivity (hits k U
                  + sum_list (map (fun u => np.count_true (map (fun k => tuple_eqb k u) keys)) U));
      [|rewrite Hk, IH; reflexivity].
    unfold hits. clear.
    induction U as [|u U IHU]; simpl; auto.
    rewrite count_true_cons, IHU. lia.
Qed.

(** The masks of the first occurrences of self-equal keys are disjoint,
    cover every row, and their counts add up to the number of rows. *)
Lemma key_masks_partition keys :
  Forall (fun k => tuple_eqb k k = true) keys ->
  let masks := key_masks keys (fromkeys keys) in
  Forall (fun m => length m = length keys) masks /\
  (forall i j mi mj r, i <> j -> masks !! i = Some mi -> masks !! j = Some mj ->
                       mi !! r = Some true -> mj !! r = Some true -> False) /\
  (forall r, r < length keys ->
             exists i mi, masks !! i = Some mi /\ mi !! r = Some true) /\
  sum_list (map np.count_true masks) = length keys.
Proof.
  intros Hr masks. destruct (fromkeys_spec keys Hr) as (Hd & Hsub & Hcov).
  subst masks. unfold key_masks. repeat split.
  - apply Forall_forall. intros m Hm. apply list_elem_of_In, in_map_iff in Hm as (u & <- & _).
    now rewrite length_map.
  - assert (Hlt : forall i j mi mj r, i < j ->
              map (fun u => map (fun k => tuple_eqb k u) keys) (fromkeys keys) !! i = Some mi ->
              map (fun u => map (fun k => tuple_eqb k u) keys) (fromkeys keys) !! j = Some mj ->
              mi !! r = Some true -> mj !! r = Some true -> False).
    { intros i j mi mj r Hij Hi Hj Hmi Hmj.
      change (map ?f ?l) with (f <$> l) in Hi, Hj.
      rewrite list_lookup_fmap in Hi, Hj.
      destruct (fromkeys keys !! i) as [ui|] eqn:Hui; [|discriminate].
      destruct (fromkeys keys !! j) as [uj|] eqn:Huj; [|discriminate].
      simpl in Hi, Hj. invert Hi. invert Hj.
      change (map ?f ?l) with (f <$> l) in Hmi, Hmj.
      rewrite list_lookup_fmap in Hmi, Hmj.
      destruct (keys !! r) as [k|]; [|discriminate]. simpl in *.
      invert Hmi. invert Hmj.
      pose proof (distinct_keys_lookup _ _ _ _ _ Hd Hij Hui Huj) as Hne.
      rewrite tuple_eqb_sym in H0.
      rewrite (tuple_eqb_trans ui k uj H0 H1) in Hne. discriminate. }
    intros i j mi mj r Hij Hi Hj Hmi Hmj.
    destruct (Nat.lt_total i j) as [Hlt'|[Heq|Hgt]]; [eauto | tauto | eauto].
  - intros r Hlt. destruct (lookup_lt_is_Some_2 keys r Hlt) as [k Hk].
    assert (Hin : In k keys).
    { apply list_elem_of_In, list_elem_of_lookup. eauto. }
    destruct (Hcov k Hin) as (u & Hu & Huk).
    apply list_elem_of_In, list_elem_of_lookup in Hu as [i Hi].
    exists i, (map (fun k => tuple_eqb k u) keys). split.
    + change (map ?f ?l) with (f <$> l). rewrite list_lookup_fmap, Hi. reflexivity.
    + change (map ?f ?l) with (f <$> l). rewrite list_lookup_fmap, Hk. simpl.
      rewrite tuple_eqb_sym. now rewrite Huk.
  - apply hits_total. apply Forall_forall. intros k Hk%list_elem_of_In.
    apply hits_one; auto.
Qed.

(** *** From the loops to masks of keys *)

Lemma mapM_Forall2 {A B} (f : A -> result B) l l' :
  mapM f l = inr l' -> Forall2 (fun x y => f x = inr y) l l'.
Proof.
  revert l'. induction l as [|x l IH]; simpl; intros l' H.
  - invert H. constructor.
  - bind_inv H as y Hy. bind_inv H as ys Hys. invert H. constructor; auto.
Qed.

Lemma zip_with_cons_replicate {A} (c : list A) :
  zip_with cons c (replicate (length c) []) = map (fun x => [x]) c.
Proof. induction c as [|x c IH]; simpl; [|rewrite IH]; reflexivity. Qed.

Lemma zip_star_transpose {A} n (cols : list (list A)) :
  cols <> [] -> Forall (fun c => length c = n) cols ->
  zip_star cols = transpose n cols.
Proof.
  induction cols as [|c cs IH]; [congruence|]. intros _ HF. invert HF.
  destruct cs as [|c' cs'].
  - simpl. now rewrite zip_with_cons_replicate.
  - change (zip_star (c :: c' :: cs')) with (zip_with cons c (zip_star (c' :: cs'))).
    simpl. f_equal. apply IH; auto; congruence.
Qed.

Lemma transpose_length {A} n (cols : list (list A)) :
  Forall (fun c => length c = n) cols -> length (transpose n cols) = n.
Proof.
  induction 1 as [|c cs Hc _ IH]; simpl.
  - apply length_replicate.
  - rewrite length_zip_with. lia.
Qed.

Lemma zip_with_cons_Forall {A} (P : A -> Prop) (Q R : list A -> Prop) c T :
  (forall x k, P x -> Q k -> R (x :: k)) ->
  Forall P c -> Forall Q T -> Forall R (zip_with cons c T).
Proof.
  intros HR Hc. revert T. induction Hc as [|x c Hx _ IH]; intros T HT; simpl.
  - constructor.
  - destruct HT as [|k T Hk HT]; constructor; auto.
Qed.

Lemma transpose_key_length {A} n (cols : list (list A)) :
  Forall (fun k => length k = length cols) (transpose n cols).
Proof.
  induction cols as [|c cs IH]; simpl.
  - apply Forall_replicate. reflexivity.
  - apply (zip_with_cons_Forall (fun _ => True) (fun k => length k = length cs)); auto.
    + intros x k _ Hk. simpl. now rewrite Hk.
    + apply Forall_forall. auto.
Qed.

Lemma transpose_Forall {A} (P : A -> Prop) n (cols : list (list A)) :
  Forall (Forall P) cols -> Forall (Forall P) (transpose n cols).
Proof.
  induction 1 as [|c cs Hc _ IH]; simpl.
  - apply Forall_replicate. constructor.
  - apply (zip_with_cons_Forall P (Forall P)); auto.
Qed.

Lemma mapM_hashable_nil n :
  mapM (mapM hashable) (replicate n []) = inr (replicate n []).
Proof. induction n as [|n IH]; simpl; [|rewrite IH]; reflexivity. Qed.

Lemma mapM_zip_with_cons it T keys :
  length it = length T ->
  mapM (mapM hashable) (zip_with cons it T) = inr keys ->
  exists l T', mapM hashable it = inr l /\ mapM (mapM hashable) T = inr T' /\
               keys = zip_with cons l T'.
Proof.
  revert T keys. induction it as [|e it IH]; intros [|k T] keys Hl H;
    simpl in *; try discriminate.
  - invert H. exists [], []. auto.
  - bind_inv H as k' Hk'. bind_inv H as ks Hks. invert H.
    bind_inv Hk' as s Hs. bind_inv Hk' as k0 Hk0. invert Hk'.
    destruct (IH T ks) as (l & T' & Hl' & HT' & ->); auto.
    exists (s :: l), (k0 :: T'). rewrite Hs, Hl', Hk0, HT'. auto.
Qed.

Lemma hash_transpose n its keys :
  Forall (fun it => length it = n) its ->
  mapM (mapM hashable) (transpose n its) = inr keys ->
  exists cd, mapM (mapM hashable) its = inr cd /\ keys = transpose n cd.
Proof.
  intros HF. revert keys. induction HF as [|it its Hit HF IH]; simpl; intros keys H.
  - rewrite mapM_hashable_nil in H. invert H. exists []. auto.
  - apply mapM_zip_with_cons in H as (l & T' & Hl & HT & ->).
    + destruct (IH T' HT) as (cd & Hcd & ->).
      exists (l :: cd). rewrite Hl, Hcd. auto.
    + rewrite transpose_length; auto.
Qed.

Lemma mapM_hashable_Elem l : mapM hashable (map Elem l) = inr l.
Proof. induction l as [|x l IH]; simpl; [|rewrite IH]; reflexivity. Qed.

Lemma np_iter_length a it : np_iter a = inr it -> np.len a = inr (length it).
Proof.
  unfold np_iter, np.len. destruct (body a); intros H; invert H;
    now rewrite length_map.
Qed.

(** An array whose elements all hash, and that has elements, is
    one-dimensional. *)
Lemma np_iter_hashable a it l :
  np_iter a = inr it -> mapM hashable it = inr l -> 0 < length it ->
  body a = Arr1 l.
Proof.
  unfold np_iter. destruct (body a) as [s|l0|d inner planes]; intros H Hh Hn; invert H.
  - rewrite mapM_hashable_Elem in Hh. now invert Hh.
  - destruct planes; simpl in *; [lia | discriminate].
Qed.

Lemma zip_and_true w :
  zip_with andb w (map (fun k => tuple_eqb k []) (replicate (length w) [])) = w.
Proof.
  induction w as [|b w IH]; simpl; [|rewrite IH, andb_true_r]; reflexivity.
Qed.

Lemma zip_and_cons w l T v u :
  length l = length w -> length T = length w ->
  zip_with andb (zip_with andb w (map np.truth (map (fun x => SBool (scalar_eqb x v)) l)))
           (map (fun k => tuple_eqb k u) T)
  = zip_with andb w (map (fun k => tuple_eqb k (v :: u)) (zip_with cons l T)).
Proof.
  revert l T. induction w as [|b w IH]; intros [|x l] [|k T] Hl HT;
    simpl in *; try discriminate; auto.
  rewrite IH by lia. now rewrite andb_assoc.
Qed.

Section masks.
Context (tafra : Tafra).

Lemma mask_fold_arr1 cols cd :
  Forall2 (column_is tafra) cols cd ->
  forall u w,
    Forall (fun l => length l = length w) cd ->
    length u = length cols ->
    foldM (mask_step tafra) (zip u cols) w
    = inr (zip_with andb w (map (fun k => tuple_eqb k u) (transpose (length w) cd))).
Proof.
  induction 1 as [|col l cols cd (a & Ha & Hb) _ IH]; intros u w HF Hu.
  - destruct u; [|discriminate]. simpl. now rewrite zip_and_true.
  - destruct u as [|v u]; [discriminate|]. invert HF. simpl in Hu.
    simpl. rewrite Ha. simpl. unfold np.iand, np.equal. simpl. rewrite Hb.
    rewrite decide_True by (now rewrite length_map). simpl.
    set (w1 := zip_with andb w _).
    assert (Hw1 : length w1 = length w).
    { subst w1. rewrite length_zip_with, !length_map. lia. }
    rewrite IH; [|rewrite Hw1; auto | lia].
    f_equal. rewrite Hw1. subst w1. apply zip_and_cons; auto.
    rewrite transpose_length; auto.
Qed.

Lemma zip_and_full m : zip_with andb (replicate (length m) true) m = m.
Proof. induction m as [|b m IH]; simpl; [|rewrite IH]; reflexivity. Qed.

Lemma which_rows_of_arr1 n cols cd u :
  rows tafra = inr n ->
  Forall2 (column_is tafra) cols cd ->
  Forall (fun l => length l = n) cd ->
  length u = length cols ->
  which_rows_of tafra cols u = inr (map (fun k => tuple_eqb k u) (transpose n cd)).
Proof.
  intros Hr HC HF Hu. unfold which_rows_of, all_rows. rewrite Hr. simpl.
  unfold np.full_true.
  rewrite (mask_fold_arr1 cols cd HC); rewrite ?length_replicate; auto.
  f_equal.
  assert (Hl : length (map (fun k => tuple_eqb k u) (transpose n cd)) = n).
  { rewrite length_map. now apply transpose_length. }
  rewrite <- Hl at 1. apply zip_and_full.
Qed.

End masks.

(** What a successful [unique_groups] says about the table: the keys are
    the first occurrences among the rows of the group-by columns, and
    where there are rows those columns are one-dimensional. *)
Lemma unique_groups_keys self tafra unique n :
  AggMethod._group_by_cols self <> [] ->
  row_consistent tafra -> rows tafra = inr n ->
  AggMethod.unique_groups self tafra = inr unique ->
  exists keys,
    unique = fromkeys keys /\ length keys = n /\
    Forall (fun k => length k = length (AggMethod._group_by_cols self)) keys /\
    (0 < n -> exists cd,
        Forall2 (column_is tafra) (AggMethod._group_by_cols self) cd /\
        Forall (fun l => length l = n) cd /\
        keys = transpose n cd).
Proof.
  intros Hne (n' & Hr' & Hlen) Hr Hu. rewrite Hr in Hr'. invert Hr'.
  unfold AggMethod.unique_groups in Hu.
  bind_inv Hu as arrays Harr. bind_inv Hu as its Hits. bind_inv Hu as keys Hkeys.
  invert Hu.
  apply mapM_Forall2 in Harr. apply mapM_Forall2 in Hits.
  assert (Hitn : Forall (fun it => length it = n') its).
  { clear Hkeys Hne. revert its Hits.
    induction Harr as [|col a cols arrays Hcol _ IH]; intros its Hits; invert Hits;
      constructor; eauto.
    unfold getitem_str in Hcol.
    destruct (dict_get col (_data tafra)) as [a'|] eqn:Hg; [|discriminate].
    invert Hcol. apply dict_get_values in Hg.
    rewrite Forall_forall in Hlen. apply list_elem_of_In in Hg.
    apply Hlen in Hg. apply np_iter_length in H1. congruence. }
  assert (Hits_ne : its <> []).
  { intros ->. invert Hits. invert Harr. congruence. }
  rewrite (zip_star_transpose n' its Hits_ne Hitn) in Hkeys.
  apply hash_transpose in Hkeys as (cd & Hcd & ->); auto.
  apply mapM_Forall2 in Hcd.
  assert (Hcdn : Forall (fun l => length l = n') cd).
  { clear - Hcd Hitn. induction Hcd as [|it l its cd Hl _ IH]; invert Hitn;
      constructor; auto.
    apply mapM_length in Hl. congruence. }
  assert (Hcols : length cd = length (AggMethod._group_by_cols self)).
  { apply Forall2_length in Harr, Hits, Hcd. congruence. }
  exists (transpose n' cd). repeat split; auto.
  - now apply transpose_length.
  - rewrite <- Hcols. apply transpose_key_length.
  - intros Hpos. exists cd. repeat split; auto.
    clear - Harr Hits Hcd Hitn Hpos. revert its cd Hits Hcd Hitn.
    induction Harr as [|col a cols arrays Hcol _ IH]; intros its cd Hits Hcd Hitn.
    + invert Hits. invert Hcd. constructor.
    + invert Hits. invert Hcd. invert Hitn. constructor; eauto.
      exists a. split; auto. eapply np_iter_hashable; eauto; lia.
Qed.

Lemma fold_mask_fst {S} tafra
      (step : list bool * S -> scalar * string -> result (list bool * S)) :
  (forall w s vc w' s', step (w, s) vc = inr (w', s') -> mask_step tafra w vc = inr w') ->
  forall l w s w' s',
    foldM step l (w, s) = inr (w', s') -> foldM (mask_step tafra) l w = inr w'.
Proof.
  intros Hstep. induction l as [|vc l IH]; simpl; intros w s w' s' H.
  - now invert H.
  - bind_inv H as ws Hws. destruct ws as [w1 s1].
    rewrite (Hstep _ _ _ _ _ Hws). simpl. eauto.
Qed.

Lemma for_groups_masks body (f : nat * list scalar -> result (list bool)) :
  (forall g res w res', body g res = inr (w, res') -> f g = inr w) ->
  forall groups res masks res',
    AggMethod.for_groups body groups res = inr (masks, res') ->
    Forall2 (fun g m => f g = inr m) groups masks.
Proof.
  intros Hbody. induction groups as [|g groups IH]; simpl; intros res masks res' H.
  - invert H. constructor.
  - bind_inv H as wr Hwr. destruct wr as [w r].
    bind_inv H as mr Hmr. destruct mr as [ms r']. invert H.
    constructor; eauto.
Qed.

Lemma Forall2_enumerate_map {A B} (F : A -> result B) (G : A -> B) U masks :
  Forall2 (fun (g : nat * A) m => F (snd g) = inr m) (enumerate U) masks ->
  (forall u, In u U -> F u = inr (G u)) ->
  masks = map G U.
Proof.
  unfold enumerate. generalize 0 as i. revert masks.
  induction U as [|u U IH]; simpl; intros masks i H HF.
  - now invert H.
  - invert H. simpl in *. rewrite HF in H2 by auto. invert H2.
    f_equal. eapply IH; eauto.
Qed.

Lemma Forall2_In_l {A B} (R : A -> B -> Prop) l l' y :
  Forall2 R l l' -> In y l' -> exists x, In x l /\ R x y.
Proof.
  induction 1 as [|x y' l l' HR _ IH]; simpl; [tauto|].
  intros [<-|Hy]; [eauto|]. destruct (IH Hy) as (x' & ? & ?). eauto.
Qed.

(** The masks any of the three loops computes are the masks of the
    first-occurrence keys. *)
Lemma groups_masks self tafra n unique body res masks res' :
  AggMethod._group_by_cols self <> [] ->
  row_consistent tafra -> rows tafra = inr n ->
  AggMethod.unique_groups self tafra = inr unique ->
  group_values_self_equal tafra (AggMethod._group_by_cols self) ->
  (forall g r w r', body g r = inr (w, r') ->
                    which_rows_of tafra (AggMethod._group_by_cols self) (snd g) = inr w) ->
  AggMethod.for_groups body (enumerate unique) res = inr (masks, res') ->
  exists keys,
    unique = fromkeys keys /\ length keys = n /\
    Forall (fun k => tuple_eqb k k = true) keys /\
    masks = key_masks keys unique /\
    Forall (fun u => length u = length (AggMethod._group_by_cols self)) unique /\
    (0 < n -> exists cd,
        Forall2 (column_is tafra) (AggMethod._group_by_cols self) cd /\
        Forall (fun l => length l = n) cd).
Proof.
  intros Hne Hcons Hr Hu Hself Hbody Hfor.
  destruct (unique_groups_keys self tafra unique n Hne Hcons Hr Hu)
    as (keys & -> & Hlen & Hklen & Hpos).
  apply (for_groups_masks _ _ Hbody) in Hfor.
  exists keys. destruct n as [|n].
  - destruct keys; [|discriminate]. simpl in *. invert Hfor.
    repeat split; auto. lia.
  - destruct Hpos as (cd & Hcd & Hcdn & ->); [lia|].
    assert (Hrefl : Forall (fun k => tuple_eqb k k = true) (transpose (S n) cd)).
    { eapply Forall_impl; [|intros k; apply tuple_eqb_refl].
      apply transpose_Forall. apply Forall_forall. intros l Hl%list_elem_of_In.
      destruct (Forall2_In_l _ _ _ _ Hcd Hl) as (col & Hcol & a & Ha & Hb).
      specialize (Hself col a Hcol Ha). unfold np.flat in Hself. now rewrite Hb in Hself. }
    destruct (fromkeys_spec _ Hrefl) as (_ & Hsub & _).
    assert (Hulen : Forall (fun u => length u = length (AggMethod._group_by_cols self))
                           (fromkeys (transpose (S n) cd))).
    { apply Forall_forall. intros u Hu'%list_elem_of_In. apply Hsub in Hu'.
      rewrite Forall_forall in Hklen. apply Hklen. now apply list_elem_of_In. }
    repeat split; eauto.
    unfold key_masks. eapply Forall2_enumerate_map; eauto.
    intros u Hu'. simpl. apply which_rows_of_arr1; auto.
    rewrite Forall_forall in Hulen. apply Hulen. now apply list_elem_of_In.
Qed.

Section group_by_masks.
Context {N : NumPy}.

Lemma GroupBy_group_mask self tafra g res w res' :
  GroupBy.group self tafra g res = inr (w, res') ->
  which_rows_of tafra (AggMethod._group_by_cols self) (snd g) = inr w.
Proof.
  destruct g as [i u]. unfold GroupBy.group, which_rows_of. intros H.
  bind_inv H as w0 Hw0. rewrite Hw0. simpl.
  bind_inv H as wr Hwr. destruct wr as [w1 r1].
  bind_inv H as r2 Hr2. invert H.
  eapply fold_mask_fst; [|exact Hwr].
  intros w2 s [val col] w' s' Hstep.
  bind_inv Hstep as w3 Hw3. bind_inv Hstep as r Hr. bind_inv Hstep as r' Hr'.
  now invert Hstep.
Qed.

Lemma Transform_group_mask self tafra g res w res' :
  Transform.group self tafra g res = inr (w, res') ->
  which_rows_of tafra (AggMethod._group_by_cols self) (snd g) = inr w.
Proof.
  destruct g as [i u]. unfold Transform.group, which_rows_of. intros H.
  bind_inv H as w0 Hw0. rewrite Hw0. simpl.
  bind_inv H as wr Hwr. destruct wr as [w1 r1].
  bind_inv H as r2 Hr2. invert H.
  eapply fold_mask_fst; [|exact Hwr].
  intros w2 s [val col] w' s' Hstep.
  bind_inv Hstep as w3 Hw3. bind_inv Hstep as a Ha. bind_inv Hstep as sub Hsub.
  bind_inv Hstep as r Hr. bind_inv Hstep as r' Hr'.
  now invert Hstep.
Qed.

(** C8, as the code has it. For a row-consistent Tafra, a group-by list
    that is not empty and group-by values that equal themselves (no
    [nan]), the masks [GroupBy] computes for its groups partition the
    rows: each mask has one entry per row, no row is in two masks, every
    row is in one, and the counts of the masks add up to the row count. *)
Theorem C8_group_masks_partition (self : AggMethod.t) (tafra : Tafra) (n : nat)
        (masks : list (list bool)) (res : list (string * ndarray)) :
  AggMethod._group_by_cols self <> [] ->
  row_consistent tafra -> rows tafra = inr n ->
  group_values_self_equal tafra (AggMethod._group_by_cols self) ->
  GroupBy.run self tafra = inr (masks, res) ->
  partition_rows n masks.
Proof.
  intros Hne Hcons Hr Hself Hrun. unfold GroupBy.run in Hrun.
  bind_inv Hrun as v Hv. bind_inv Hrun as unique Hu. bind_inv Hrun as res0 Hres0.
  destruct (groups_masks self tafra n unique _ res0 masks res Hne Hcons Hr Hu Hself
              (GroupBy_group_mask self tafra) Hrun)
    as (keys & -> & Hlen & Hrefl & -> & _).
  rewrite <- Hlen. apply key_masks_partition. exact Hrefl.
Qed.

End group_by_masks.

Lemma example_row_consistent : row_consistent example_tafra.
Proof. exists 6. split; [reflexivity|]. repeat constructor. Qed.

Lemma example_self_equal : group_values_self_equal example_tafra ["y"; "z"].
Proof.
  intros col a [<-|[<-|[]]] H; vm_compute in H; invert H; repeat constructor.
Qed.

Lemma C8_group_masks_partition_witness :
  partition_rows 6 [[true; false; true; false; false; false];
                    [false; true; false; false; false; false];
                    [false; false; false; true; false; true];
                    [false; false; false; false; true; false]].
Proof.
  eapply (@C8_group_masks_partition numpy example_agg example_tafra 6).
  - discriminate.
  - exact example_row_consistent.
  - reflexivity.
  - exact example_self_equal.
  - vm_compute. reflexivity.
Defined.

(** C8 as stated fails in two ways. With no group-by column there is no
    group and so no mask, though the table has six rows; and a row whose
    group-by value is [nan] is in no mask, its own group's included. *)
Lemma C8_group_masks_partition_counterexample :
  (exists res, GroupBy.run group_by_nothing example_tafra = inr ([], res) /\
               rows example_tafra = inr 6 /\
               ~ partition_rows 6 []) /\
  (exists res, GroupBy.run group_by_x nan_tafra
               = inr ([[false; false]; [false; true]], res) /\
               row_consistent nan_tafra /\ rows nan_tafra = inr 2 /\
               ~ partition_rows 2 [[false; false]; [false; true]]).
Proof.
  split.
  - eexists. split; [vm_compute; reflexivity|]. split; [reflexivity|].
    intros (_ & _ & _ & Hsum). simpl in Hsum. discriminate.
  - eexists. split; [vm_compute; reflexivity|].
    split; [exists 2; split; [reflexivity | repeat constructor]|].
    split; [reflexivity|].
    intros (_ & _ & _ & Hsum). vm_compute in Hsum. discriminate.
Qed.

(** *** Masked stores *)

Lemma length_select_count {A} (m : list bool) (l : list A) :
  length m = length l -> length (np.select m l) = np.count_true m.
Proof.
  revert l. induction m as [|b m IH]; intros [|x l] Hl; simpl in *; try discriminate; auto.
  rewrite count_true_cons. destruct b; simpl; rewrite IH by lia; reflexivity.
Qed.

Lemma length_scatter {A} (m : list bool) (dst src : list A) :
  length (np.scatter m dst src) = length dst.
Proof.
  revert dst src. induction m as [|b m IH]; intros [|x dst] src; simpl; auto.
  destruct b; [destruct src|]; simpl; now rewrite IH.
Qed.

Lemma scatter_select_lookup {A} (m : list bool) (dst l : list A) i :
  length m = length dst -> length l = length dst ->
  np.scatter m dst (np.select m l) !! i
  = if decide (m !! i = Some true) then l !! i else dst !! i.
Proof.
  revert dst l i. induction m as [|b m IH]; intros [|x dst] [|y l] i Hm Hl;
    simpl in *; try discriminate; auto.
  destruct b; simpl; destruct i as [|i]; simpl; auto.
Qed.

Lemma length_fill {A} (m : list bool) (dst : list A) v :
  length m = length dst -> length (np.fill m dst v) = length dst.
Proof. intros H. unfold np.fill. rewrite length_zip_with. lia. Qed.

Lemma zip_and_le w x : mask_le (zip_with andb w x) w.
Proof.
  intros i. rewrite lookup_zip_with.
  destruct (w !! i) as [[]|]; simpl; auto; destruct (x !! i); simpl; discriminate.
Qed.

Lemma mask_le_trans a b c : mask_le a b -> mask_le b c -> mask_le a c.
Proof. unfold mask_le. auto. Qed.

Lemma filled_weaken tafra res c (P Q : nat -> Prop) :
  (forall i, Q i -> P i) -> filled tafra res c P -> filled tafra res c Q.
Proof.
  intros HQ HP a l Ha Hb. destruct (HP a l Ha Hb) as (l' & ? & ? & ?).
  exists l'. repeat split; auto.
Qed.

Section transform.
Context {N : NumPy}.

Lemma setitem_mask_array_len r m src r' :
  setitem_mask_array r m src = inr r' -> np.len r' = np.len r.
Proof.
  unfold setitem_mask_array, np.len.
  destruct (body r) as [s|l|d inner planes] eqn:Hr; try discriminate;
    destruct (body src) as [s'|l'|d' inner' planes']; try discriminate.
  destruct (decide (length m = length l)) as [Hm|]; [|discriminate]. simpl.
  intros H. bind_inv H as s1 Hs1.
  destruct (decide (length s1 = np.count_true m)).
  - invert H. simpl. now rewrite length_scatter.
  - destruct s1 as [|v [|]]; try discriminate. invert H. simpl.
    now rewrite length_fill.
Qed.

Lemma setitem_mask_len r m v r' :
  setitem_mask r m v = inr r' -> np.len r' = np.len r.
Proof.
  unfold setitem_mask, np.len.
  destruct (body r) as [s|l|d inner planes] eqn:Hr; try discriminate.
  destruct (decide (length m = length l)) as [Hm|]; [|discriminate]. simpl.
  intros H. bind_inv H as v' Hv'. invert H. simpl. now rewrite length_fill.
Qed.

(** The store [result[col][which_rows] = tafra[col][which_rows]]. *)
Lemma transform_store a l r l' w sub r' :
  body a = Arr1 l -> length w = length l ->
  r = {| dtype := dtype a; body := Arr1 l' |} -> length l' = length l ->
  np.getitem_mask a w = inr sub ->
  setitem_mask_array r w sub = inr r' ->
  r' = {| dtype := dtype a; body := Arr1 (np.scatter w l' (np.select w l)) |}.
Proof.
  intros Hb Hw -> Hl' Hsub Hset.
  unfold np.getitem_mask in Hsub. rewrite Hb in Hsub.
  rewrite decide_True in Hsub by auto. invert Hsub.
  unfold setitem_mask_array in Hset. simpl in Hset.
  rewrite decide_True in Hset by congruence. simpl in Hset.
  rewrite decide_True in Hset by reflexivity. simpl in Hset.
  rewrite decide_True in Hset by (now apply length_select_count).
  now invert Hset.
Qed.

Variable self : AggMethod.t.
Variable tafra : Tafra.

(** One turn of the loop over the group-by columns, as [Transform] has it. *)
Lemma transform_key_step P w res v c l w1 res1 :
  column_is tafra c l -> length l = length w ->
  filled tafra res c P ->
  (let* which_rows := mask_step tafra w (v, c) in
   let* a := getitem_str c tafra in
   let* sub := np.getitem_mask a which_rows in
   let* r := AggMethod.result_at c res in
   let* r' := setitem_mask_array r which_rows sub in
   ret (which_rows, dict_set c r' res)) = inr (w1, res1) ->
  length w1 = length w /\ mask_le w1 w /\
  (forall c' Q, filled tafra res c' Q -> filled tafra res1 c' Q) /\
  filled tafra res1 c (fun i => P i \/ w1 !! i = Some true).
Proof.
  intros (a & Ha & Hb) Hl HP H.
  bind_inv H as w' Hw'. bind_inv H as a' Ha'. bind_inv H as sub Hsub.
  bind_inv H as r Hr. bind_inv H as r' Hr'. invert H.
  rewrite Ha in Ha'. invert Ha'.
  simpl in Hw'. rewrite Ha in Hw'. simpl in Hw'.
  unfold np.iand, np.equal in Hw'. simpl in Hw'. rewrite Hb in Hw'.
  rewrite decide_True in Hw' by (now rewrite length_map). invert Hw'.
  set (w1 := zip_with andb w _) in *.
  assert (Hw1 : length w1 = length w).
  { subst w1. rewrite length_zip_with, !length_map. lia. }
  destruct (HP a' l Ha Hb) as (l' & Hget & Hl' & Hagree).
  unfold AggMethod.result_at in Hr. rewrite Hget in Hr. invert Hr.
  pose proof (transform_store a' l _ l' w1 sub r' Hb ltac:(lia) eq_refl Hl' Hsub Hr')
    as ->.
  assert (Hkeep : forall Q, filled tafra res c Q ->
            filled tafra (dict_set c {| dtype := dtype a';
                                        body := Arr1 (np.scatter w1 l' (np.select w1 l)) |} res)
                   c (fun i => Q i \/ w1 !! i = Some true)).
  { intros Q HQ a2 l2 Ha2 Hb2. rewrite Ha in Ha2. invert Ha2.
    rewrite Hb in Hb2. invert Hb2.
    destruct (HQ a2 l2 Ha Hb) as (l3 & Hget3 & Hl3 & Hagree3).
    rewrite Hget in Hget3. invert Hget3.
    eexists. split; [apply dict_get_set_eq|]. split; [now rewrite length_scatter|].
    intros i Hi. rewrite scatter_select_lookup by lia.
    destruct (decide (w1 !! i = Some true)); [reflexivity|].
    destruct Hi; [auto | contradiction]. }
  split; [exact Hw1|]. split; [apply zip_and_le|]. split; [|apply Hkeep, HP].
  intros c' Q HQ. destruct (decide (c = c')) as [<-|Hne].
  - eapply filled_weaken; [|apply Hkeep, HQ]. intros i Hi. simpl. auto.
  - intros a2 l2 Ha2 Hb2. destruct (HQ a2 l2 Ha2 Hb2) as (l3 & Hget3 & ?).
    exists l3. split; auto. now rewrite dict_get_set_ne.
Qed.

End transform.

(** *** The result dictionary *)

Lemma dict_of_items_get {V} (items : list (string * V)) k v :
  In (k, v) items -> (forall v', In (k, v') items -> v' = v) ->
  dict_get k (dict_of_items items) = Some v.
Proof.
  unfold dict_of_items, dict_update. intros Hin Hall.
  assert (H : forall acc : list (string * V),
             In (k, v) items \/ dict_get k acc = Some v ->
             dict_get k (fold_left (fun acc kv => dict_set (fst kv) (snd kv) acc) items acc)
             = Some v); [|apply H; auto].
  clear Hin. induction items as [|[k' v'] items IH]; simpl; intros acc Hor.
  - destruct Hor as [[]|]; auto.
  - assert (Hall' : forall v0, In (k, v0) items -> v0 = v).
    { intros v0 H0. apply Hall. right. exact H0. }
    apply (IH Hall').
    destruct (decide (k' = k)) as [->|Hne].
    + right. rewrite (Hall v') by (left; reflexivity). apply dict_get_set_eq.
    + destruct Hor as [[Heq|Hin]|Hacc]; [congruence | auto |].
      right. now rewrite dict_get_set_ne.
Qed.

Lemma dict_of_items_Forall {V} (P : V -> Prop) (items : list (string * V)) :
  Forall P (map snd items) -> Forall P (dict_values (dict_of_items items)).
Proof.
  unfold dict_of_items, dict_update. intros H.
  assert (G : forall acc : list (string * V), Forall P (dict_values acc) ->
             Forall P (dict_values
               (fold_left (fun acc kv => dict_set (fst kv) (snd kv) acc) items acc)));
    [|apply G; constructor].
  induction items as [|[k v] items IH]; simpl in *; intros acc Hacc; auto.
  invert H. apply IH; auto. now apply dict_values_set_Forall.
Qed.

Lemma dict_of_items_nil {V} (items : list (string * V)) :
  items <> [] -> dict_of_items items <> [].
Proof.
  unfold dict_of_items, dict_update. destruct items as [|[k v] items]; [congruence|].
  intros _. simpl.
  assert (G : forall (l : list (string * V)) acc, acc <> [] ->
             fold_left (fun acc kv => dict_set (fst kv) (snd kv) acc) l acc <> []);
    [|apply G; discriminate].
  induction l as [|[k' v'] l IH]; simpl; auto.
  intros acc Hacc. apply IH. destruct acc as [|[k0 v0] acc]; [congruence|].
  simpl. destruct (decide (k' = k0)); discriminate.
Qed.

Lemma empty_like_len a n : np.len a = inr n -> np.len (np.empty_like a) = inr n.
Proof.
  unfold np.len, np.empty_like. destruct (body a); simpl; intros H; invert H;
    now rewrite ?length_replicate, ?length_map.
Qed.

Lemma empty_like_no_rows a : np.len a = inr 0 -> np.empty_like a = a.
Proof.
  destruct a as [dt b]. unfold np.len, np.empty_like. simpl.
  destruct b as [s|l|d inner planes]; simpl; intros H; invert H.
  - destruct l; [reflexivity | discriminate].
  - destruct planes; [reflexivity | discriminate].
Qed.

Lemma getitem_str_len tafra n c a :
  row_consistent tafra -> rows tafra = inr n -> getitem_str c tafra = inr a ->
  np.len a = inr n.
Proof.
  intros (n' & Hr' & HF) Hr Ha. rewrite Hr in Hr'. invert Hr'.
  unfold getitem_str in Ha. destruct (dict_get c (_data tafra)) eqn:Hg; invert Ha.
  apply dict_get_values in Hg. rewrite Forall_forall in HF.
  apply HF. now apply list_elem_of_In.
Qed.

Section transform_run.
Context {N : NumPy}.
Variable self : AggMethod.t.
Variable tafra : Tafra.

Let cols := AggMethod._group_by_cols self.
Let aggs := AggMethod._aggregation self.

Lemma transform_factory res0 :
  AggMethod.result_factory self
    (fun rename col => let* a := getitem_str col tafra in ret (np.empty_like a)) = inr res0 ->
  (forall n, row_consistent tafra -> rows tafra = inr n -> all_len n res0) /\
  (cols <> [] \/ aggs <> [] -> res0 <> []) /\
  (forall c, In c cols -> ~ In c (dict_keys aggs) ->
     exists a, getitem_str c tafra = inr a /\ dict_get c res0 = Some (np.empty_like a)).
Proof.
  unfold AggMethod.result_factory. fold cols. fold aggs. intros H.
  bind_inv H as items Hitems. invert H. apply mapM_Forall2 in Hitems.
  set (pairs := (map (fun col => (col, col)) cols
                 ++ map (fun '(rename, agg) => (rename, snd agg)) aggs)%list) in *.
  split; [|split].
  - intros n Hc Hr. apply dict_of_items_Forall.
    clear -Hitems Hc Hr. induction Hitems as [|[rename col] [k v] ps its Hp _ IH]; simpl;
      constructor; auto.
    bind_inv Hp as a Ha. invert Hp. bind_inv Ha as a0 Ha0. invert Ha. simpl.
    apply empty_like_len. eapply getitem_str_len; eauto.
  - intros Hne. apply dict_of_items_nil. intros ->. invert Hitems.
    symmetry in H0. apply app_eq_nil in H0 as [H1 H2].
    apply map_eq_nil in H1, H2. tauto.
  - intros c Hc Hnot.
    assert (Hpair : In (c, c) pairs).
    { apply in_or_app. left. apply in_map_iff. eauto. }
    assert (Hfst : forall src, In (c, src) pairs -> src = c).
    { intros src Hin. apply in_app_or in Hin as [Hin|Hin].
      - apply in_map_iff in Hin as (c' & Heq & _). congruence.
      - apply in_map_iff in Hin as ([rename agg] & Heq & Hin). invert Heq.
        exfalso. apply Hnot. unfold dict_keys. apply in_map_iff.
        exists (c, agg). auto. }
    assert (Hitem : forall k v, In (k, v) items ->
              exists src a, In (k, src) pairs /\ getitem_str src tafra = inr a /\
                            v = np.empty_like a).
    { clear -Hitems. induction Hitems as [|[rename col] [k' v'] ps its Hp _ IH];
        simpl; [tauto|]. intros k v [Heq|Hin].
      - invert Heq. bind_inv Hp as a Ha. invert Hp. bind_inv Ha as a0 Ha0. invert Ha.
        eauto 6.
      - destruct (IH k v Hin) as (src & a & ? & ? & ?). eauto 6. }
    assert (Hex : exists v, In (c, v) items).
    { clear -Hitems Hpair. induction Hitems as [|[rename col] [k' v'] ps its Hp _ IH];
        simpl in *; [tauto|]. destruct Hpair as [Heq|Hin].
      - invert Heq. bind_inv Hp as a Ha. invert Hp. eauto.
      - destruct (IH Hin) as [v ?]. eauto. }
    destruct Hex as [v Hv]. destruct (Hitem c v Hv) as (src & a & Hsrc & Ha & ->).
    apply Hfst in Hsrc. subst src. exists a. split; auto.
    apply dict_of_items_get; auto.
    intros v' Hv'. destruct (Hitem c v' Hv') as (src' & a' & Hsrc' & Ha' & ->).
    apply Hfst in Hsrc'. subst src'. congruence.
Qed.

(** The loop over the group-by columns. *)
Lemma transform_keys_fold P zs :
  forall w res w' res',
    Forall (fun vc => exists l, column_is tafra (snd vc) l /\ length l = length w) zs ->
    Forall (fun vc => filled tafra res (snd vc) P) zs ->
    foldM (fun '(which_rows, res) '(val, col) =>
             let* which_rows := mask_step tafra which_rows (val, col) in
             let* a := getitem_str col tafra in
             let* sub := np.getitem_mask a which_rows in
             let* r := AggMethod.result_at col res in
             let* r' := setitem_mask_array r which_rows sub in
             ret (which_rows, dict_set col r' res)) zs (w, res) = inr (w', res') ->
    length w' = length w /\ mask_le w' w /\
    (forall c Q, filled tafra res c Q -> filled tafra res' c Q) /\
    Forall (fun vc => filled tafra res' (snd vc) (fun i => P i \/ w' !! i = Some true)) zs.
Proof.
  induction zs as [|[v c] zs IH]; intros w res w' res' Hcol Hfill H.
  - simpl in H. invert H. repeat split; auto. intros i Hi; exact Hi.
  - simpl in H. bind_inv H as ws Hws. destruct ws as [w1 res1].
    invert Hcol. invert Hfill. destruct H2 as (l & Hl & Hlen). simpl in *.
    destruct (transform_key_step tafra P w res v c l w1 res1 Hl Hlen H4 Hws)
      as (Hw1 & Hle1 & Hkeep1 & Hfill1).
    destruct (IH w1 res1 w' res') as (Hw' & Hle' & Hkeep' & Hfill'); auto.
    + rewrite Hw1. exact H3.
    + eapply Forall_impl; [exact H5|]. intros vc. apply Hkeep1.
    + repeat split.
      * congruence.
      * eapply mask_le_trans; eauto.
      * auto.
      * constructor; [|exact Hfill']. simpl.
        eapply filled_weaken; [|apply Hkeep', Hfill1].
        intros i [Hi|Hi]; simpl; auto.
Qed.

(** The loop over the aggregations leaves the other columns alone. *)
Lemma transform_aggs_fold w ags :
  forall res res',
    foldM (fun res '(rename, (fn, col)) =>
             let* a := getitem_str col tafra in
             let* sub := np.getitem_mask a w in
             let* v := fn sub in
             let* r := AggMethod.result_at rename res in
             let* r' := setitem_mask r w v in
             ret (dict_set rename r' res)) ags res = inr res' ->
    forall c, ~ In c (dict_keys ags) -> dict_get c res' = dict_get c res.
Proof.
  induction ags as [|[rename [fn col]] ags IH]; simpl; intros res res' H c Hc.
  - now invert H.
  - bind_inv H as res1 Hres1. rewrite (IH _ _ H) by tauto.
    bind_inv Hres1 as a Ha. bind_inv Hres1 as sub Hsub. bind_inv Hres1 as v Hv.
    bind_inv Hres1 as r Hr. bind_inv Hres1 as r' Hr'. invert Hres1.
    apply dict_get_set_ne. intros ->. tauto.
Qed.

(** What every store of the loops keeps: a property of the result
    dictionary that survives replacing an array by one of the same
    length. *)
Variable I : list (string * ndarray) -> Prop.
Hypothesis I_store : forall res c r r',
  I res -> dict_get c res = Some r -> np.len r' = np.len r -> I (dict_set c r' res).

Lemma transform_group_keeps g res w res' :
  I res -> Transform.group self tafra g res = inr (w, res') -> I res'.
Proof.
  destruct g as [i u]. unfold Transform.group. intros Hres H.
  bind_inv H as w0 Hw0. bind_inv H as wr Hwr. destruct wr as [w1 res1].
  bind_inv H as res2 Hres2. invert H.
  assert (H1 : I res1).
  { clear Hres2. revert Hwr. generalize w0 as wa. revert Hres. generalize res as ra.
    induction (zip u (AggMethod._group_by_cols self)) as [|[v c] zs IH];
      simpl; intros ra Hra wa H.
    - now invert H.
    - bind_inv H as ws Hws. destruct ws as [w2 r2]. eapply IH; [|exact H].
      bind_inv Hws as w3 Hw3. bind_inv Hws as a Ha. bind_inv Hws as sub Hsub.
      bind_inv Hws as r Hr. bind_inv Hws as r' Hr'. invert Hws.
      unfold AggMethod.result_at in Hr.
      destruct (dict_get c ra) eqn:Hg; invert Hr.
      eapply I_store; eauto using setitem_mask_array_len. }
  clear Hwr. revert Hres2. revert H1. generalize res1 as ra.
  induction (AggMethod._aggregation self) as [|[rename [fn col]] ags IH];
    simpl; intros ra Hra H.
  - now invert H.
  - bind_inv H as r2 Hr2. eapply IH; [|exact H].
    bind_inv Hr2 as a Ha. bind_inv Hr2 as sub Hsub. bind_inv Hr2 as v Hv.
    bind_inv Hr2 as r Hr. bind_inv Hr2 as r' Hr'. invert Hr2.
    unfold AggMethod.result_at in Hr.
    destruct (dict_get rename ra) eqn:Hg; invert Hr.
    eapply I_store; eauto using setitem_mask_len.
Qed.

Lemma transform_groups_keep groups :
  forall res masks res',
    I res ->
    AggMethod.for_groups (Transform.group self tafra) groups res = inr (masks, res') ->
    I res'.
Proof.
  induction groups as [|g groups IH]; simpl; intros res masks res' Hres H.
  - now invert H.
  - bind_inv H as wr Hwr. destruct wr as [w r].
    bind_inv H as mr Hmr. destruct mr as [ms r']. invert H.
    eapply IH; [|exact Hmr]. eapply transform_group_keeps; eauto.
Qed.

End transform_run.

Lemma all_len_store n res c r r' :
  all_len n res /\ res <> [] -> dict_get c res = Some r -> np.len r' = np.len r ->
  all_len n (dict_set c r' res) /\ dict_set c r' res <> [].
Proof.
  intros [Hlen Hne] Hg Hr. split.
  - apply dict_values_set_Forall; auto. rewrite Hr.
    apply dict_get_values in Hg. unfold all_len in Hlen. rewrite Forall_forall in Hlen.
    apply Hlen. now apply list_elem_of_In.
  - destruct res as [|[k v] res]; [congruence|]. simpl.
    destruct (decide (c = k)); discriminate.
Qed.

Lemma zip_snd_Forall {A B} (Q : B -> Prop) (xs : list A) (ys : list B) :
  (forall y, In y ys -> Q y) -> Forall (fun p => Q (snd p)) (zip xs ys).
Proof.
  revert ys. induction xs as [|x xs IH]; intros [|y ys] H; simpl; constructor; simpl in *; auto.
Qed.

Lemma zip_In_snd {A B} (xs : list A) (ys : list B) y :
  length xs = length ys -> In y ys -> exists x, In (x, y) (zip xs ys).
Proof.
  revert ys. induction xs as [|x xs IH]; intros [|y' ys] Hl Hy; simpl in *;
    try discriminate; try tauto.
  destruct Hy as [->|Hy]; [eauto|].
  destruct (IH ys) as [x' ?]; auto. eauto.
Qed.

Lemma Forall2_In_r {A B} (R : A -> B -> Prop) l l' x :
  Forall2 R l l' -> In x l -> exists y, In y l' /\ R x y.
Proof.
  induction 1 as [|x' y l l' HR _ IH]; simpl; [tauto|].
  intros [<-|Hx]; [eauto|]. destruct (IH Hx) as (y' & ? & ?). eauto.
Qed.

Lemma filled_ext tafra res res' c P :
  dict_get c res' = dict_get c res -> filled tafra res c P -> filled tafra res' c P.
Proof. intros Heq H a l Ha Hb. rewrite Heq. auto. Qed.

Lemma init_plain {N : NumPy} d out : __init__ d [] = inr out -> _data out = d.
Proof.
  unfold __init__. intros H.
  destruct (__post_init__ _) as [[e|[]] self] eqn:HP; [discriminate|]. invert H.
  unfold __post_init__, mbind, gets, lift in HP. simpl in HP.
  destruct (foldM check_rows d None); [discriminate|]. simpl in HP.
  pose proof (coalesce_types_data {| _data := d; _dtypes := [] |}) as HC.
  rewrite HP in HC. exact HC.
Qed.

Section transform_thm.
Context {N : NumPy}.
Variable self : AggMethod.t.
Variable tafra : Tafra.

Let cols := AggMethod._group_by_cols self.
Let aggs := AggMethod._aggregation self.

Lemma transform_group_filled P n cd g res w res' :
  rows tafra = inr n ->
  Forall2 (column_is tafra) cols cd -> Forall (fun l => length l = n) cd ->
  length (snd g) = length cols ->
  (forall c, In c cols -> ~ In c (dict_keys aggs)) ->
  (forall c, In c cols -> filled tafra res c P) ->
  Transform.group self tafra g res = inr (w, res') ->
  forall c, In c cols -> filled tafra res' c (fun i => P i \/ w !! i = Some true).
Proof.
  destruct g as [i u]. unfold Transform.group. fold cols. fold aggs.
  intros Hr Hcd Hcdn Hu Hnot Hfill H c Hc.
  bind_inv H as w0 Hw0. bind_inv H as wr Hwr. destruct wr as [w1 res1].
  bind_inv H as res2 Hres2. invert H.
  unfold all_rows in Hw0. rewrite Hr in Hw0. invert Hw0.
  apply (transform_keys_fold tafra P) in Hwr as (Hlen & Hle & Hkeep & Hfill1).
  - eapply filled_ext; [eapply transform_aggs_fold; eauto|].
    destruct (zip_In_snd u cols c Hu Hc) as [v Hv].
    rewrite Forall_forall in Hfill1. apply list_elem_of_In in Hv.
    apply (Hfill1 _ Hv).
  - apply (zip_snd_Forall (fun c => exists l, column_is tafra c l /\
                                               length l = length (np.full_true n))).
    intros c' Hc'.
    destruct (Forall2_In_r _ _ _ _ Hcd Hc') as (l & Hl & Hcol).
    exists l. split; auto. unfold np.full_true. rewrite length_replicate.
    rewrite Forall_forall in Hcdn. apply Hcdn. now apply list_elem_of_In.
  - apply (zip_snd_Forall (fun c => filled tafra res c P)). auto.
Qed.

Lemma transform_groups_filled n cd groups :
  rows tafra = inr n ->
  Forall2 (column_is tafra) cols cd -> Forall (fun l => length l = n) cd ->
  (forall c, In c cols -> ~ In c (dict_keys aggs)) ->
  forall P res masks res',
    Forall (fun g => length (snd g) = length cols) groups ->
    (forall c, In c cols -> filled tafra res c P) ->
    AggMethod.for_groups (Transform.group self tafra) groups res = inr (masks, res') ->
    forall c, In c cols ->
      filled tafra res' c (fun i => P i \/ exists m, In m masks /\ m !! i = Some true).
Proof.
  intros Hr Hcd Hcdn Hnot.
  induction groups as [|g groups IH]; simpl; intros P res masks res' Hg Hfill H c Hc.
  - invert H. eapply filled_weaken; [|apply Hfill, Hc].
    intros i [Hi|(m & [] & _)]. exact Hi.
  - bind_inv H as wr Hwr. destruct wr as [w r].
    bind_inv H as mr Hmr. destruct mr as [ms r']. invert H. invert Hg.
    eapply filled_weaken;
      [|eapply (IH (fun i => P i \/ w !! i = Some true)); eauto].
    + intros i [Hi|(m & [<-|Hm] & Hmi)]; simpl; eauto.
    + intros c' Hc'. eapply transform_group_filled; eauto.
Qed.

(** C6, as the code has it. When [Transform] succeeds on a
    row-consistent Tafra, the result has the row count of the input
    provided it has a column at all (a group-by column or an
    aggregation); and every group-by column of the result equals the
    input column, row for row, provided no aggregation is named like a
    group-by column and no group-by value is [nan]. *)
Theorem C6_transform_keeps_rows (n : nat) (out : Tafra) :
  row_consistent tafra -> rows tafra = inr n ->
  Transform.apply self tafra = inr out ->
  (AggMethod._group_by_cols self <> [] \/ AggMethod._aggregation self <> [] ->
   rows out = inr n) /\
  (group_values_self_equal tafra (AggMethod._group_by_cols self) ->
   (forall c, In c (AggMethod._group_by_cols self) ->
              ~ In c (dict_keys (AggMethod._aggregation self))) ->
   forall c, In c (AggMethod._group_by_cols self) ->
             getitem_str c out = getitem_str c tafra).
Proof.
  fold cols. fold aggs. intros Hcons Hr H. unfold Transform.apply in H.
  bind_inv H as mr Hrun. destruct mr as [masks res].
  apply init_plain in H. unfold Transform.run in Hrun.
  bind_inv Hrun as v Hv. bind_inv Hrun as unique Hu. bind_inv Hrun as res0 Hres0.
  destruct (transform_factory self tafra res0 Hres0) as (Hlen0 & Hne0 & Hget0).
  fold cols in Hne0, Hget0. fold aggs in Hne0, Hget0.
  split.
  - intros Hne.
    destruct (transform_groups_keep self tafra
                (fun r => all_len n r /\ r <> []) (all_len_store n)
                _ _ _ _ (conj (Hlen0 n Hcons Hr) (Hne0 Hne)) Hrun) as [Hlen Hnil].
    unfold rows. rewrite H. destruct res as [|[k a] res]; [congruence|].
    simpl. now invert Hlen.
  - intros Hself Hnot c Hc.
    assert (Hcols : cols <> []) by (intros E; rewrite E in Hc; destruct Hc).
    destruct (groups_masks self tafra n unique _ res0 masks res Hcols Hcons Hr Hu Hself
                (Transform_group_mask self tafra) Hrun)
      as (keys & -> & Hklen & Hrefl & -> & Hulen & Hpos).
    destruct (Hget0 c Hc (Hnot c Hc)) as (a & Ha & Hg0).
    unfold getitem_str at 1. rewrite H, Ha.
    destruct n as [|n].
    + destruct keys; [|discriminate]. simpl in Hrun. invert Hrun.
      rewrite Hg0. rewrite empty_like_no_rows; auto.
      eapply getitem_str_len; eauto.
    + destruct Hpos as (cd & Hcd & Hcdn); [lia|].
      assert (Hfill0 : forall c, In c cols -> filled tafra res0 c (fun _ => False)).
      { intros c' Hc' a' l Ha' Hb'.
        destruct (Hget0 c' Hc' (Hnot c' Hc')) as (a2 & Ha2 & Hg2).
        rewrite Ha' in Ha2. invert Ha2. rewrite Hg2.
        unfold np.empty_like. rewrite Hb'. eexists. split; [reflexivity|].
        split; [apply length_replicate | tauto]. }
      assert (Hglen : Forall (fun g => length (snd g) = length cols)
                             (enumerate (fromkeys keys))).
      { unfold enumerate. apply (zip_snd_Forall (fun u => length u = length cols)).
        intros u Hu'. rewrite Forall_forall in Hulen.
        apply Hulen. now apply list_elem_of_In. }
      pose proof (transform_groups_filled (S n) cd _ Hr Hcd Hcdn Hnot _ _ _ _
                    Hglen Hfill0 Hrun c Hc) as Hfilled.
      destruct (Forall2_In_r _ _ _ _ Hcd Hc) as (l & Hl & a' & Ha' & Hb).
      rewrite Ha in Ha'. invert Ha'.
      destruct (Hfilled a' l Ha Hb) as (l' & Hg & Hl' & Hagree).
      rewrite Hg.
      assert (Hln : length l = S n).
      { rewrite Forall_forall in Hcdn. apply Hcdn. now apply list_elem_of_In. }
      destruct (key_masks_partition keys Hrefl) as (_ & _ & Hcover & _).
      assert (Heq : l' = l).
      { apply list_eq. intros i. destruct (decide (i < S n)) as [Hi|Hi].
        - apply Hagree. right. rewrite <- Hklen in Hi.
          destruct (Hcover i Hi) as (j & mj & Hj & Hmj).
          exists mj. split; auto. apply list_elem_of_In, list_elem_of_lookup. eauto.
        - rewrite !lookup_ge_None_2 by lia. reflexivity. }
      subst l'. destruct a' as [dt b]. simpl in *. now subst b.
Qed.

End transform_thm.

Lemma C6_transform_keeps_rows_witness :
  exists out,
    Transform.apply sum_x_agg example_tafra = inr out /\
    rows out = inr 6 /\
    getitem_str "y" out = getitem_str "y" example_tafra /\
    getitem_str "z" out = getitem_str "z" example_tafra.
Proof.
  destruct (Transform.apply sum_x_agg example_tafra) as [e|out] eqn:Happly;
    [vm_compute in Happly; discriminate|].
  exists out. split; [reflexivity|].
  destruct (@C6_transform_keeps_rows numpy sum_x_agg example_tafra 6 out
              example_row_consistent eq_refl Happly) as [Hrows Hcols].
  split; [apply Hrows; left; discriminate|].
  assert (Hnot : forall c, In c ["y"; "z"] -> ~ In c ["x"]).
  { intros c [<-|[<-|[]]] [H|[]]; discriminate. }
  split; apply (Hcols example_self_equal Hnot); simpl; auto.
Defined.

(** C6 as stated fails in three ways. With no group-by column and no
    aggregation the result is the empty table, of no rows, while the input
    has six; an aggregation named like a group-by column overwrites that
    column with the reduced values; and the row of a [nan] group-by value
    is never written, so the result holds an uninitialised cell there. *)
Lemma C6_transform_keeps_rows_counterexample :
  (exists out, Transform.apply group_by_nothing example_tafra = inr out /\
               rows example_tafra = inr 6 /\ rows out = inr 0) /\
  (exists out, Transform.apply sum_z_agg example_tafra = inr out /\
               getitem_str "z" example_tafra = inr (int64_array [0; 0; 0; 1; 1; 1]%Z) /\
               getitem_str "z" out = inr (int64_array [0; 0; 0; 3; 3; 3]%Z)) /\
  (exists out, Transform.apply group_by_x nan_tafra = inr out /\
               getitem_str "x" out
               = inr {| dtype := "float64";
                        body := Arr1 [SUndef;
                                      SFloat (S754_finite false 4503599627370496 (-52))] |}).
Proof.
  split; [|split]; eexists; (split; [vm_compute; reflexivity|]); repeat split.
Qed.

(** *** Validation and mutation *)

Section validation.
Context {N : NumPy}.

Lemma update_types_invalid dtypes self e :
  _validate_types dtypes = inl e -> update_types (Some dtypes) self = (inl e, self).
Proof. intros H. unfold update_types, mbind, lift. now rewrite H. Qed.

Lemma update_row_count other self r m :
  rows self = inr r -> rows other = inr m -> _data other <> [] -> m <> r ->
  update other self = (inl (ValueError (other_rows_msg r m)), self).
Proof.
  intros Hr Hm Hne Hmr. unfold update, mbind, reads. rewrite Hr. simpl.
  unfold rows in Hm. destruct (_data other) as [|[c a] d]; [congruence|].
  simpl in *. unfold mbind, lift. rewrite Hm. simpl.
  rewrite decide_True by exact Hmr. reflexivity.
Qed.

Lemma validate_first self tafra e :
  AggMethod._validate self tafra = inl e ->
  GroupBy.apply self tafra = inl e /\ Transform.apply self tafra = inl e /\
  IterateBy.apply self tafra = ([], Some e).
Proof.
  intros H. unfold GroupBy.apply, GroupBy.run, Transform.apply, Transform.run,
              IterateBy.apply, IterateBy.run.
  rewrite H. simpl. auto.
Qed.

(** C5, as the code has it. The checks that come first leave the table
    alone when they fail: [update_types] with a tag that is not
    registered, [update] with another Tafra of a different row count, and
    the aggregations when a column is missing, which fail before any
    array is made. *)
Theorem C5_failed_validation_leaves_table :
  (forall dtypes self e,
     _validate_types dtypes = inl e ->
     update_types (Some dtypes) self = (inl e, self)) /\
  (forall other self r m,
     rows self = inr r -> rows other = inr m -> _data other <> [] -> m <> r ->
     update other self = (inl (ValueError (other_rows_msg r m)), self)) /\
  (forall self tafra e,
     AggMethod._validate self tafra = inl e ->
     GroupBy.apply self tafra = inl e /\ Transform.apply self tafra = inl e /\
     IterateBy.apply self tafra = ([], Some e)).
Proof.
  split; [exact update_types_invalid|].
  split; [exact update_row_count | exact validate_first].
Qed.

End validation.

Lemma C5_failed_validation_leaves_table_witness :
  (exists e, update_types (Some [("x", "flot")]) example_tafra = (inl e, example_tafra)) /\
  (exists e, update (example_part [1; 3]%Z [str_one; str_one] [0; 0]%Z) example_tafra
             = (inl e, example_tafra)) /\
  (exists e, GroupBy.apply group_by_w example_tafra = inl e).
Proof.
  destruct (@C5_failed_validation_leaves_table numpy) as (H1 & H2 & H3).
  split; [|split].
  - eexists. apply H1. vm_compute. reflexivity.
  - eexists. apply (H2 _ example_tafra 6 2); [reflexivity | reflexivity | discriminate | lia].
  - destruct (H3 group_by_w example_tafra (KeyError "w does not exist in tafra"))
      as [H _]; [vm_compute; reflexivity|].
    eexists. exact H.
Defined.

(** C5 as stated fails: an operation can raise after it has changed the
    table.  [update_types] with a column the table does not have raises
    [KeyError] and leaves the tag of that column behind; [update] stores
    the columns of the other table and then raises on a tag of the other
    table that is not registered. *)
Lemma C5_failed_validation_leaves_table_counterexample :
  (exists e t', update_types (Some [("q", "int")]) example_tafra = (inl e, t') /\
                dict_get "q" (_dtypes example_tafra) = None /\
                dict_get "q" (_dtypes t') = Some "int") /\
  (exists e t', __init__ [("c", timedelta_array [1; 2; 3; 4; 5; 6]%Z)] []
                = inr timedelta_tafra /\
                update timedelta_tafra example_tafra = (inl e, t') /\
                dict_get "c" (_data example_tafra) = None /\
                dict_get "c" (_data t') = Some (timedelta_array [1; 2; 3; 4; 5; 6]%Z)).
Proof.
  split.
  - eexists. eexists. split; [vm_compute; reflexivity|]. split; reflexivity.
  - eexists. eexists. split; [reflexivity|]. split; [vm_compute; reflexivity|].
    split; reflexivity.
Qed.

(** *** Union (modelled from the specification) *)

Lemma dict_get_of_key {V} c (d : list (string * V)) :
  c ∈ dict_keys d -> exists v, dict_get c d = Some v.
Proof.
  induction d as [|[k v] d IH]; simpl; intros H.
  - now apply elem_of_nil in H.
  - destruct (decide (c = k)); [eauto|].
    apply elem_of_cons in H as [|H]; [contradiction | auto].
Qed.

Lemma dict_get_key {V} c v (d : list (string * V)) :
  dict_get c d = Some v -> c ∈ dict_keys d.
Proof.
  intros H%dict_get_In. apply list_elem_of_In. unfold dict_keys.
  apply in_map_iff. exists (c, v). auto.
Qed.

Lemma one_dimensional_len t n c a :
  one_dimensional t -> row_consistent t -> rows t = inr n ->
  dict_get c (_data t) = Some a ->
  length (np.flat a) = n.
Proof.
  intros H1 (n' & Hr' & HF) Hr Hg. rewrite Hr in Hr'. invert Hr'.
  apply dict_get_values in Hg. unfold one_dimensional in H1.
  rewrite Forall_forall in H1, HF. apply list_elem_of_In in Hg.
  destruct (H1 _ Hg) as [l Hl]. specialize (HF _ Hg).
  unfold np.len, np.flat in *. rewrite Hl in *. now invert HF.
Qed.






Lemma example_one_dimensional : one_dimensional example_tafra.
Proof. repeat constructor; eexists; reflexivity. Qed.



(** *** Cross join (modelled from the specification) *)

Lemma length_flat_map_replicate {A} k (l : list A) :
  length (flat_map (replicate k) l) = length l * k.
Proof.
  induction l as [|x l IH]; simpl; auto.
  rewrite length_app, length_replicate, IH. lia.
Qed.

Lemma lookup_flat_map_replicate {A} k (l : list A) i j :
  j < k -> flat_map (replicate k) l !! (i * k + j) = l !! i.
Proof.
  intros Hj. revert i. induction l as [|x l IH]; intros i; simpl.
  - reflexivity.
  - destruct i as [|i]; simpl.
    + rewrite lookup_app_l by (rewrite length_replicate; lia).
      apply lookup_replicate_2. lia.
    + rewrite lookup_app_r by (rewrite length_replicate; lia).
      rewrite length_replicate. rewrite <- (IH i). f_equal. lia.
Qed.

Lemma length_concat_replicate {A} n (l : list A) :
  length (concat (replicate n l)) = n * length l.
Proof.
  induction n as [|n IH]; simpl; auto. rewrite length_app, IH. lia.
Qed.

Lemma lookup_concat_replicate {A} n (l : list A) i j :
  i < n -> j < length l -> concat (replicate n l) !! (i * length l + j) = l !! j.
Proof.
  revert i. induction n as [|n IH]; intros i Hi Hj; [lia|]. simpl.
  destruct i as [|i]; simpl.
  - now rewrite lookup_app_l.
  - rewrite lookup_app_r by lia. rewrite <- (IH i) by lia. f_equal. lia.
Qed.

Lemma dict_keys_set {V} c k (v : V) d :
  c ∈ dict_keys (dict_set k v d) <-> c = k \/ c ∈ dict_keys d.
Proof.
  induction d as [|[k' v'] d IH]; simpl.
  - rewrite elem_of_cons, elem_of_nil. tauto.
  - destruct (decide (k = k')) as [->|Hne]; simpl.
    + rewrite !elem_of_cons. tauto.
    + rewrite !elem_of_cons, IH. tauto.
Qed.

Lemma dict_keys_of_items {V} c (items : list (string * V)) :
  c ∈ dict_keys (dict_of_items items) <-> In c (map fst items).
Proof.
  unfold dict_of_items, dict_update.
  assert (G : forall acc : list (string * V),
             c ∈ dict_keys (fold_left (fun acc kv => dict_set (fst kv) (snd kv) acc) items acc)
             <-> In c (map fst items) \/ c ∈ dict_keys acc).
  { induction items as [|[k v] items IH]; simpl; intros acc; [tauto|].
    rewrite IH, dict_keys_set. intuition congruence. }
  rewrite G. simpl. rewrite elem_of_nil. tauto.
Qed.

Section cross.
Variables left right : Tafra.
Variables nl nr : nat.
Hypothesis left_1d : one_dimensional left.
Hypothesis right_1d : one_dimensional right.
Hypothesis left_rows : row_consistent left.
Hypothesis right_rows : row_consistent right.
Hypothesis Hnl : rows left = inr nl.
Hypothesis Hnr : rows right = inr nr.

Lemma cross_column_fst c it : cross_column left right nl nr c = inr it -> fst it = c.
Proof.
  unfold cross_column.
  destruct (dict_get c (_data left)), (dict_get c (_data right)); intros H; now invert H.
Qed.

Lemma cross_column_len c it :
  cross_column left right nl nr c = inr it -> np.len (snd it) = inr (nl * nr).
Proof.
  unfold cross_column.
  destruct (dict_get c (_data left)) as [a|] eqn:Ha.
  - intros H. invert H. unfold np.len. simpl. rewrite length_flat_map_replicate.
    now rewrite (one_dimensional_len left nl c a).
  - destruct (dict_get c (_data right)) as [b|] eqn:Hb; intros H; invert H.
    unfold np.len. simpl. rewrite length_concat_replicate.
    now rewrite (one_dimensional_len right nr c b).
Qed.

Lemma cross_items names items :
  mapM (cross_column left right nl nr) names = inr items ->
  map fst items = names /\
  Forall (fun a => np.len a = inr (nl * nr)) (map snd items) /\
  (forall k v, In (k, v) items -> cross_column left right nl nr k = inr (k, v)).
Proof.
  intros H%mapM_Forall2. induction H as [|c it names items Hc _ IH]; simpl.
  - repeat split; auto. intros k v [].
  - destruct IH as (IH1 & IH2 & IH3). repeat split.
    + f_equal; auto. eapply cross_column_fst; eauto.
    + constructor; auto. eapply cross_column_len; eauto.
    + intros k v [Heq|Hin]; auto. subst it.
      pose proof (cross_column_fst _ _ Hc) as Hk. simpl in Hk. now subst c.
Qed.

Lemma cross_items_total names :
  (forall c, In c names -> c ∈ columns left \/ c ∈ columns right) ->
  exists items, mapM (cross_column left right nl nr) names = inr items.
Proof.
  induction names as [|c names IH]; simpl; intros H; [eauto|].
  destruct IH as [items Hitems]; [auto|]. rewrite Hitems.
  unfold cross_column.
  destruct (dict_get c (_data left)) as [a|] eqn:Ha; simpl; [eauto|].
  destruct (dict_get c (_data right)) as [b|] eqn:Hb; simpl; [eauto|].
  exfalso. destruct (H c (or_introl eq_refl)) as [Hc|Hc];
    apply dict_get_of_key in Hc as [v Hv]; congruence.
Qed.

Lemma cross_items_missing names c :
  In c names -> c ∉ columns left -> c ∉ columns right ->
  exists msg, mapM (cross_column left right nl nr) names = inl (IndexError msg).
Proof.
  intros Hin Hl Hr. induction names as [|c' names IH]; simpl; [destruct Hin|].
  unfold cross_column at 1.
  destruct (dict_get c' (_data left)) as [a|] eqn:Ha; simpl.
  - destruct Hin as [->|Hin]; [apply dict_get_key in Ha; contradiction|].
    destruct (IH Hin) as [msg ->]. simpl. eauto.
  - destruct (dict_get c' (_data right)) as [b|] eqn:Hb; simpl; [|eauto].
    destruct Hin as [->|Hin]; [apply dict_get_key in Hb; contradiction|].
    destruct (IH Hin) as [msg ->]. simpl. eauto.
Qed.

Lemma cross_select_names names :
  cross_select_ok left right names = true -> names <> [].
Proof. now destruct names. Qed.

(** C9, on the cross join modelled from the specification. For two
    tables of one-dimensional columns with [nl] and [nr] rows: the cross
    join of all columns always returns a table, and so does a selection
    that names a column of each side and only columns of the two;
    a requested column that neither side has raises [IndexError].  The
    table returned has exactly [nl * nr] rows, its columns are the
    requested ones (or all), and its row [i * nr + j] holds row [i] of a
    left column and row [j] of a right column. *)
Theorem C9_cross_join (sel : option (list string)) :
  ((forall names, sel = Some names ->
      cross_select_ok left right names = true /\
      forall c, In c names -> c ∈ columns left \/ c ∈ columns right) ->
   exists t, cross_join right sel left = inr t) /\
  (forall c, In c (cross_names left right sel) ->
             c ∉ columns left -> c ∉ columns right ->
             exists msg, cross_join right sel left = inl (IndexError msg)) /\
  (forall t, cross_join right sel left = inr t ->
     rows t = inr (nl * nr) /\
     all_len (nl * nr) (_data t) /\
     (forall c, c ∈ columns t <-> In c (cross_names left right sel)) /\
     (forall c a a', getitem_str c left = inr a -> getitem_str c t = inr a' ->
        forall i j, i < nl -> j < nr ->
                    np.flat a' !! (i * nr + j) = np.flat a !! i) /\
     (forall c b a', dict_get c (_data left) = None ->
        getitem_str c right = inr b -> getitem_str c t = inr a' ->
        forall i j, i < nl -> j < nr ->
                    np.flat a' !! (i * nr + j) = np.flat b !! j)).
Proof.
  unfold cross_join. rewrite Hnl, Hnr. cbn [bind]. split; [|split].
  - intros H.
    assert (Hin : forall c, In c (cross_names left right sel) ->
                            c ∈ columns left \/ c ∈ columns right).
    { destruct sel as [names|]; simpl.
      - now destruct (H names eq_refl).
      - intros c [Hc|Hc]%in_app_or; [left | right]; now apply list_elem_of_In. }
    assert (Hok : match sel with
                  | Some names =>
                      if cross_select_ok left right names then ret ()
                      else raise (IndexError
                                    "the selection names no column of one of the tables")
                  | None => ret ()
                  end = inr ()).
    { destruct sel as [names|]; [|reflexivity].
      destruct (H names eq_refl) as [-> _]. reflexivity. }
    rewrite Hok. cbn [bind].
    destruct (cross_items_total _ Hin) as [items ->]. simpl. eauto.
  - intros c Hc Hl Hr.
    destruct sel as [names|]; [destruct (cross_select_ok left right names)|];
      simpl; eauto;
      destruct (cross_items_missing _ c Hc Hl Hr) as [msg Hmsg];
      simpl in Hmsg; rewrite Hmsg; simpl; eauto.
  - intros t H. bind_inv H as u Hu. bind_inv H as items Hitems. invert H. simpl.
    destruct (cross_items _ _ Hitems) as (Hfst & Hlen & Hfun).
    assert (Hall : all_len (nl * nr) (dict_of_items items))
      by now apply dict_of_items_Forall.
    assert (Hrows : cross_names left right sel <> [] ->
                    rows {| _data := dict_of_items items;
                            _dtypes := map (fun '(c, a) => (c, _format_type (dtype a)))
                                           (dict_of_items items) |} = inr (nl * nr)).
    { intros Hne. unfold rows. simpl.
      assert (Hi : items <> []) by (intros ->; simpl in Hfst; congruence).
      apply dict_of_items_nil in Hi.
      destruct (dict_of_items items) as [|[k a] d]; [congruence|].
      simpl. now invert Hall. }
    assert (Hget : forall c a', dict_get c (dict_of_items items) = Some a' ->
                                cross_column left right nl nr c = inr (c, a')).
    { intros c a' Hg. pose proof (dict_get_key _ _ _ Hg) as Hk.
      apply dict_keys_of_items, in_map_iff in Hk as ([k v] & Hkc & Hin).
      simpl in Hkc. subst k.
      rewrite (dict_of_items_get items c v Hin) in Hg; [invert Hg; auto|].
      intros v' Hv'. apply Hfun in Hin, Hv'. congruence. }
    repeat split.
    + destruct sel as [names|].
      * apply Hrows. simpl. apply cross_select_names.
        destruct (cross_select_ok left right names); [reflexivity | discriminate Hu].
      * destruct (cross_names left right None) eqn:Hn; [|apply Hrows; congruence].
        simpl in Hn. apply app_eq_nil in Hn as [Hl Hr].
        unfold columns, dict_keys in Hl, Hr. apply map_eq_nil in Hl, Hr.
        unfold rows in Hnl, Hnr. rewrite Hl in Hnl. rewrite Hr in Hnr.
        simpl in *. invert Hnl. invert Hnr.
        assert (items = []) by (destruct items; [auto | discriminate]). now subst.
    + exact Hall.
    + unfold columns. simpl. rewrite dict_keys_of_items. now rewrite Hfst.
    + unfold columns. simpl. rewrite dict_keys_of_items. now rewrite Hfst.
    + intros c a a' Ha Ha' i j Hi Hj. unfold getitem_str in *. simpl in Ha'.
      destruct (dict_get c (dict_of_items items)) eqn:Hg; invert Ha'.
      apply Hget in Hg. unfold cross_column in Hg.
      destruct (dict_get c (_data left)); invert Ha. invert Hg. simpl.
      now apply lookup_flat_map_replicate.
    + intros c b a' Hl Hb Ha' i j Hi Hj. unfold getitem_str in *. simpl in Ha'.
      destruct (dict_get c (dict_of_items items)) eqn:Hg; invert Ha'.
      apply Hget in Hg. unfold cross_column in Hg. rewrite Hl in Hg.
      destruct (dict_get c (_data right)) eqn:Hr; invert Hb. invert Hg. simpl.
      rewrite <- (one_dimensional_len right nr c b) at 1 by auto.
      apply lookup_concat_replicate; auto.
      now rewrite (one_dimensional_len right nr c b).
Qed.

End cross.

Lemma C9_cross_join_witness :
  exists t, cross_join example_right (Some ["x"; "a"]) example_tafra = inr t /\
            rows t = inr (6 * 2) /\
            (forall a', getitem_str "x" t = inr a' ->
               forall i j, i < 6 -> j < 2 ->
                 np.flat a' !! (i * 2 + j)
                 = np.flat (int64_array [1; 2; 3; 4; 5; 6]%Z) !! i).
Proof.
  assert (H1 : one_dimensional example_right)
    by (repeat constructor; eexists; reflexivity).
  assert (H2 : row_consistent example_right)
    by (exists 2; split; [reflexivity | repeat constructor]).
  destruct (C9_cross_join example_tafra example_right 6 2
              example_one_dimensional H1 example_row_consistent H2 eq_refl eq_refl
              (Some ["x"; "a"]))
    as (Hex & _ & Hall).
  destruct Hex as [t Ht].
  { intros names [= <-]. split; [reflexivity|].
    intros c Hc. simpl in Hc.
    destruct Hc as [<-|[<-|[]]]; [left | right];
      apply list_elem_of_In; simpl; auto. }
  exists t. split; [exact Ht|].
  destruct (Hall t Ht) as (Hrows & _ & _ & Hleft & _).
  split; [exact Hrows|].
  intros a' Ha'. apply (Hleft "x" _ a'); [reflexivity | exact Ha'].
Defined.

(** *** Copies and aliases *)

Lemma extends_refl h : Store.extends h h.
Proof. split; auto. Qed.

Lemma extends_trans h1 h2 h3 :
  Store.extends h1 h2 -> Store.extends h2 h3 -> Store.extends h1 h3.
Proof.
  intros [H1 H2] [H3 H4]. split; [lia|].
  intros l Hl. rewrite H4 by lia. auto.
Qed.

Lemma alloc_extends a h l h' :
  Store.alloc a h = (l, h') ->
  l = Store.next h /\ Store.next h' = S (Store.next h) /\ Store.cell h' l = a /\
  Store.extends h h'.
Proof.
  unfold Store.alloc. intros H. invert H. simpl.
  split; [reflexivity|]. split; [reflexivity|]. split; [now rewrite decide_True|].
  split; simpl; [lia|]. intros l Hl. rewrite decide_False; [reflexivity | lia].
Qed.

Lemma copy_columns_fresh items h items' h1 :
  Store.copy_columns items h = (items', h1) ->
  Store.extends h h1 /\
  Forall (fun l => Store.next h <= l < Store.next h1) (dict_values items').
Proof.
  revert h items' h1. induction items as [|[c l] items IH]; simpl; intros h items' h1 H.
  - invert H. split; [apply extends_refl | constructor].
  - destruct (alloc_extends (np.copy (Store.cell h l)) h _ _ eq_refl)
      as (_ & Hn & _ & He).
    destruct (Store.copy_columns items _) as [rest h3] eqn:Hc. invert H.
    destruct (IH _ _ _ Hc) as [He' HF]. split; [eapply extends_trans; eauto|].
    simpl. constructor.
    + destruct He' as [Hle _]. simpl in *. lia.
    + eapply Forall_impl; [exact HF|]. intros l0. simpl. lia.
Qed.

Section store.
Context {N : NumPy}.

Lemma update_types_loop_fresh n cols :
  forall self h self' h',
    Store.fresh_from n h self ->
    Store.update_types_loop cols self h = inr (self', h') ->
    Store.extends h h' /\ Store.fresh_from n h' self'.
Proof.
  induction cols as [|c cols IH]; simpl; intros self h self' h' Hf H.
  - invert H. split; [apply extends_refl | exact Hf].
  - destruct (dict_get c (Store._data self)) as [l|] eqn:Hl; [|discriminate].
    destruct (dict_get c (Store._dtypes self)) as [tag|]; [|discriminate].
    destruct (decide (_format_type (dtype (Store.cell h l)) <> tag)); [|eauto].
    bind_inv H as a' Ha'.
    destruct (alloc_extends a' h _ _ eq_refl) as (_ & Hn & _ & He).
    simpl in H. apply IH in H as [He' Hf'].
    + split; [eapply extends_trans; eauto | exact Hf'].
    + unfold Store.fresh_from in *. simpl.
      apply dict_values_set_Forall.
      * apply Forall_forall with (x := l) in Hf; [lia|].
        apply list_elem_of_In. eapply dict_get_values; eauto.
      * eapply Forall_impl; [exact Hf|]. intros l0. simpl. lia.
Qed.

Lemma coalesce_loop_data cols :
  forall self h self',
    Store.coalesce_loop cols self h = inr self' -> Store._data self' = Store._data self.
Proof.
  induction cols as [|c cols IH]; simpl; intros self h self' H.
  - now invert H.
  - destruct (dict_mem c (Store._dtypes self)); [eauto|].
    destruct (dict_get c (Store._data self)); [|discriminate].
    apply IH in H. exact H.
Qed.

Lemma init_fresh n data dtypes h self' h' :
  Forall (fun l => n <= l < Store.next h) (dict_values data) ->
  Store.__init__ data dtypes h = inr (self', h') ->
  Store.extends h h' /\ Store.fresh_from n h' self'.
Proof.
  intros Hf H. unfold Store.__init__, Store.__post_init__ in H. simpl in H.
  bind_inv H as r Hr. bind_inv H as sh Hsh. destruct sh as [self1 h1].
  bind_inv H as self2 Hself2. invert H.
  apply coalesce_loop_data in Hself2. unfold Store.fresh_from. rewrite Hself2.
  destruct dtypes as [|d dtypes].
  - invert Hsh. split; [apply extends_refl | exact Hf].
  - unfold Store.update_types in Hsh.
    eapply update_types_loop_fresh in Hsh; eauto.
Qed.

Lemma copy_fresh self h self' h' :
  Store.copy self h = inr (self', h') ->
  Store.extends h h' /\ Store.fresh_from (Store.next h) h' self'.
Proof.
  unfold Store.copy. destruct (Store.copy_columns _ h) as [data h1] eqn:Hc.
  apply copy_columns_fresh in Hc as [He HF]. intros H.
  apply (init_fresh (Store.next h)) in H as [He' Hf']; auto.
  split; [eapply extends_trans; eauto | exact Hf'].
Qed.

Lemma column_extends h h' self name :
  Store.valid h self -> Store.extends h h' ->
  Store.column h' self name = Store.column h self name.
Proof.
  intros Hv [_ He]. unfold Store.column.
  destruct (dict_get name (Store._data self)) as [l|] eqn:Hl; simpl; auto.
  f_equal. apply He. unfold Store.valid in Hv. rewrite Forall_forall in Hv.
  apply Hv, list_elem_of_In. eapply dict_get_values; eauto.
Qed.

Lemma column_write_other h self name l a :
  (forall l0, In l0 (dict_values (Store._data self)) -> l0 <> l) ->
  Store.column (Store.write l a h) self name = Store.column h self name.
Proof.
  intros Hne. unfold Store.column.
  destruct (dict_get name (Store._data self)) as [l0|] eqn:Hl; simpl; auto.
  rewrite decide_False; auto. apply Hne. eapply dict_get_values; eauto.
Qed.

(** C7. After [t.copy()], an in-place change of any array of the copy
    leaves every column of [t] as it was: the arrays of the copy are new
    objects.  The array that [t[name]] returns is the column's own array:
    what is written through it is what the column of [t] then holds. *)
Theorem C7_copy_independent_getitem_aliases (h : Store.heap) (self : Store.t) :
  Store.valid h self ->
  (forall other h',
     Store.copy self h = inr (other, h') ->
     forall name' l' a,
       dict_get name' (Store._data other) = Some l' ->
       forall name, Store.column (Store.write l' a h') self name
                    = Store.column h self name) /\
  (forall name l a,
     Store.getitem_str name self = inr l ->
     dict_get name (Store._data self) = Some l /\
     Store.column (Store.write l a h) self name = Some a) /\
  (forall name l i v h',
     Store.getitem_str name self = inr l ->
     Store.setitem l i v h = inr h' ->
     exists a', setitem_int (Store.cell h l) i v = inr a' /\
                Store.column h' self name = Some a').
Proof.
  intros Hv. split; [|split].
  - intros other h' Hcopy name' l' a Hl' name.
    destruct (copy_fresh _ _ _ _ Hcopy) as [He Hf].
    rewrite column_write_other; [now apply column_extends|].
    intros l0 Hl0 ->. unfold Store.valid in Hv. unfold Store.fresh_from in Hf.
    rewrite Forall_forall in Hv, Hf.
    apply list_elem_of_In, Hv in Hl0. apply dict_get_values, list_elem_of_In, Hf in Hl'.
    lia.
  - intros name l a Hg. unfold Store.getitem_str in Hg.
    destruct (dict_get name (Store._data self)) as [l0|] eqn:Hl; invert Hg.
    split; auto. unfold Store.column. rewrite Hl. simpl. now rewrite decide_True.
  - intros name l i v h' Hg Hs. unfold Store.setitem in Hs.
    bind_inv Hs as a' Ha'. invert Hs. exists a'. split; auto.
    unfold Store.getitem_str in Hg.
    destruct (dict_get name (Store._data self)) as [l0|] eqn:Hl; invert Hg.
    unfold Store.column. rewrite Hl. simpl. now rewrite decide_True.
Qed.

End store.

Lemma C7_copy_independent_getitem_aliases_witness :
  (exists other h',
     Store.copy Store.example Store.example_heap = inr (other, h') /\
     Store.getitem_str "x" other = inr 3 /\
     forall name, Store.column (Store.write 3 (int64_array [9; 9; 9; 9; 9; 9]%Z) h')
                               Store.example name
                  = Store.column Store.example_heap Store.example name) /\
  Store.column (Store.write 0 (int64_array [9; 9; 9; 9; 9; 9]%Z) Store.example_heap)
               Store.example "x"
  = Some (int64_array [9; 9; 9; 9; 9; 9]%Z).
Proof.
  assert (Hv : Store.valid Store.example_heap Store.example).
  { unfold Store.valid. simpl. repeat constructor. }
  destruct (@C7_copy_independent_getitem_aliases numpy _ _ Hv) as (H1 & H2 & _).
  split.
  - destruct (Store.copy Store.example Store.example_heap) as [e|[other h']] eqn:Hc;
      [vm_compute in Hc; discriminate|].
    exists other, h'. split; [reflexivity|].
    assert (Hx : Store.getitem_str "x" other = inr 3).
    { vm_compute in Hc. invert Hc. reflexivity. }
    split; [exact Hx|].
    intros name. apply (H1 other h' eq_refl "x").
    unfold Store.getitem_str in Hx.
    destruct (dict_get "x" (Store._data other)); now invert Hx.
  - apply (H2 "x" 0). reflexivity.
Defined.

(** *** The store refines the tables of values

    Building and copying a table of array objects computes, on the
    contents, what the constructor and [copy] of the earlier sections
    compute. *)

Lemma snapshot_get h self c :
  dict_get c (_data (Store.snapshot h self)) = Store.cell h <$> dict_get c (Store._data self).
Proof.
  unfold Store.snapshot. simpl.
  induction (Store._data self) as [|[k l] d IH]; simpl; auto.
  destruct (decide (c = k)); auto.
Qed.

Lemma snapshot_keys h self :
  dict_keys (_data (Store.snapshot h self)) = dict_keys (Store._data self).
Proof.
  unfold Store.snapshot. simpl.
  induction (Store._data self) as [|[k l] d IH]; simpl; auto. now rewrite IH.
Qed.

Lemma snapshot_extends h h' self :
  Store.valid h self -> Store.extends h h' ->
  Store.snapshot h' self = Store.snapshot h self.
Proof.
  intros Hv [_ He]. unfold Store.snapshot. f_equal.
  unfold Store.valid in Hv. induction (Store._data self) as [|[k l] d IH]; simpl; auto.
  simpl in Hv. invert Hv. rewrite He by auto. f_equal. auto.
Qed.

Lemma snapshot_set h self c l :
  Store.snapshot h {| Store._data := dict_set c l (Store._data self);
                      Store._dtypes := Store._dtypes self |}
  = {| _data := dict_set c (Store.cell h l) (_data (Store.snapshot h self));
       _dtypes := _dtypes (Store.snapshot h self) |}.
Proof.
  unfold Store.snapshot. simpl. f_equal.
  induction (Store._data self) as [|[k l0] d IH]; simpl; auto.
  destruct (decide (c = k)); simpl; auto. now rewrite IH.
Qed.

Lemma valid_extends h h' self :
  Store.valid h self -> Store.extends h h' -> Store.valid h' self.
Proof.
  intros Hv [Hle _]. unfold Store.valid in *.
  eapply Forall_impl; [exact Hv|]. intros l. simpl. lia.
Qed.

Section refinement.
Context {N : NumPy}.

#[local] Arguments Store.snapshot : simpl never.

Lemma for_each_cons {A} (x : A) l (body : A -> method unit) s :
  for_each (x :: l) body s
  = match body x s with
    | (inl e, s') => (inl e, s')
    | (inr _, s') => for_each l body s'
    end.
Proof. reflexivity. Qed.

Lemma update_type_run column s :
  update_type column s
  = match dict_get column (_data s) with
    | None => (inl (KeyError column), s)
    | Some a =>
        match dict_get column (_dtypes s) with
        | None => (inl (KeyError column), s)
        | Some t =>
            if decide (_format_type (dtype a) <> t) then
              match _apply_type t a with
              | inl e => (inl e, s)
              | inr a' => (inr tt, {| _data := dict_set column a' (_data s);
                                      _dtypes := _dtypes s |})
              end
            else (inr tt, s)
        end
    end.
Proof.
  unfold update_type, mbind, data_at, dtypes_at, reads, lift, set_data, modify, skip, mret.
  destruct (dict_get column (_data s)); simpl; auto.
  destruct (dict_get column (_dtypes s)); simpl; auto.
  destruct (decide _); auto; try (destruct (_apply_type _ _); auto).
Qed.

Lemma coalesce_type_run column s :
  coalesce_type column s
  = if dict_mem column (_dtypes s) then (inr tt, s)
    else match dict_get column (_data s) with
         | None => (inl (KeyError column), s)
         | Some a => (inr tt, {| _data := _data s;
                                 _dtypes := dict_set column (_format_type (dtype a))
                                                     (_dtypes s) |})
         end.
Proof.
  unfold coalesce_type, mbind, gets, data_at, reads, set_dtype, modify, skip, mret. simpl.
  destruct (dict_mem column (_dtypes s)); auto;
    try (destruct (dict_get column (_data s)); auto).
Qed.

Lemma update_types_loop_refines cols :
  forall self h,
    Store.valid h self ->
    match Store.update_types_loop cols self h with
    | inr (self', h') =>
        for_each cols update_type (Store.snapshot h self) = (inr tt, Store.snapshot h' self')
        /\ Store.valid h' self'
    | inl e => fst (for_each cols update_type (Store.snapshot h self)) = inl e
    end.
Proof.
  induction cols as [|c cols IH]; intros self h Hv.
  - simpl. split; auto.
  - rewrite for_each_cons, update_type_run, snapshot_get.
    cbn [Store.update_types_loop].
    destruct (dict_get c (Store._data self)) as [l|] eqn:Hl; simpl; [|reflexivity].
    change (_dtypes (Store.snapshot h self)) with (Store._dtypes self).
    destruct (dict_get c (Store._dtypes self)) as [tag|] eqn:Ht; simpl; [|reflexivity].
    destruct (decide (_format_type (dtype (Store.cell h l)) <> tag)) as [Hne|Heq];
      [|apply (IH self h Hv)].
    destruct (_apply_type tag (Store.cell h l)) as [e|a'] eqn:Ha; simpl; [reflexivity|].
    destruct (alloc_extends a' h _ _ eq_refl) as (_ & Hn & Hcell & He).
    set (h1 := {| Store.next := S (Store.next h); Store.cell := _ |}) in *.
    set (self1 := {| Store._data := dict_set c (Store.next h) (Store._data self);
                     Store._dtypes := Store._dtypes self |}).
    assert (Hv1 : Store.valid h1 self1).
    { unfold Store.valid. simpl. apply dict_values_set_Forall; [lia|].
      eapply Forall_impl; [exact Hv|]. intros l0. simpl. lia. }
    assert (Hsnap : Store.snapshot h1 self1
                    = {| _data := dict_set c a'
                                    (map (fun '(column, l0) => (column, Store.cell h l0))
                                         (Store._data self));
                         _dtypes := Store._dtypes self |}).
    { unfold self1. rewrite snapshot_set, Hcell.
      now rewrite (snapshot_extends h h1 self Hv He). }
    rewrite <- Hsnap. apply (IH self1 h1 Hv1).
Qed.

Lemma coalesce_loop_refines cols :
  forall self h,
    match Store.coalesce_loop cols self h with
    | inr self' =>
        for_each cols coalesce_type (Store.snapshot h self) = (inr tt, Store.snapshot h self')
    | inl e => fst (for_each cols coalesce_type (Store.snapshot h self)) = inl e
    end.
Proof.
  induction cols as [|c cols IH]; intros self h; [reflexivity|].
  rewrite for_each_cons, coalesce_type_run, snapshot_get.
  cbn [Store.coalesce_loop].
  change (_dtypes (Store.snapshot h self)) with (Store._dtypes self).
  destruct (dict_mem c (Store._dtypes self)) eqn:Hm; [apply IH|].
  destruct (dict_get c (Store._data self)) as [l|] eqn:Hl; simpl; [|reflexivity].
  apply (IH {| Store._data := Store._data self;
               Store._dtypes := dict_set c (_format_type (dtype (Store.cell h l)))
                                         (Store._dtypes self) |} h).
Qed.

Lemma init_run d dt :
  __init__ d dt
  = match foldM check_rows d None with
    | inl e => inl e
    | inr _ =>
        match dt with
        | [] =>
            match for_each (dict_keys d) coalesce_type {| _data := d; _dtypes := [] |} with
            | (inl e, _) => inl e
            | (inr _, s) => inr s
            end
        | _ =>
            match for_each (dict_keys dt) update_type {| _data := d; _dtypes := dt |} with
            | (inl e, _) => inl e
            | (inr _, s1) =>
                match for_each (dict_keys (_data s1)) coalesce_type s1 with
                | (inl e, _) => inl e
                | (inr _, s) => inr s
                end
            end
        end
    end.
Proof.
  unfold __init__, __post_init__, update_types, coalesce_types,
    mbind, gets, lift, modify, skip, mret, ret.
  cbn [_data _dtypes].
  destruct (foldM check_rows d None) as [e|r]; [reflexivity|].
  destruct dt as [|t dt]; cbn [_data _dtypes].
  - destruct (for_each _ _ _) as [[e|[]] s]; reflexivity.
  - destruct (for_each _ update_type _) as [[e|[]] s1]; [reflexivity|].
    destruct (for_each _ coalesce_type _) as [[e|[]] s]; reflexivity.
Qed.

(** The constructor on array objects computes the constructor on their
    contents: on the snapshot whose arrays are those of the store. *)
Lemma init_refines data dtypes h :
  Forall (fun l => l < Store.next h) (dict_values data) ->
  match Store.__init__ data dtypes h with
  | inr (self', h') =>
      __init__ (_data (Store.snapshot h {| Store._data := data; Store._dtypes := dtypes |}))
               dtypes
      = inr (Store.snapshot h' self')
  | inl e =>
      __init__ (_data (Store.snapshot h {| Store._data := data; Store._dtypes := dtypes |}))
               dtypes
      = inl e
  end.
Proof.
  intros Hv. rewrite init_run.
  unfold Store.__init__, Store.__post_init__.
  change (_data (Store.snapshot h {| Store._data := data; Store._dtypes := dtypes |}))
    with (map (fun '(column, l) => (column, Store.cell h l)) data).
  cbn [Store._data Store._dtypes].
  assert (HK : dict_keys (map (fun '(column, l) => (column, Store.cell h l)) data)
               = dict_keys data)
    by exact (snapshot_keys h {| Store._data := data; Store._dtypes := [] |}).
  destruct (foldM check_rows _ None) as [e|r]; [reflexivity|]. cbn [bind].
  destruct dtypes as [|d dtypes]; cbn [bind ret].
  - unfold Store.coalesce_types. cbn [Store._data]. rewrite HK.
    pose proof (coalesce_loop_refines (dict_keys data)
                  {| Store._data := data; Store._dtypes := [] |} h) as HC.
    change (Store.snapshot h {| Store._data := data; Store._dtypes := [] |})
      with {| _data := map (fun '(column, l) => (column, Store.cell h l)) data;
              _dtypes := [] |} in HC.
    destruct (Store.coalesce_loop _ _ h) as [e|self']; cbn [bind ret].
    + destruct (for_each _ coalesce_type _) as [[e'|u] s]; simpl in HC; congruence.
    + rewrite HC. reflexivity.
  - unfold Store.update_types. cbn [Store._dtypes].
    pose proof (update_types_loop_refines (dict_keys (d :: dtypes))
                  {| Store._data := data; Store._dtypes := d :: dtypes |} h Hv) as HU.
    change (Store.snapshot h {| Store._data := data; Store._dtypes := d :: dtypes |})
      with {| _data := map (fun '(column, l) => (column, Store.cell h l)) data;
              _dtypes := d :: dtypes |} in HU.
    destruct (Store.update_types_loop _ _ h) as [e|[self1 h1]]; cbn [bind ret].
    + destruct (for_each _ update_type _) as [[e'|u] s]; simpl in HU; congruence.
    + destruct HU as [HU Hv1]. rewrite HU.
      unfold Store.coalesce_types. rewrite snapshot_keys.
      pose proof (coalesce_loop_refines (dict_keys (Store._data self1)) self1 h1) as HC.
      destruct (Store.coalesce_loop _ self1 h1) as [e|self']; cbn [bind ret].
      * destruct (for_each _ coalesce_type _) as [[e'|u] s]; simpl in HC; congruence.
      * rewrite HC. reflexivity.
Qed.

Lemma copy_columns_contents items h items' h1 :
  Forall (fun l => l < Store.next h) (dict_values items) ->
  Store.copy_columns items h = (items', h1) ->
  map (fun '(column, l) => (column, Store.cell h1 l)) items'
  = map (fun '(column, value) => (column, np.copy value))
        (map (fun '(column, l) => (column, Store.cell h l)) items).
Proof.
  revert h items' h1. induction items as [|[c l] items IH]; intros h items' h1 Hv H.
  - simpl in H. now invert H.
  - cbn [Store.copy_columns] in H.
    destruct (Store.alloc (np.copy (Store.cell h l)) h) as [l' h2] eqn:Ha.
    destruct (alloc_extends _ _ _ _ Ha) as (Hl' & Hn & Hcell & He).
    destruct (Store.copy_columns items h2) as [rest h3] eqn:Hc. invert H.
    unfold dict_values in Hv. cbn [map snd] in Hv.
    apply Forall_cons in Hv. destruct Hv as [Hl Hv].
    destruct (copy_columns_fresh _ _ _ _ Hc) as [[Hle He3] _].
    assert (Hv2 : Forall (fun l0 => l0 < Store.next h2) (dict_values items)).
    { eapply Forall_impl; [exact Hv|]. intros l0 Hl0. simpl in Hl0. lia. }
    cbn [map]. f_equal.
    + f_equal. rewrite He3 by lia. exact Hcell.
    + rewrite (IH _ _ _ Hv2 Hc). f_equal. destruct He as [_ He]. clear -He Hv.
      induction items as [|[k l0] items IH]; simpl; auto.
      unfold dict_values in Hv. cbn [map snd] in Hv.
      apply Forall_cons in Hv. destruct Hv as [Hl0 Hv].
      rewrite He by exact Hl0. f_equal. auto.
Qed.

(** [copy] on array objects computes [copy] on the contents. *)
Lemma copy_refines self h :
  Store.valid h self ->
  match Store.copy self h with
  | inr (other, h') => copy (Store.snapshot h self) = inr (Store.snapshot h' other)
  | inl e => copy (Store.snapshot h self) = inl e
  end.
Proof.
  intros Hv. unfold Store.copy, copy.
  destruct (Store.copy_columns (Store._data self) h) as [data h1] eqn:Hc.
  pose proof (copy_columns_contents _ _ _ _ Hv Hc) as Hcont.
  destruct (copy_columns_fresh _ _ _ _ Hc) as [_ HF].
  pose proof (init_refines data (Store._dtypes self) h1
                ltac:(eapply Forall_impl; [exact HF|]; intros l; simpl; lia)) as HI.
  change (_data (Store.snapshot h1 {| Store._data := data;
                                      Store._dtypes := Store._dtypes self |}))
    with (map (fun '(column, l) => (column, Store.cell h1 l)) data) in HI.
  rewrite Hcont in HI. exact HI.
Qed.

End refinement.

(** ** Type tags *)

(** Distinctness of a list of string literals. *)
Ltac nodup_strings :=
  repeat (apply NoDup_cons; split;
          [let H := fresh in
           intros H; repeat (apply elem_of_cons in H as [H|H]; [discriminate H|]);
           now apply elem_of_nil in H|]);
  apply NoDup_nil_2.


(** *** [_format_type] *)

Lemma format_type_cases t :
  _format_type t ∈ ["int"; "float"; "bool"; "str"; "date"; "object"] \/
  (_format_type t = t /\
   contains "int" t = false /\ contains "float" t = false /\
   contains "bool" t = false /\ contains "str" t = false /\
   contains "<U" t = false /\ contains "date" t = false /\
   contains "<M" t = false /\ contains "object" t = false /\
   contains "O" t = false).
Proof.
  unfold _format_type.
  repeat match goal with
         | |- context [if contains ?p t then _ else _] =>
             destruct (contains p t) eqn:?; [left; set_solver|]
         end.
  right. repeat split; assumption.
Qed.

Lemma registered_tag {N : NumPy} t :
  dict_mem t TAFRA_TYPE = true <->
  t ∈ ["int"; "float"; "bool"; "str"; "date"; "object"].
Proof.
  unfold dict_mem, TAFRA_TYPE. rewrite bool_decide_eq_true. simpl.
  repeat (destruct (decide _) as [->|?];
          [split; [set_solver | intros _; eauto]|]).
  split; [intros [? [=]]|].
  intros H. repeat (apply elem_of_cons in H as [->|H]; [congruence|]).
  now apply elem_of_nil in H.
Qed.

Ltac each_tag H :=
  repeat (apply elem_of_cons in H as [H|H]; [try rewrite H; try subst|]);
  [.. | now apply elem_of_nil in H].

(** X1. [_format_type] is a normal form: formatting twice is formatting
    once, each of the six registered tags formats to itself, and a
    string that does not format to a registered tag comes back as it
    is. *)
Theorem format_type_canonical {N : NumPy} (t : string) :
  _format_type (_format_type t) = _format_type t /\
  (dict_mem t TAFRA_TYPE = true -> _format_type t = t) /\
  (dict_mem (_format_type t) TAFRA_TYPE = false -> _format_type t = t).
Proof.
  split; [|split].
  - destruct (format_type_cases t) as [H|[H _]]; [|now rewrite H].
    each_tag H; reflexivity.
  - intros H%registered_tag. each_tag H; reflexivity.
  - intros H. destruct (format_type_cases t) as [Hin|[Heq _]]; [|exact Heq].
    apply registered_tag in Hin. congruence.
Qed.


Lemma format_type_canonical_witness :
  _format_type (_format_type "datetime64[ns]") = _format_type "datetime64[ns]" /\
  _format_type "float" = "float" /\
  _format_type "complex128" = "complex128".
Proof.
  destruct (@format_type_canonical numpy "datetime64[ns]") as [H1 _].
  destruct (@format_type_canonical numpy "float") as (_ & H2 & _).
  destruct (@format_type_canonical numpy "complex128") as (_ & _ & H3).
  split; [exact H1|]. split; [apply H2; reflexivity | apply H3; reflexivity].
Defined.

(** *** [_validate_types] *)

Lemma append_assoc (s t u : string) : (s +:+ t) +:+ u = s +:+ (t +:+ u).
Proof.
  induction s as [|c s IH]; [reflexivity|].
  change (String c ((s +:+ t) +:+ u) = String c (s +:+ t +:+ u)). now rewrite IH.
Qed.

Lemma append_nil_r (s : string) : s +:+ "" = s.
Proof.
  induction s as [|c s IH]; [reflexivity|].
  change (String c (s +:+ "") = String c s). now rewrite IH.
Qed.

Lemma validate_types_fold {N : NumPy} dtypes msg d :
  fold_left
    (fun '(msg, _dtypes) '(column, _dtype) =>
       let t := _format_type _dtype in
       let _dtypes := dict_set column t _dtypes in
       if dict_mem t TAFRA_TYPE then (msg, _dtypes)
       else (msg +:+ "`" +:+ t +:+ "` is not a valid dtype for `" +:+ column +:+ ".`" +:+ nl,
             _dtypes))
    dtypes (msg, d)
  = (msg +:+ invalid_dtype_lines (unregistered dtypes),
     dict_update d (formatted dtypes)).
Proof.
  revert msg d. induction dtypes as [|[c t] dtypes IH]; intros msg d.
  - simpl. now rewrite append_nil_r.
  - cbn [fold_left]. unfold unregistered, formatted. cbn [map fst snd].
    destruct (dict_mem (_format_type t) TAFRA_TYPE) eqn:Hm.
    + rewrite IH. rewrite filter_cons_False by (simpl; congruence). reflexivity.
    + rewrite IH. rewrite filter_cons_True by exact Hm.
      unfold invalid_dtype_lines at 2. cbn [foldr fst snd].
      unfold invalid_dtype_line. rewrite !append_assoc. reflexivity.
Qed.

Lemma validate_types_cases {N : NumPy} (dtypes : list (string * string)) :
  _validate_types dtypes =
  match unregistered dtypes with
  | [] => inr (dict_of_items (formatted dtypes))
  | bad => inl (ValueError (invalid_dtype_lines bad))
  end.
Proof.
  unfold _validate_types. rewrite validate_types_fold. cbn [String.append].
  destruct (unregistered dtypes) as [|[c t] bad]; reflexivity.
Qed.

(** X2. [_validate_types] formats every tag and checks all of them
    before it answers: when every formatted tag is registered it returns
    the mapping of the columns to their formatted tags, and otherwise it
    raises one [ValueError] whose message has a line for each tag that is
    not registered, in the order of the mapping. *)
Theorem validate_types_reports_all {N : NumPy} (dtypes : list (string * string)) :
  (unregistered dtypes = [] ->
   _validate_types dtypes = inr (dict_of_items (formatted dtypes))) /\
  (unregistered dtypes <> [] ->
   _validate_types dtypes
   = inl (ValueError (invalid_dtype_lines (unregistered dtypes)))).
Proof.
  rewrite validate_types_cases.
  destruct (unregistered dtypes); split; intros H; congruence.
Qed.

Lemma validate_types_reports_all_witness :
  _validate_types [("x", "float32"); ("y", "<U3")] = inr [("x", "float"); ("y", "str")] /\
  _validate_types [("x", "complex128"); ("y", "int8"); ("z", "timedelta64[ns]")]
  = inl (ValueError (invalid_dtype_line "x" "complex128"
                     +:+ invalid_dtype_line "z" "timedelta64[ns]")).
Proof.
  split.
  - apply (@validate_types_reports_all numpy [("x", "float32"); ("y", "<U3")]).
    reflexivity.
  - apply (@validate_types_reports_all numpy
             [("x", "complex128"); ("y", "int8"); ("z", "timedelta64[ns]")]).
    discriminate.
Defined.

(** ** Assignment and deletion *)

(** *** Dictionaries: removal *)

Lemma dict_get_pop_eq {V} k (d : list (string * V)) : dict_get k (dict_pop k d) = None.
Proof.
  unfold dict_pop. induction d as [|[k' v] d IH]; [reflexivity|].
  destruct (decide (k' = k)) as [->|Hne].
  - rewrite filter_cons_False by (simpl; tauto). exact IH.
  - rewrite filter_cons_True by (simpl; tauto). simpl.
    rewrite decide_False by congruence. exact IH.
Qed.

Lemma dict_get_pop_ne {V} k c (d : list (string * V)) :
  c <> k -> dict_get c (dict_pop k d) = dict_get c d.
Proof.
  intros Hc. unfold dict_pop. induction d as [|[k' v] d IH]; [reflexivity|].
  destruct (decide (k' = k)) as [->|Hne].
  - rewrite filter_cons_False by (simpl; tauto). simpl.
    now rewrite decide_False.
  - rewrite filter_cons_True by (simpl; tauto). simpl.
    destruct (decide (c = k')); auto.
Qed.

Lemma dict_pop_absent {V} k (d : list (string * V)) :
  dict_get k d = None -> dict_pop k d = d.
Proof.
  unfold dict_pop. induction d as [|[k' v] d IH]; [reflexivity|]. simpl.
  destruct (decide (k = k')) as [->|Hne]; [discriminate|]. intros H.
  rewrite filter_cons_True by (simpl; congruence). now rewrite IH.
Qed.

Lemma dict_pop_set_absent {V} k (v : V) (d : list (string * V)) :
  dict_get k d = None -> dict_pop k (dict_set k v d) = d.
Proof.
  unfold dict_pop. induction d as [|[k' v'] d IH]; simpl.
  - intros _. now rewrite filter_cons_False by (simpl; tauto).
  - destruct (decide (k = k')) as [->|Hne]; [discriminate|]. intros H.
    rewrite filter_cons_True by (simpl; congruence). now rewrite IH.
Qed.

(** *** [_validate] *)

Lemma filter_not_one_all_ones (l : list nat) :
  Forall (fun n => n = 1) l -> filter (fun n => n <> 1) l = [].
Proof.
  induction 1 as [|n l Hn _ IH]; [reflexivity|].
  now rewrite filter_cons_False by tauto.
Qed.

Section validate.
Context {N : NumPy}.

(** X3. What [_validate] lets through is a one-dimensional array as long
    as the table: no value of another rank or length can be assigned. *)
Theorem validate_accepts_one_dimensional (v : value) (self : Tafra) (a : ndarray) :
  _validate v self = inr a ->
  np.ndim a = 1 /\ exists r, rows self = inr r /\ np.len a = inr r.
Proof.
  unfold _validate. intros H. bind_inv H as value Hv. bind_inv H as n Hn.
  bind_inv H as r Hr. destruct (decide (n <> r)) as [|Heq]; [discriminate|].
  invert H. apply dec_stable in Heq. subst r. split; [|eauto].
  unfold _validate_shape in Hv. bind_inv Hv as value Hval.
  destruct (decide (1 < np.ndim value)) as [Hgt|Hle].
  - destruct (decide (1 < np.ndim (np.squeeze value))); [discriminate|].
    destruct (decide (np.ndim (np.squeeze value) = 1)); [|discriminate].
    now invert Hv.
  - invert Hv. unfold np.ndim, np.len in *.
    destruct (body a); [discriminate | reflexivity | simpl in Hle; lia].
Qed.

(** X4. The squeeze of [_validate]: a column vector of [n] rows, [n]
    other than one, is taken as the one-dimensional array of its
    elements; an array of two or more dimensions whose extents are all
    one squeezes to no dimension at all, and the assertion the source
    calls unreachable fails. *)
Theorem validate_squeeze :
  (forall dt planes,
     length planes <> 1 ->
     _validate_shape (VArray {| dtype := dt; body := ArrN 1 [] planes |})
     = inr {| dtype := dt; body := Arr1 (concat planes) |}) /\
  (forall a self,
     1 < np.ndim a -> Forall (fun n => n = 1) (np.shape a) ->
     _validate (VArray a) self = inl (AssertionError "ndim <= 0, unreachable")).
Proof.
  split.
  - intros dt planes Hn. unfold _validate_shape. cbn [bind ret].
    unfold np.squeeze, np.shape, np.flat, np.ndim. cbn [body dtype length].
    rewrite filter_cons_True by exact Hn.
    rewrite filter_cons_False by tauto. rewrite filter_nil.
    cbn [np.reshape]. rewrite decide_True by lia.
    rewrite decide_False by lia. rewrite decide_True by reflexivity. reflexivity.
  - intros a self Hnd Hall. unfold _validate, _validate_shape. cbn [bind ret].
    rewrite decide_True by exact Hnd.
    unfold np.squeeze. rewrite (filter_not_one_all_ones _ Hall).
    reflexivity.
Qed.

(** *** [__setitem__] *)

(** X5. [t[name] = v] validates before it writes.  When it succeeds,
    [t[name]] is the validated array and the tag of [name] is the
    formatted dtype of that array, while every other column and tag is as
    before; when it raises, the table is as before. *)
Theorem setitem_then_getitem (name : string) (v : value) (t t' : Tafra) :
  (__setitem__ name v t = (inr tt, t') ->
   exists a, _validate v t = inr a /\
             getitem_str name t' = inr a /\
             dict_get name (_dtypes t') = Some (_format_type (dtype a)) /\
             forall c, c <> name ->
                       dict_get c (_data t') = dict_get c (_data t) /\
                       dict_get c (_dtypes t') = dict_get c (_dtypes t)) /\
  (forall e, __setitem__ name v t = (inl e, t') -> t' = t).
Proof.
  unfold __setitem__, mbind, reads, set_data, set_dtype, modify.
  destruct (_validate v t) as [e|a]; split; intros; try congruence.
  - exists a. invert H. unfold getitem_str. cbn [_data _dtypes].
    rewrite !dict_get_set_eq. repeat split; auto;
      now rewrite dict_get_set_ne by congruence.
  - discriminate.
Qed.

(** *** [delete] *)

(** X6. [delete] takes the column out of the data and out of the tags and
    touches nothing else; deleting a column the table does not have
    changes nothing, and deleting a column that was just added to a table
    that did not have it gives the table back. *)
Theorem delete_removes (column : string) (t : Tafra) :
  (getitem_str column (snd (delete column t)) = inl (KeyError column) /\
   dict_get column (_dtypes (snd (delete column t))) = None) /\
  (forall c, c <> column ->
             dict_get c (_data (snd (delete column t))) = dict_get c (_data t) /\
             dict_get c (_dtypes (snd (delete column t))) = dict_get c (_dtypes t)) /\
  (dict_get column (_data t) = None -> dict_get column (_dtypes t) = None ->
   delete column t = (inr tt, t) /\
   forall v t', __setitem__ column v t = (inr tt, t') -> delete column t' = (inr tt, t)).
Proof.
  unfold delete, modify, getitem_str. cbn [snd _data _dtypes]. split; [|split].
  - now rewrite !dict_get_pop_eq.
  - intros c Hc. now rewrite !dict_get_pop_ne.
  - intros Hd Ht. split.
    + rewrite !dict_pop_absent by assumption. now destruct t.
    + intros v t' H. unfold __setitem__, mbind, reads, set_data, set_dtype, modify in H.
      destruct (_validate v t) as [e|a]; [discriminate|]. invert H.
      cbn [_data _dtypes]. rewrite !dict_pop_set_absent by assumption. now destruct t.
Qed.

End validate.

Lemma validate_accepts_one_dimensional_witness :
  np.ndim (int64_array [6; 5; 4; 3; 2; 1]%Z) = 1 /\
  exists r, rows example_tafra = inr r /\
            np.len (int64_array [6; 5; 4; 3; 2; 1]%Z) = inr r.
Proof.
  apply (@validate_accepts_one_dimensional numpy
           (VArray (int64_array [6; 5; 4; 3; 2; 1]%Z)) example_tafra).
  reflexivity.
Defined.

Lemma validate_squeeze_witness :
  _validate_shape (VArray {| dtype := "int64";
                             body := ArrN 1 [] [[SInt 1]; [SInt 2]; [SInt 3]] |})
  = inr (int64_array [1; 2; 3]%Z) /\
  _validate (VArray {| dtype := "int64"; body := ArrN 1 [] [[SInt 5]] |}) example_tafra
  = inl (AssertionError "ndim <= 0, unreachable").
Proof.
  destruct (@validate_squeeze numpy) as [H1 H2]. split.
  - apply (H1 "int64" [[SInt 1]; [SInt 2]; [SInt 3]]). intros H. discriminate H.
  - apply H2; [vm_compute; lia | repeat constructor].
Defined.

Lemma setitem_then_getitem_witness :
  exists a, _validate (VArray (int64_array [6; 5; 4; 3; 2; 1]%Z)) example_tafra = inr a /\
            getitem_str "w" (snd (__setitem__ "w" (VArray (int64_array [6; 5; 4; 3; 2; 1]%Z))
                                              example_tafra)) = inr a.
Proof.
  destruct (@setitem_then_getitem numpy "w" (VArray (int64_array [6; 5; 4; 3; 2; 1]%Z))
              example_tafra
              (snd (__setitem__ "w" (VArray (int64_array [6; 5; 4; 3; 2; 1]%Z))
                                example_tafra))) as [H _].
  destruct (H eq_refl) as (a & Ha & Hg & _). eauto.
Defined.

Lemma delete_removes_witness :
  delete "w" example_tafra = (inr tt, example_tafra) /\
  delete "w" (snd (__setitem__ "w" (VArray (int64_array [6; 5; 4; 3; 2; 1]%Z))
                               example_tafra))
  = (inr tt, example_tafra).
Proof.
  destruct (delete_removes "w" example_tafra) as (_ & _ & H).
  destruct (H eq_refl eq_refl) as [H1 H2]. split; [exact H1|].
  apply (H2 (VArray (int64_array [6; 5; 4; 3; 2; 1]%Z))). reflexivity.
Defined.

(** ** The constructor and [copy] *)

Lemma check_rows_consistent t :
  row_consistent t -> exists r, foldM check_rows (_data t) None = inr r.
Proof.
  intros (n & Hn & HF). unfold rows in Hn.
  destruct (_data t) as [|[c a] d]; [simpl; eauto|].
  simpl in *. rewrite Hn. simpl. invert HF.
  destruct (check_rows_sized n d) as [[H _]|[_ H]]; [| |contradiction].
  - eapply Forall_impl; [exact H2|]. simpl. eauto.
  - rewrite H. eauto.
Qed.

Section constructor.
Context {N : NumPy}.

(** Where the tags agree with the arrays, the two loops over the tags and
    over the columns have nothing to do. *)
Lemma update_types_loop_agree t cols :
  tags_agree t -> Forall (fun c => c ∈ dict_keys (_dtypes t)) cols ->
  for_each cols update_type t = (inr tt, t).
Proof.
  intros [_ Hag] HF. induction HF as [|c cols Hc _ IH]; [reflexivity|].
  cbn [for_each]. unfold mbind at 1.
  apply dict_get_of_key in Hc as [tag Htag].
  destruct (Hag c tag Htag) as (a & Ha & Hfmt).
  unfold update_type, mbind, data_at, dtypes_at, reads. rewrite Ha, Htag. cbn.
  rewrite decide_False by (intros Hne; apply Hne; exact Hfmt).
  exact IH.
Qed.

Lemma coalesce_loop_agree t cols :
  tags_agree t -> Forall (fun c => c ∈ dict_keys (_data t)) cols ->
  for_each cols coalesce_type t = (inr tt, t).
Proof.
  intros [Hall _] HF. induction HF as [|c cols Hc _ IH]; [reflexivity|].
  cbn [for_each]. unfold mbind at 1.
  unfold coalesce_type, mbind, gets. cbn.
  unfold dict_mem. rewrite bool_decide_eq_true_2 by auto. exact IH.
Qed.

Lemma init_agree t :
  row_consistent t -> tags_agree t -> __init__ (_data t) (_dtypes t) = inr t.
Proof.
  intros Hrc Hag. destruct (check_rows_consistent t Hrc) as [r Hr].
  rewrite init_run, Hr.
  assert (Ht : {| _data := _data t; _dtypes := _dtypes t |} = t) by now destruct t.
  assert (Hco : for_each (dict_keys (_data t)) coalesce_type t = (inr tt, t)).
  { apply coalesce_loop_agree; [assumption|]. apply Forall_forall. auto. }
  destruct (_dtypes t) as [|ct dt] eqn:Hdt.
  - rewrite Ht, Hco. reflexivity.
  - rewrite Ht. rewrite (update_types_loop_agree t);
      [| assumption | rewrite Hdt; apply Forall_forall; auto].
    rewrite Hco. reflexivity.
Qed.

Lemma map_copy_id (d : list (string * ndarray)) :
  map (fun '(column, value) => (column, np.copy value)) d = d.
Proof.
  induction d as [|[c [dt b]] d IH]; [reflexivity|]. simpl. now rewrite IH.
Qed.

(** X7. On a table whose columns are equally long and whose tags agree
    with its arrays, the constructor stores what it is given, and [copy]
    returns a table with the same columns, the same contents and the same
    tags. *)
Theorem copy_same_contents (t : Tafra) :
  row_consistent t -> tags_agree t ->
  __init__ (_data t) (_dtypes t) = inr t /\ copy t = inr t.
Proof.
  intros Hrc Hag. split; [now apply init_agree|].
  unfold copy. rewrite map_copy_id. now apply init_agree.
Qed.

Lemma dict_keys_set_present {V} k (v v' : V) (d : list (string * V)) :
  dict_get k d = Some v -> dict_keys (dict_set k v' d) = dict_keys d.
Proof.
  induction d as [|[k' w] d IH]; simpl; [discriminate|].
  destruct (decide (k = k')) as [->|Hne]; [reflexivity|].
  intros H. simpl. now rewrite IH.
Qed.

(** What the loop of [update_types] leaves alone: the tags and the names
    of the columns; and every tag it went through names a column. *)
Lemma update_types_loop_keys cols :
  forall t t',
    for_each cols update_type t = (inr tt, t') ->
    _dtypes t' = _dtypes t /\ dict_keys (_data t') = dict_keys (_data t) /\
    Forall (fun c => c ∈ dict_keys (_data t)) cols.
Proof.
  induction cols as [|c cols IH]; intros t t' H.
  - invert H. auto.
  - cbn [for_each] in H. unfold mbind at 1 in H.
    destruct (update_type c t) as [[e|[]] t1] eqn:Hc; [discriminate|].
    destruct (IH _ _ H) as (Hd & Hk & HF).
    assert (H1 : _dtypes t1 = _dtypes t /\ dict_keys (_data t1) = dict_keys (_data t) /\
                 c ∈ dict_keys (_data t)).
    { unfold update_type, mbind, data_at, dtypes_at, reads in Hc.
      destruct (dict_get c (_data t)) as [a|] eqn:Ha; [|discriminate]. cbn in Hc.
      destruct (dict_get c (_dtypes t)) as [tag|]; [|discriminate]. cbn in Hc.
      pose proof (dict_get_key _ _ _ Ha) as Hin.
      destruct (decide _); [|invert Hc; auto].
      unfold lift, set_data, modify in Hc.
      destruct (_apply_type tag a) as [e|a']; [discriminate|]. invert Hc.
      cbn [_data _dtypes]. repeat split; auto. eapply dict_keys_set_present; eauto. }
    destruct H1 as (Hd1 & Hk1 & Hin). rewrite Hd, Hk, Hd1, Hk1. repeat split.
    constructor; [exact Hin|]. now rewrite <- Hk1.
Qed.

(** What the loop of [coalesce_types] does on columns of the table: it
    leaves the arrays and the tags that are there, and gives each
    column it goes through the formatted dtype of its array when it has
    no tag. *)
Lemma coalesce_loop_tags cols :
  forall t,
    Forall (fun c => c ∈ dict_keys (_data t)) cols ->
    exists t',
      for_each cols coalesce_type t = (inr tt, t') /\ _data t' = _data t /\
      (forall c tag, dict_get c (_dtypes t) = Some tag ->
                     dict_get c (_dtypes t') = Some tag) /\
      (forall c, In c cols -> is_Some (dict_get c (_dtypes t'))) /\
      (forall c tag, dict_get c (_dtypes t') = Some tag ->
         dict_get c (_dtypes t) = Some tag \/
         exists a, dict_get c (_data t) = Some a /\ tag = _format_type (dtype a)).
Proof.
  induction cols as [|c cols IH]; intros t HF.
  - exists t. repeat split; auto. intros c [].
  - invert HF. cbn [for_each]. unfold mbind at 1.
    unfold coalesce_type at 1. unfold mbind, gets. cbn.
    destruct (dict_mem c (_dtypes t)) eqn:Hm.
    + cbn. destruct (IH t H2) as (t' & Hrun & Hd & Hkeep & Hall & Hfrom).
      exists t'. repeat split; auto.
      intros c' [<-|Hin]; auto.
      apply bool_decide_eq_true in Hm as [tag Htag]. rewrite (Hkeep _ _ Htag). eauto.
    + apply dict_get_of_key in H1 as [a Ha].
      unfold data_at, reads, set_dtype, modify. rewrite Ha. cbn.
      set (t1 := {| _data := _data t;
                    _dtypes := dict_set c (_format_type (dtype a)) (_dtypes t) |}).
      destruct (IH t1 H2) as (t' & Hrun & Hd & Hkeep & Hall & Hfrom).
      apply bool_decide_eq_false in Hm.
      assert (Hnone : dict_get c (_dtypes t) = None).
      { destruct (dict_get c (_dtypes t)) eqn:E; [|reflexivity]. exfalso. eauto. }
      exists t'. split; [exact Hrun|]. split; [exact Hd|]. repeat split.
      * intros c' tag Htag. apply Hkeep. unfold t1. cbn.
        rewrite dict_get_set_ne; [exact Htag | congruence].
      * intros c' [<-|Hin]; auto.
        rewrite (Hkeep c (_format_type (dtype a))); [eauto|].
        unfold t1. cbn. apply dict_get_set_eq.
      * intros c' tag Htag. destruct (Hfrom _ _ Htag) as [Hold|Hnew]; [|auto].
        unfold t1 in Hold. cbn in Hold. destruct (decide (c = c')) as [<-|Hne].
        -- rewrite dict_get_set_eq in Hold. invert Hold. eauto.
        -- rewrite dict_get_set_ne in Hold by exact Hne. auto.
Qed.

Lemma init_given_tags (data : list (string * ndarray)) (dtypes : list (string * string))
      (t : Tafra) :
  __init__ data dtypes = inr t ->
  dict_keys (_data t) = dict_keys data /\
  (forall c, c ∈ dict_keys data -> is_Some (dict_get c (_dtypes t))) /\
  (forall c tag, dict_get c dtypes = Some tag ->
                 dict_get c (_dtypes t) = Some tag /\ c ∈ dict_keys data).
Proof.
  rewrite init_run. intros H.
  destruct (foldM check_rows data None) as [e|r]; [discriminate|].
  destruct dtypes as [|ct dtypes].
  - destruct (coalesce_loop_tags (dict_keys data) {| _data := data; _dtypes := [] |})
      as (t' & Hrun & Hd & Hkeep & Hall & Hfrom).
    { apply Forall_forall. auto. }
    rewrite Hrun in H. invert H. cbn [_data _dtypes] in *.
    split; [now rewrite Hd|]. split.
    + intros c Hc. apply Hall. now apply list_elem_of_In.
    + intros c tag Htag. discriminate Htag.
  - destruct (for_each (dict_keys (ct :: dtypes)) update_type _) as [[e|[]] t1] eqn:Hup;
      [discriminate|].
    destruct (update_types_loop_keys _ _ _ Hup) as (Hdt & Hk & HF).
    cbn [_data _dtypes] in Hdt, Hk, HF.
    destruct (coalesce_loop_tags (dict_keys (_data t1)) t1)
      as (t' & Hrun & Hd & Hkeep & Hall & Hfrom).
    { apply Forall_forall. auto. }
    rewrite Hrun in H. invert H.
    split; [now rewrite Hd, Hk|]. split.
    + intros c Hc. apply Hall. rewrite Hk. now apply list_elem_of_In.
    + intros c tag Htag. split.
      * apply Hkeep. now rewrite Hdt.
      * rewrite Forall_forall in HF. apply HF. eapply dict_get_key; eauto.
Qed.

Lemma init_no_tags d t :
  __init__ d [] = inr t -> _data t = d /\ tags_agree t.
Proof.
  rewrite init_run. intros H.
  destruct (foldM check_rows d None) as [e|r]; [discriminate|].
  destruct (coalesce_loop_tags (dict_keys d) {| _data := d; _dtypes := [] |})
    as (t' & Hrun & Hd & Hkeep & Hall & Hfrom).
  { apply Forall_forall. auto. }
  rewrite Hrun in H. invert H. cbn [_data _dtypes] in *.
  split; [exact Hd|]. split.
  - rewrite Hd. intros c Hc. apply Hall. now apply list_elem_of_In.
  - intros c tag Htag. destruct (Hfrom _ _ Htag) as [Hold|Hnew]; [discriminate|].
    rewrite Hd. destruct Hnew as (a & Ha & ->). eauto.
Qed.

(** X8. What a constructed table holds.  Its columns are those of the
    data, in the same order; every column has a tag; the tags given are
    kept, and each of them names a column of the data.  When no tags are
    given the arrays are stored as they are, and each tag is the
    formatted dtype of its array. *)
Theorem init_tags (data : list (string * ndarray)) (dtypes : list (string * string))
        (t : Tafra) :
  __init__ data dtypes = inr t ->
  dict_keys (_data t) = dict_keys data /\
  (forall c, c ∈ dict_keys data -> is_Some (dict_get c (_dtypes t))) /\
  (forall c tag, dict_get c dtypes = Some tag ->
                 dict_get c (_dtypes t) = Some tag /\ c ∈ dict_keys data) /\
  (dtypes = [] -> _data t = data /\ tags_agree t).
Proof.
  intros H. destruct (init_given_tags _ _ _ H) as (H1 & H2 & H3).
  split; [exact H1|]. split; [exact H2|]. split; [exact H3|].
  intros ->. now apply init_no_tags.
Qed.

End constructor.

Lemma example_tags_agree : tags_agree example_tafra.
Proof.
  split.
  - intros c Hc. apply list_elem_of_In in Hc. simpl in Hc.
    destruct Hc as [<-|[<-|[<-|[]]]]; eexists; reflexivity.
  - intros c tag H. simpl in H.
    repeat (destruct (decide _) as [->|?]; [invert H; eexists; split; reflexivity|]).
    discriminate.
Qed.

Lemma copy_same_contents_witness :
  __init__ example_data [("x", "int"); ("y", "object"); ("z", "int")] = inr example_tafra /\
  copy example_tafra = inr example_tafra.
Proof.
  apply (@copy_same_contents numpy example_tafra
           example_row_consistent example_tags_agree).
Defined.

Lemma init_tags_witness :
  dict_keys (_data example_tafra) = dict_keys example_data /\
  _data example_tafra = example_data /\ tags_agree example_tafra.
Proof.
  destruct (@init_tags numpy example_data [] example_tafra eq_refl) as (H1 & _ & _ & H4).
  split; [exact H1 | exact (H4 eq_refl)].
Defined.

(** ** [update_types] *)

Section update_types.
Context {N : NumPy}.

Lemma update_type_run' c t :
  update_type c t =
  match dict_get c (_data t), dict_get c (_dtypes t) with
  | Some a, Some tag =>
      if decide (_format_type (dtype a) <> tag) then
        match _apply_type tag a with
        | inr a' => (inr tt, {| _data := dict_set c a' (_data t); _dtypes := _dtypes t |})
        | inl e => (inl e, t)
        end
      else (inr tt, t)
  | Some _, None => (inl (KeyError c), t)
  | None, _ => (inl (KeyError c), t)
  end.
Proof.
  unfold update_type, mbind, data_at, dtypes_at, reads, lift, set_data, modify, skip, mret.
  destruct (dict_get c (_data t)) as [a|]; [|reflexivity]. cbn.
  destruct (dict_get c (_dtypes t)) as [tag|]; [|reflexivity]. cbn.
  destruct (decide _); [|reflexivity].
  destruct (_apply_type tag a); reflexivity.
Qed.

(** The loop over distinct tagged columns converts each of them once and
    leaves the other columns alone. *)
Lemma update_types_loop_retyped cols :
  NoDup cols ->
  forall t t',
    for_each cols update_type t = (inr tt, t') ->
    _dtypes t' = _dtypes t /\
    forall c a, dict_get c (_data t) = Some a ->
      if decide (c ∈ cols)
      then exists a', retyped (dict_get c (_dtypes t)) a = inr a' /\
                      dict_get c (_data t') = Some a'
      else dict_get c (_data t') = Some a.
Proof.
  induction 1 as [|c0 cols Hnin Hnd IH]; intros t t' H.
  - invert H. split; [reflexivity|]. intros c a Ha.
    rewrite decide_False by apply not_elem_of_nil. exact Ha.
  - cbn [for_each] in H. unfold mbind at 1 in H.
    destruct (update_type c0 t) as [[e|[]] t1] eqn:Hc; [discriminate|].
    destruct (IH _ _ H) as [Hdt Hdata]. rewrite update_type_run' in Hc.
    destruct (dict_get c0 (_data t)) as [a0|] eqn:Ha0; [|discriminate].
    destruct (dict_get c0 (_dtypes t)) as [tag|] eqn:Htag; [|discriminate].
    assert (H1 : _dtypes t1 = _dtypes t /\
                 exists a0', retyped (Some tag) a0 = inr a0' /\
                             dict_get c0 (_data t1) = Some a0' /\
                             forall c, c <> c0 -> dict_get c (_data t1) = dict_get c (_data t)).
    { unfold retyped. destruct (decide _).
      - destruct (_apply_type tag a0) as [e|a0']; [discriminate|]. invert Hc.
        cbn [_data _dtypes]. split; [reflexivity|]. exists a0'.
        split; [reflexivity|]. split; [apply dict_get_set_eq|].
        intros c Hne. apply dict_get_set_ne. congruence.
      - invert Hc. split; [reflexivity|]. exists a0. auto. }
    destruct H1 as (Hdt1 & a0' & Hre & Hget & Hother).
    split; [congruence|]. intros c a Ha.
    destruct (decide (c = c0)) as [->|Hne].
    + rewrite decide_True by apply list_elem_of_here.
      rewrite Ha0 in Ha. invert Ha. rewrite Htag. exists a0'. split; [exact Hre|].
      specialize (Hdata c0 a0' Hget). now rewrite decide_False in Hdata.
    + rewrite <- Hother in Ha by exact Hne. specialize (Hdata c a Ha).
      rewrite Hdt1 in Hdata. destruct (decide (c ∈ cols)) as [Hin|Hnot].
      * rewrite decide_True by now apply list_elem_of_further. exact Hdata.
      * rewrite decide_False; [exact Hdata|].
        intros [?|?]%elem_of_cons; contradiction.
Qed.

Lemma update_types_run dtypes t :
  update_types dtypes t =
  match dtypes with
  | Some d =>
      match _validate_types d with
      | inl e => (inl e, t)
      | inr d' =>
          for_each (dict_keys (dict_update (_dtypes t) d')) update_type
                   {| _data := _data t; _dtypes := dict_update (_dtypes t) d' |}
      end
  | None => for_each (dict_keys (_dtypes t)) update_type t
  end.
Proof.
  unfold update_types, mbind, lift, modify, gets, skip, mret.
  destruct dtypes as [d|]; [|reflexivity].
  destruct (_validate_types d); reflexivity.
Qed.

Lemma update_types_retyped (dtypes : option (list (string * string))) (t t' : Tafra) :
  NoDup (dict_keys (updated_tags dtypes t)) ->
  update_types dtypes t = (inr tt, t') ->
  _dtypes t' = updated_tags dtypes t /\
  forall c a, dict_get c (_data t) = Some a ->
    exists a', retyped (dict_get c (updated_tags dtypes t)) a = inr a' /\
               dict_get c (_data t') = Some a'.
Proof.
  intros Hnd H. rewrite update_types_run in H.
  assert (Hrun : for_each (dict_keys (updated_tags dtypes t)) update_type
                          {| _data := _data t; _dtypes := updated_tags dtypes t |}
                 = (inr tt, t')).
  { destruct dtypes as [d|]; cbn [updated_tags].
    - rewrite validate_types_cases in H.
      destruct (unregistered d); [exact H | discriminate].
    - now destruct t. }
  destruct (update_types_loop_retyped _ Hnd _ _ Hrun) as [Hdt Hdata].
  cbn [_data _dtypes] in Hdt, Hdata. split; [exact Hdt|].
  intros c a Ha. specialize (Hdata c a Ha).
  destruct (decide (c ∈ dict_keys (updated_tags dtypes t))) as [Hin|Hnot]; [exact Hdata|].
  exists a. split; [|exact Hdata].
  destruct (dict_get c (updated_tags dtypes t)) eqn:E; [|reflexivity].
  exfalso. apply Hnot. eapply dict_get_key; eauto.
Qed.


(** X9. What a successful [update_types] has done, the keys of the tags
    being distinct: the tags are the table's, updated with the formatted
    tags given; the columns are the same, in the same order; a column
    without a tag, or whose dtype formats to its tag, keeps its array;
    and every other column holds the conversion of its array to its
    tag. *)
Theorem update_types_converts (dtypes : option (list (string * string))) (t t' : Tafra) :
  NoDup (dict_keys (updated_tags dtypes t)) ->
  update_types dtypes t = (inr tt, t') ->
  _dtypes t' = updated_tags dtypes t /\
  columns t' = columns t /\
  forall c a, dict_get c (_data t) = Some a ->
    exists a', retyped (dict_get c (updated_tags dtypes t)) a = inr a' /\
               dict_get c (_data t') = Some a'.
Proof.
  intros Hnd H. destruct (update_types_retyped dtypes t t' Hnd H) as [Hdt Hdata].
  split; [exact Hdt|]. split; [|exact Hdata].
  rewrite update_types_run in H. unfold columns. destruct dtypes as [d|].
  - destruct (_validate_types d) as [e|d']; [discriminate|].
    now destruct (update_types_loop_keys _ _ _ H) as (_ & Hk & _).
  - now destruct (update_types_loop_keys _ _ _ H) as (_ & Hk & _).
Qed.

End update_types.

Lemma update_types_converts_witness :
  _dtypes (snd (update_types (Some [("x", "float")]) example_tafra))
  = [("x", "float"); ("y", "object"); ("z", "int")] /\
  exists a', astype "float" (int64_array [1; 2; 3; 4; 5; 6]%Z) = inr a' /\
             dict_get "x" (_data (snd (update_types (Some [("x", "float")]) example_tafra)))
             = Some a'.
Proof.
  assert (Hnd : NoDup (dict_keys (updated_tags (Some [("x", "float")]) example_tafra))).
  { change (NoDup ["x"; "y"; "z"]).
    nodup_strings. }
  destruct (@update_types_converts numpy (Some [("x", "float")]) example_tafra
              (snd (update_types (Some [("x", "float")]) example_tafra)) Hnd)
    as (Hdt & _ & Hdata).
  { vm_compute. reflexivity. }
  split; [exact Hdt|].
  destruct (Hdata "x" (int64_array [1; 2; 3; 4; 5; 6]%Z) eq_refl) as (a' & Ha' & Hget).
  exists a'. split; [exact Ha' | exact Hget].
Defined.

(** ** Row selection: [_slice] and [_index] *)

(** *** Tables made column by column *)

Lemma same_columns_get d d' c :
  same_columns d d' ->
  match dict_get c d, dict_get c d' with
  | Some a, Some a' => dtype a' = dtype a
  | None, None => True
  | _, _ => False
  end.
Proof.
  induction 1 as [|[k a] [k' a'] d0 d1 [Hk Hd] _ IH]; simpl in *; [exact I|]. subst k'.
  destruct (decide (c = k)); [exact Hd | exact IH].
Qed.

Lemma same_columns_keys d d' : same_columns d d' -> dict_keys d' = dict_keys d.
Proof.
  induction 1 as [|[k a] [k' a'] d0 d1 [Hk _] _ IH]; simpl in *; [reflexivity|].
  now rewrite Hk, IH.
Qed.

Lemma same_columns_agree t d' :
  tags_agree t -> same_columns (_data t) d' ->
  tags_agree {| _data := d'; _dtypes := _dtypes t |}.
Proof.
  intros [Hall Htag] Hs. split; cbn [_data _dtypes].
  - rewrite (same_columns_keys _ _ Hs). exact Hall.
  - intros c tag Hc. destruct (Htag c tag Hc) as (a & Ha & Hf).
    pose proof (same_columns_get _ _ c Hs) as Hget. rewrite Ha in Hget.
    destruct (dict_get c d') as [a'|]; [|contradiction].
    exists a'. split; [reflexivity|]. now rewrite Hget.
Qed.

Lemma rows_all_len m d dt :
  d <> [] -> Forall (fun a => np.len a = inr m) (dict_values d) ->
  rows {| _data := d; _dtypes := dt |} = inr m.
Proof.
  intros Hne HF. unfold rows. cbn [_data].
  destruct d as [|[c a] d]; [congruence|]. simpl in *. now invert HF.
Qed.

Lemma all_len_consistent m d dt :
  Forall (fun a => np.len a = inr m) (dict_values d) ->
  row_consistent {| _data := d; _dtypes := dt |}.
Proof.
  intros HF. destruct (decide (d = [])) as [->|Hne].
  - exists 0. split; [reflexivity | constructor].
  - exists m. split; [|exact HF]. now apply rows_all_len.
Qed.

(** The constructor on columns made from those of a table whose tags
    agree, with the dtypes kept and one length for all. *)
Lemma init_same_columns {N : NumPy} t d' m :
  tags_agree t -> same_columns (_data t) d' ->
  Forall (fun a => np.len a = inr m) (dict_values d') ->
  __init__ d' (_dtypes t) = inr {| _data := d'; _dtypes := _dtypes t |}.
Proof.
  intros Hag Hs HF.
  apply (init_agree {| _data := d'; _dtypes := _dtypes t |}).
  - eapply all_len_consistent; eauto.
  - now apply same_columns_agree.
Qed.

(** Mapping a function over one-dimensional columns. *)
Lemma mapM_columns (f : ndarray -> result ndarray) (g : list scalar -> list scalar) d :
  Forall (fun a => exists l, body a = Arr1 l /\
                             f a = inr {| dtype := dtype a; body := Arr1 (g l) |})
         (dict_values d) ->
  exists d', mapM (fun '(column, value) => let* v := f value in ret (column, v)) d = inr d' /\
             same_columns d d' /\
             Forall2 (fun ca ca' => exists l, body (snd ca) = Arr1 l /\
                                              body (snd ca') = Arr1 (g l)) d d'.
Proof.
  intros H1. induction d as [|[c a] d IH]; simpl.
  - exists []. repeat split; constructor.
  - simpl in H1. invert H1. destruct H2 as (l & Hl & Hf).
    destruct (IH H3) as (d' & Hd' & Hs & Hb). rewrite Hf. simpl.
    rewrite Hd'. simpl. eexists. split; [reflexivity|]. split.
    + constructor; [split; reflexivity | exact Hs].
    + constructor; [|exact Hb]. exists l. auto.
Qed.

Lemma mapM_columns_error (f : ndarray -> result ndarray) e (c : string) a d :
  f a = inl e ->
  mapM (fun '(column, value) => let* v := f value in ret (column, v)) ((c, a) :: d) = inl e.
Proof. intros H. simpl. now rewrite H. Qed.

Lemma Forall2_all_len (g : list scalar -> list scalar) m (d d' : list (string * ndarray)) :
  Forall2 (fun ca ca' => exists l, body (snd ca) = Arr1 l /\
                                   body (snd ca') = Arr1 (g l)) d d' ->
  (forall ca l, In ca d -> body (snd ca) = Arr1 l -> length (g l) = m) ->
  Forall (fun a => np.len a = inr m) (dict_values d').
Proof.
  induction 1 as [|ca ca' d0 d1 (l & Hl & Hl') _ IH]; intros Hm; simpl; constructor.
  - unfold np.len. rewrite Hl'. f_equal. eapply Hm; [now left | exact Hl].
  - apply IH. intros ? ? ?. apply Hm. now right.
Qed.

(** The columns of a table of one-dimensional arrays with [n] rows. *)
Lemma columns_arr1 t n :
  one_dimensional t -> row_consistent t -> rows t = inr n ->
  Forall (fun a => exists l, body a = Arr1 l /\ length l = n) (dict_values (_data t)).
Proof.
  intros H1 (m & Hm & HF) Hn. rewrite Hn in Hm. invert Hm.
  unfold one_dimensional in H1. induction H1 as [|a d [l Hl] _ IH]; [constructor|].
  invert HF. constructor; [|auto]. exists l. split; [exact Hl|].
  unfold np.len in H1. rewrite Hl in H1. now invert H1.
Qed.

Lemma Forall2_column_is t d' (g : list scalar -> list scalar) dt c l :
  Forall2 (fun ca ca' => exists l, body (snd ca) = Arr1 l /\ body (snd ca') = Arr1 (g l))
          (_data t) d' ->
  same_columns (_data t) d' ->
  column_is t c l -> column_is {| _data := d'; _dtypes := dt |} c (g l).
Proof.
  unfold column_is, getitem_str. cbn [_data].
  intros HF HS (a & Ha & Hb). revert HS.
  induction HF as [|[k x] [k' x'] d d1 (l0 & Hl0 & Hl1) _ IH]; intros HS;
    simpl in *; [discriminate|].
  invert HS. destruct H2 as [Hk _]. simpl in Hk. subst k'.
  destruct (decide (c = k)).
  - invert Ha. exists x'. split; [reflexivity|]. rewrite Hb in Hl0. now invert Hl0.
  - apply IH; auto.
Qed.

(** *** Slices *)

Lemma walk_bound n fuel :
  forall i stop step,
    (if (0 <? step)%Z then (0 <= i /\ stop <= Z.of_nat n)%Z
     else (i < Z.of_nat n /\ -1 <= stop /\ step <= 0)%Z) ->
    Forall (fun k => k < n) (np.walk fuel i stop step).
Proof.
  induction fuel as [|fuel IH]; intros i stop step H; simpl; [constructor|].
  destruct (0 <? step)%Z eqn:Hs.
  - destruct (i <? stop)%Z eqn:Hi; [|constructor].
    apply Z.ltb_lt in Hs, Hi. constructor; [lia|]. apply IH.
    rewrite (proj2 (Z.ltb_lt _ _) Hs). lia.
  - destruct (stop <? i)%Z eqn:Hi; [|constructor].
    apply Z.ltb_lt in Hi. constructor; [lia|]. apply IH. rewrite Hs. lia.
Qed.

Lemma slice_indices_bound n start stop step ix :
  np.slice_indices n start stop step = inr ix -> Forall (fun k => k < n) ix.
Proof.
  unfold np.slice_indices. destruct (decide _) as [|Hne]; [discriminate|].
  intros H. invert H. apply walk_bound. unfold np.clamp.
  destruct (0 <? default 1 step)%Z eqn:Hs.
  - apply Z.ltb_lt in Hs. rewrite (proj2 (Z.ltb_ge _ _)) by lia.
    destruct start as [i|], stop as [j|];
      repeat match goal with |- context [(?x <? 0)%Z] => destruct (x <? 0)%Z eqn:? end;
      lia.
  - apply Z.ltb_ge in Hs. rewrite (proj2 (Z.ltb_lt _ _)) by lia.
    destruct start as [i|], stop as [j|];
      repeat match goal with |- context [(?x <? 0)%Z] => destruct (x <? 0)%Z eqn:? end;
      lia.
Qed.

Lemma length_pick {A} (l : list A) ix :
  Forall (fun k => k < length l) ix -> length (np.pick l ix) = length ix.
Proof.
  unfold np.pick. induction 1 as [|k ix Hk _ IH]; [reflexivity|]. simpl.
  destruct (lookup_lt_is_Some_2 l k Hk) as [x ->]. simpl. f_equal. exact IH.
Qed.

Lemma walk_up fuel :
  forall i, np.walk fuel (Z.of_nat i) (Z.of_nat (i + fuel)) 1 = seq i fuel.
Proof.
  induction fuel as [|fuel IH]; intros i; [reflexivity|]. simpl.
  rewrite (proj2 (Z.ltb_lt _ _)) by lia. rewrite Nat2Z.id. f_equal.
  replace (Z.of_nat i + 1)%Z with (Z.of_nat (S i)) by lia.
  replace (i + S fuel) with (S i + fuel) by lia. apply IH.
Qed.

Lemma full_slice_indices n : np.slice_indices n None None None = inr (seq 0 n).
Proof.
  unfold np.slice_indices. simpl. f_equal. exact (walk_up n 0).
Qed.

Lemma pick_all {A} (l : list A) : np.pick l (seq 0 (length l)) = l.
Proof.
  unfold np.pick. induction l as [|x l IH]; [reflexivity|].
  simpl. f_equal. rewrite <- seq_shift.
  rewrite <- IH at 2. clear IH. generalize (seq 0 (length l)) as ix.
  induction ix as [|k ix IH]; [reflexivity|]. simpl. now rewrite IH.
Qed.

Lemma mapM_columns_same (f : ndarray -> result ndarray) (d : list (string * ndarray)) :
  Forall (fun a => f a = inr a) (dict_values d) ->
  mapM (fun '(column, value) => let* v := f value in ret (column, v)) d = inr d.
Proof.
  induction d as [|[c a] d IH]; intros H; [reflexivity|]. simpl in *. invert H.
  rewrite H2. simpl. rewrite IH by assumption. reflexivity.
Qed.

Section selection.
Context {N : NumPy}.
Variable t : Tafra.
Variable n : nat.
Hypothesis t_1d : one_dimensional t.
Hypothesis t_rows : row_consistent t.
Hypothesis t_tags : tags_agree t.
Hypothesis Hn : rows t = inr n.

Lemma column_is_length c l : column_is t c l -> length l = n.
Proof.
  intros (a & Ha & Hb). unfold getitem_str in Ha.
  destruct (dict_get c (_data t)) as [a0|] eqn:Hg; invert Ha.
  pose proof (one_dimensional_len t n c a t_1d t_rows Hn Hg) as Hl.
  unfold np.flat in Hl. now rewrite Hb in Hl.
Qed.

(** A table made by taking [g l] for each column [l], all of one length. *)
Lemma select_columns (f : ndarray -> result ndarray) (g : list scalar -> list scalar) m :
  (forall a l, body a = Arr1 l -> length l = n ->
               f a = inr {| dtype := dtype a; body := Arr1 (g l) |}) ->
  (forall l, length l = n -> length (g l) = m) ->
  exists d',
    mapM (fun '(column, value) => let* v := f value in ret (column, v)) (_data t) = inr d' /\
    __init__ d' (_dtypes t) = inr {| _data := d'; _dtypes := _dtypes t |} /\
    dict_keys d' = dict_keys (_data t) /\
    (_data t <> [] -> rows {| _data := d'; _dtypes := _dtypes t |} = inr m) /\
    forall c l, column_is t c l -> column_is {| _data := d'; _dtypes := _dtypes t |} c (g l).
Proof.
  intros Hf Hg.
  pose proof (columns_arr1 t n t_1d t_rows Hn) as Hcols.
  destruct (mapM_columns f g (_data t)) as (d' & Hd' & Hs & Hb).
  { eapply Forall_impl; [exact Hcols|]. intros a (l & Hl & Hlen). eauto. }
  assert (Hlen : Forall (fun a => np.len a = inr m) (dict_values d')).
  { eapply Forall2_all_len; [exact Hb|]. intros [c a] l Hin Hl. apply Hg.
    rewrite Forall_forall in Hcols.
    destruct (Hcols a) as (l' & Hl' & Hn').
    - apply list_elem_of_In, in_map_iff. exists (c, a). auto.
    - simpl in Hl. rewrite Hl in Hl'. now invert Hl'. }
  exists d'. split; [exact Hd'|]. split; [eapply init_same_columns; eauto|].
  split; [now apply same_columns_keys|]. split.
  - intros Hne. apply rows_all_len; [|exact Hlen].
    intros ->. invert Hs. congruence.
  - intros c l. now apply Forall2_column_is.
Qed.

(** X10. Slicing a table of one-dimensional columns whose tags agree.
    The rows are those the slice walks through, taken from every column;
    the names, the order and the tags of the columns stay.  The whole
    slice [t[:]] is a table equal to [t].  A step of zero raises
    [ValueError], unless the table has no column: then there is nothing
    to slice and the table comes back. *)
Theorem slice_selects (start stop step : option Z) :
  (forall ix, np.slice_indices n start stop step = inr ix ->
     exists t', _slice start stop step t = inr t' /\
                _dtypes t' = _dtypes t /\ columns t' = columns t /\
                (_data t <> [] -> rows t' = inr (length ix)) /\
                forall c l, column_is t c l -> column_is t' c (np.pick l ix)) /\
  _slice None None None t = inr t /\
  (step = Some 0%Z -> _data t <> [] ->
   _slice start stop step t = inl (ValueError "slice step cannot be zero")) /\
  (_data t = [] -> _slice start stop step t = inr t).
Proof.
  split; [|split; [|split]].
  - intros ix Hix.
    destruct (select_columns (fun a => np.getitem_slice a start stop step)
                             (fun l => np.pick l ix) (length ix))
      as (d' & Hd' & Hinit & Hk & Hr & Hc).
    + intros a l Hl Hlen. unfold np.getitem_slice. rewrite Hl, Hlen, Hix. reflexivity.
    + intros l Hlen. apply length_pick. rewrite Hlen.
      eapply slice_indices_bound; eauto.
    + unfold _slice. rewrite Hd'. cbn [bind]. rewrite Hinit.
      eexists. split; [reflexivity|]. auto.
  - unfold _slice. rewrite mapM_columns_same; [cbn [bind]; now apply init_agree|].
    eapply Forall_impl; [exact (columns_arr1 t n t_1d t_rows Hn)|].
    intros [dt b] (l & Hl & Hlen). cbn [body] in Hl. subst b.
    unfold np.getitem_slice. cbn [body dtype].
    rewrite full_slice_indices. cbn [bind ret]. now rewrite pick_all.
  - intros -> Hne. unfold _slice.
    pose proof (columns_arr1 t n t_1d t_rows Hn) as Hcols.
    destruct (_data t) as [|[c a] d]; [congruence|].
    invert Hcols. destruct H1 as (l & Hl & _).
    rewrite (mapM_columns_error _ (ValueError "slice step cannot be zero")); [reflexivity|].
    unfold np.getitem_slice. rewrite Hl. reflexivity.
  - intros He. unfold _slice. rewrite He. cbn [mapM bind ret]. rewrite <- He.
    now apply init_agree.
Qed.

End selection.

(** *** Index arrays *)

Lemma map_truth_SBool (mask : list bool) : map np.truth (map SBool mask) = mask.
Proof. induction mask as [|b m IH]; simpl; [reflexivity | now rewrite IH]. Qed.

Lemma gather_in_range {A} (l : list A) (ix : list Z) :
  Forall (fun i => (- Z.of_nat (length l) <= i < Z.of_nat (length l))%Z) ix ->
  np.gather l (map SInt ix)
  = inr (np.pick l (map (fun i => Z.to_nat (i mod Z.of_nat (length l))) ix)).
Proof.
  unfold np.gather, np.pick. induction 1 as [|i ix Hi _ IH]; [reflexivity|].
  cbn [map mapM omap]. rewrite IH. clear IH.
  assert (Hk : np.axis_index (length l) i = inr (Z.to_nat (i mod Z.of_nat (length l)))).
  { unfold np.axis_index. destruct (0 <=? i)%Z eqn:H0.
    - apply Z.leb_le in H0. rewrite (proj2 (Z.ltb_lt _ _)) by lia. simpl.
      now rewrite Z.mod_small by lia.
    - apply Z.leb_gt in H0. simpl.
      rewrite (proj2 (Z.leb_le _ _)) by lia. rewrite (proj2 (Z.ltb_lt _ _)) by lia.
      simpl. do 2 f_equal.
      rewrite <- (Z.mod_add i 1) by lia. rewrite Z.mod_small by lia. lia. }
  rewrite Hk. cbn [bind].
  destruct (lookup_lt_is_Some_2 l (Z.to_nat (i mod Z.of_nat (length l)))) as [x Hx].
  { pose proof (Z.mod_pos_bound i (Z.of_nat (length l))). lia. }
  rewrite Hx. simpl. rewrite Hx. reflexivity.
Qed.

Lemma gather_out_of_range {A} (l : list A) (i : Z) (ix : list scalar) :
  ~ (- Z.of_nat (length l) <= i < Z.of_nat (length l))%Z ->
  np.gather l (SInt i :: ix) = inl (IndexError "index is out of bounds").
Proof.
  intros H. unfold np.gather. cbn [mapM]. unfold np.axis_index.
  destruct (0 <=? i)%Z eqn:H0.
  - apply Z.leb_le in H0. rewrite (proj2 (Z.ltb_ge _ _)) by lia. cbn.
    rewrite (proj2 (Z.ltb_ge _ _)) by lia. rewrite andb_false_r. reflexivity.
  - apply Z.leb_gt in H0. cbn. rewrite (proj2 (Z.leb_gt _ _)) by lia. reflexivity.
Qed.

Section index.
Context {N : NumPy}.
Variable t : Tafra.
Variable n : nat.
Hypothesis t_1d : one_dimensional t.
Hypothesis t_rows : row_consistent t.
Hypothesis t_tags : tags_agree t.
Hypothesis Hn : rows t = inr n.

Lemma index_by_mask mask :
  length mask = n ->
  exists t', _index (IterateBy.mask_array mask) t = inr t' /\
             _dtypes t' = _dtypes t /\ columns t' = columns t /\
             (_data t <> [] -> rows t' = inr (np.count_true mask)) /\
             forall c l, column_is t c l -> column_is t' c (np.select mask l).
Proof.
  intros Hm.
  destruct (select_columns t n t_1d t_rows t_tags Hn
              (fun a => np.getitem_array a "bool" (map SBool mask))
              (fun l => np.select mask l) (np.count_true mask))
    as (d' & Hd' & Hinit & Hk & Hr & Hc).
  - intros a l Hl Hlen. unfold np.getitem_array, np.getitem_mask.
    rewrite decide_True by reflexivity. rewrite map_truth_SBool, Hl.
    rewrite decide_True by congruence. reflexivity.
  - intros l Hlen. apply length_select_count. congruence.
  - unfold _index. cbn [IterateBy.mask_array body dtype]. rewrite Hd'. cbn [bind].
    rewrite Hinit. eexists. split; [reflexivity|]. auto.
Qed.

Lemma index_by_integers ix :
  Forall (fun i => (- Z.of_nat n <= i < Z.of_nat n)%Z) ix ->
  exists t', _index (int64_array ix) t = inr t' /\
             _dtypes t' = _dtypes t /\ columns t' = columns t /\
             (_data t <> [] -> rows t' = inr (length ix)) /\
             forall c l, column_is t c l ->
               column_is t' c (np.pick l (map (fun i => Z.to_nat (i mod Z.of_nat n)) ix)).
Proof.
  intros Hix.
  destruct (select_columns t n t_1d t_rows t_tags Hn
              (fun a => np.getitem_array a "int64" (map SInt ix))
              (fun l => np.pick l (map (fun i => Z.to_nat (i mod Z.of_nat n)) ix))
              (length ix))
    as (d' & Hd' & Hinit & Hk & Hr & Hc).
  - intros a l Hl Hlen. unfold np.getitem_array.
    rewrite decide_False by discriminate. cbn [np.is_integer_dtype].
    rewrite Hl. subst n. rewrite gather_in_range by exact Hix. reflexivity.
  - intros l Hlen. rewrite length_pick; [apply length_map|].
    apply Forall_forall. intros k Hk. apply list_elem_of_In, in_map_iff in Hk.
    destruct Hk as (i & <- & Hin). rewrite Hlen.
    rewrite Forall_forall in Hix. apply list_elem_of_In, Hix in Hin.
    pose proof (Z.mod_pos_bound i (Z.of_nat n)). lia.
  - unfold _index. cbn [int64_array body dtype]. rewrite Hd'. cbn [bind].
    rewrite Hinit. eexists. split; [reflexivity|]. auto.
Qed.

Lemma index_out_of_range :
  _data t <> [] ->
  (forall mask, length mask <> n ->
                exists msg, _index (IterateBy.mask_array mask) t = inl (IndexError msg)) /\
  (forall i ix, ~ (- Z.of_nat n <= i < Z.of_nat n)%Z ->
                exists msg, _index (int64_array (i :: ix)) t = inl (IndexError msg)).
Proof.
  intros Hne.
  pose proof (columns_arr1 t n t_1d t_rows Hn) as Hcols.
  destruct (_data t) as [|[c a] d] eqn:Hd; [congruence|].
  invert Hcols. destruct H1 as (l & Hl & Hlen). split.
  - intros mask Hm. unfold _index. cbn [IterateBy.mask_array body dtype]. rewrite Hd.
    rewrite (mapM_columns_error _
               (IndexError "boolean index did not match indexed array")); [eauto|].
    unfold np.getitem_array, np.getitem_mask.
    rewrite decide_True by reflexivity. rewrite map_truth_SBool, Hl.
    now rewrite decide_False by congruence.
  - intros i ix Hi. unfold _index. cbn [int64_array body dtype]. rewrite Hd.
    rewrite (mapM_columns_error _ (IndexError "index is out of bounds")); [eauto|].
    unfold np.getitem_array. rewrite decide_False by discriminate.
    cbn [np.is_integer_dtype]. rewrite Hl. cbn [map].
    rewrite gather_out_of_range by (rewrite Hlen; exact Hi). reflexivity.
Qed.

(** X11. Indexing a table of one-dimensional columns, whose tags agree,
    with an array.  A boolean mask as long as the table keeps the rows at
    its true positions, in every column, and the result has as many rows
    as the mask has true entries; integers within [-n, n) pick the rows
    they name, counting from the end when negative.  The names, the
    order and the tags of the columns stay.  An index that is not
    one-dimensional raises [ValueError]; on a table with a column, a mask
    of another length and an integer out of range raise [IndexError]. *)
Theorem index_selects :
  (forall mask, length mask = n ->
     exists t', _index (IterateBy.mask_array mask) t = inr t' /\
                _dtypes t' = _dtypes t /\ columns t' = columns t /\
                (_data t <> [] -> rows t' = inr (np.count_true mask)) /\
                forall c l, column_is t c l -> column_is t' c (np.select mask l)) /\
  (forall ix, Forall (fun i => (- Z.of_nat n <= i < Z.of_nat n)%Z) ix ->
     exists t', _index (int64_array ix) t = inr t' /\
                _dtypes t' = _dtypes t /\ columns t' = columns t /\
                (_data t <> [] -> rows t' = inr (length ix)) /\
                forall c l, column_is t c l ->
                  column_is t' c (np.pick l (map (fun i => Z.to_nat (i mod Z.of_nat n)) ix))) /\
  (forall index, np.ndim index <> 1 -> exists msg, _index index t = inl (ValueError msg)) /\
  (_data t <> [] ->
   (forall mask, length mask <> n ->
                 exists msg, _index (IterateBy.mask_array mask) t = inl (IndexError msg)) /\
   (forall i ix, ~ (- Z.of_nat n <= i < Z.of_nat n)%Z ->
                 exists msg, _index (int64_array (i :: ix)) t = inl (IndexError msg))).
Proof.
  split; [exact index_by_mask|]. split; [exact index_by_integers|].
  split; [|exact index_out_of_range].
  intros index Hnd. unfold _index. unfold np.ndim in Hnd.
  destruct (body index); [eauto | congruence | eauto].
Qed.

End index.

Lemma slice_selects_witness :
  (exists t', _slice (Some 1%Z) (Some 5%Z) (Some 2%Z) example_tafra = inr t' /\
              rows t' = inr 2 /\
              column_is t' "x" (map SInt [2; 4]%Z)) /\
  _slice None None None example_tafra = inr example_tafra /\
  _slice None None (Some 0%Z) example_tafra
  = inl (ValueError "slice step cannot be zero").
Proof.
  destruct (@slice_selects numpy example_tafra 6 example_one_dimensional
              example_row_consistent example_tags_agree eq_refl
              (Some 1%Z) (Some 5%Z) (Some 2%Z)) as (H1 & H2 & _).
  destruct (@slice_selects numpy example_tafra 6 example_one_dimensional
              example_row_consistent example_tags_agree eq_refl
              None None (Some 0%Z)) as (_ & _ & H3 & _).
  split; [|split; [exact H2 | apply H3; [reflexivity | discriminate]]].
  destruct (H1 [1; 3] eq_refl) as (t' & Ht' & _ & _ & Hr & Hc).
  exists t'. split; [exact Ht'|]. split; [apply Hr; discriminate|].
  apply (Hc "x" (map SInt [1; 2; 3; 4; 5; 6]%Z)).
  eexists. split; reflexivity.
Defined.

Lemma index_selects_witness :
  (exists t', _index (IterateBy.mask_array [true; false; true; false; false; false])
                     example_tafra = inr t' /\
              rows t' = inr 2 /\ column_is t' "x" (map SInt [1; 3]%Z)) /\
  (exists t', _index (int64_array [0; -1]%Z) example_tafra = inr t' /\
              rows t' = inr 2 /\ column_is t' "x" (map SInt [1; 6]%Z)) /\
  (exists msg, _index (int64_array [6]%Z) example_tafra = inl (IndexError msg)).
Proof.
  destruct (@index_selects numpy example_tafra 6 example_one_dimensional
              example_row_consistent example_tags_agree eq_refl)
    as (H1 & H2 & _ & H4).
  split; [|split].
  - destruct (H1 [true; false; true; false; false; false] eq_refl)
      as (t' & Ht' & _ & _ & Hr & Hc).
    exists t'. split; [exact Ht'|]. split; [apply Hr; discriminate|].
    apply (Hc "x" (map SInt [1; 2; 3; 4; 5; 6]%Z)). eexists. split; reflexivity.
  - destruct (H2 [0; -1]%Z) as (t' & Ht' & _ & _ & Hr & Hc).
    { repeat constructor; simpl; lia. }
    exists t'. split; [exact Ht'|]. split; [apply Hr; discriminate|].
    apply (Hc "x" (map SInt [1; 2; 3; 4; 5; 6]%Z)). eexists. split; reflexivity.
  - destruct (H4 ltac:(discriminate)) as [_ H]. apply (H 6%Z []). simpl. lia.
Defined.

(** ** Aggregations *)

(** *** [AggMethod._validate] *)

Lemma check_columns_ok (cols l : list string) :
  Forall (fun c => c ∈ cols) l ->
  foldM (fun (_ : unit) (col : string) =>
           if bool_decide (col ∈ cols) then ret tt
           else raise (KeyError (col +:+ " does not exist in tafra"))) l tt = inr tt.
Proof.
  induction 1 as [|c l Hc _ IH]; [reflexivity|]. simpl.
  now rewrite bool_decide_eq_true_2 by exact Hc.
Qed.

Lemma check_columns_missing (cols l : list string) c :
  In c l -> c ∉ cols ->
  exists col, In col l /\ (col ∉ cols) /\
    foldM (fun (_ : unit) (col : string) =>
             if bool_decide (col ∈ cols) then ret tt
             else raise (KeyError (col +:+ " does not exist in tafra"))) l tt
    = inl (KeyError (col +:+ " does not exist in tafra")).
Proof.
  intros Hin Hc. induction l as [|c' l IH]; [destruct Hin|]. simpl.
  destruct (decide (c' ∈ cols)) as [Hc'|Hc'].
  - rewrite bool_decide_eq_true_2 by exact Hc'. simpl.
    destruct Hin as [->|Hin]; [contradiction|].
    destruct (IH Hin) as (col & H1 & H2 & H3). exists col. auto.
  - rewrite bool_decide_eq_false_2 by exact Hc'. simpl. exists c'. auto.
Qed.

(** X12. [AggMethod._validate] passes exactly when every group-by
    column and every source column of an aggregation is a column of the
    table.  When it fails it raises [KeyError] for a column the table
    does not have, a group-by column if one is missing. *)
Theorem agg_validate_columns (self : AggMethod.t) (tafra : Tafra) :
  let sources := map snd (dict_values (AggMethod._aggregation self)) in
  (AggMethod._validate self tafra = inr tt <->
   Forall (fun c => c ∈ columns tafra) (AggMethod._group_by_cols self ++ sources)) /\
  (forall e, AggMethod._validate self tafra = inl e ->
     exists col, e = KeyError (col +:+ " does not exist in tafra") /\
                 (col ∉ columns tafra) /\
                 In col (AggMethod._group_by_cols self ++ sources) /\
                 (Exists (fun c => c ∉ columns tafra) (AggMethod._group_by_cols self) ->
                  In col (AggMethod._group_by_cols self))).
Proof.
  intros sources. unfold AggMethod._validate. fold sources.
  destruct (decide (Forall (fun c => c ∈ columns tafra) (AggMethod._group_by_cols self)))
    as [Hg|Hg].
  - rewrite (check_columns_ok _ _ Hg). cbn [bind].
    destruct (decide (Forall (fun c => c ∈ columns tafra) sources)) as [Hs|Hs].
    + rewrite (check_columns_ok _ _ Hs). split.
      * split; [intros _; now apply Forall_app | reflexivity].
      * discriminate.
    + apply not_Forall_Exists in Hs; [|intros c; apply _].
      apply Exists_exists in Hs as (c & Hc & Hnot). apply list_elem_of_In in Hc.
      destruct (check_columns_missing _ _ c Hc Hnot) as (col & H1 & H2 & H3).
      rewrite H3. split.
      * split; [discriminate|]. intros [_ HF]%Forall_app.
        rewrite Forall_forall in HF. exfalso. apply Hnot, HF. now apply list_elem_of_In.
      * intros e [= <-]. exists col. repeat split; auto.
        -- apply in_or_app. now right.
        -- intros Hex. apply Exists_exists in Hex as (c' & Hc' & Hn').
           rewrite Forall_forall in Hg. exfalso. apply Hn', Hg, Hc'.
  - apply not_Forall_Exists in Hg; [|intros c; apply _].
    apply Exists_exists in Hg as (c & Hc & Hnot). apply list_elem_of_In in Hc.
    destruct (check_columns_missing _ _ c Hc Hnot) as (col & H1 & H2 & H3).
    rewrite H3. cbn [bind]. split.
    + split; [discriminate|]. intros [HF _]%Forall_app.
      rewrite Forall_forall in HF. exfalso. apply Hnot, HF. now apply list_elem_of_In.
    + intros e [= <-]. exists col. repeat split; auto. apply in_or_app. now left.
Qed.

Lemma agg_validate_columns_witness :
  AggMethod._validate sum_x_agg example_tafra = inr tt /\
  exists col, AggMethod._validate group_by_w example_tafra
              = inl (KeyError (col +:+ " does not exist in tafra")).
Proof.
  split.
  - apply (agg_validate_columns sum_x_agg example_tafra).
    repeat constructor; apply list_elem_of_In; simpl; auto.
  - destruct (agg_validate_columns group_by_w example_tafra) as [_ H].
    destruct (H (KeyError "w does not exist in tafra") eq_refl) as (col & He & _).
    exists col. now rewrite <- He.
Defined.

(** *** [unique_groups] *)

Lemma fromkeys_fold_sublist keys :
  forall seen, exists s, fold_left fromkeys_step keys seen = (seen ++ s)%list /\
                         sublist s keys.
Proof.
  induction keys as [|k keys IH]; intros seen; simpl.
  - exists []. split; [now rewrite app_nil_r | constructor].
  - unfold fromkeys_step at 2. destruct (existsb _ seen).
    + destruct (IH seen) as (s & -> & Hs). exists s. split; [reflexivity|].
      now apply sublist_cons.
    + destruct (IH (seen ++ [k])%list) as (s & -> & Hs). exists (k :: s).
      split; [now rewrite <- app_assoc | now apply sublist_skip].
Qed.

Lemma fromkeys_sublist keys : sublist (fromkeys keys) keys.
Proof.
  rewrite fromkeys_fold. destruct (fromkeys_fold_sublist keys []) as (s & -> & Hs).
  exact Hs.
Qed.

Lemma transpose_map_Elem n (cd : list (list scalar)) :
  transpose n (map (map Elem) cd) = map (map Elem) (transpose n cd).
Proof.
  induction cd as [|c cd IH]; simpl.
  - induction n as [|n IHn]; simpl; [reflexivity | now rewrite IHn].
  - rewrite IH. generalize (transpose n cd) as T. clear IH.
    induction c as [|x c IHc]; intros [|k T]; simpl; try reflexivity.
    now rewrite IHc.
Qed.

Lemma mapM_hashable_rows (keys : list (list scalar)) :
  mapM (mapM hashable) (map (map Elem) keys) = inr keys.
Proof.
  induction keys as [|k keys IH]; [reflexivity|]. simpl.
  rewrite mapM_hashable_Elem. simpl. now rewrite IH.
Qed.

Lemma columns_of_names tafra n cols :
  one_dimensional tafra -> row_consistent tafra -> rows tafra = inr n ->
  Forall (fun c => c ∈ columns tafra) cols ->
  exists cd arrays,
    mapM (fun col => getitem_str col tafra) cols = inr arrays /\
    mapM np_iter arrays = inr (map (map Elem) cd) /\
    Forall2 (column_is tafra) cols cd /\ Forall (fun l => length l = n) cd.
Proof.
  intros H1 Hrc Hn. induction 1 as [|c cols Hc _ IH].
  - exists [], []. repeat split; constructor.
  - destruct IH as (cd & arrays & Hget & Hit & Hcd & Hlen).
    apply dict_get_of_key in Hc as [a Ha].
    pose proof (columns_arr1 tafra n H1 Hrc Hn) as Hcols.
    rewrite Forall_forall in Hcols.
    destruct (Hcols a) as (l & Hl & Hln).
    { apply list_elem_of_In. eapply dict_get_values; eauto. }
    assert (Hg : getitem_str c tafra = inr a) by (unfold getitem_str; now rewrite Ha).
    exists (l :: cd), (a :: arrays). cbn [mapM map]. rewrite Hg, Hget. cbn [bind ret].
    unfold np_iter at 1. rewrite Hl, Hit. cbn [bind ret].
    repeat split; constructor; auto. exists a. auto.
Qed.

Lemma unique_groups_total self tafra n :
  AggMethod._group_by_cols self <> [] ->
  one_dimensional tafra -> row_consistent tafra -> rows tafra = inr n ->
  Forall (fun c => c ∈ columns tafra) (AggMethod._group_by_cols self) ->
  exists cd,
    Forall2 (column_is tafra) (AggMethod._group_by_cols self) cd /\
    Forall (fun l => length l = n) cd /\
    AggMethod.unique_groups self tafra = inr (fromkeys (transpose n cd)).
Proof.
  intros Hne H1 Hrc Hn Hcols.
  destruct (columns_of_names tafra n _ H1 Hrc Hn Hcols)
    as (cd & arrays & Hget & Hit & Hcd & Hlen).
  exists cd. split; [exact Hcd|]. split; [exact Hlen|].
  unfold AggMethod.unique_groups. rewrite Hget. cbn [bind]. rewrite Hit. cbn [bind].
  rewrite (zip_star_transpose n).
  - rewrite transpose_map_Elem, mapM_hashable_rows. reflexivity.
  - intros Hnil. apply map_eq_nil in Hnil. subst cd. invert Hcd. congruence.
  - apply Forall_forall. intros it Hit'. apply list_elem_of_In, in_map_iff in Hit'.
    destruct Hit' as (l & <- & Hl). rewrite length_map.
    rewrite Forall_forall in Hlen. apply Hlen. now apply list_elem_of_In.
Qed.

Lemma transpose_self_equal tafra n cols cd :
  group_values_self_equal tafra cols ->
  Forall2 (column_is tafra) cols cd ->
  Forall (fun k => tuple_eqb k k = true) (transpose n cd).
Proof.
  intros Hself Hcd.
  eapply Forall_impl; [|intros k; apply tuple_eqb_refl].
  apply transpose_Forall. apply Forall_forall. intros l Hl%list_elem_of_In.
  destruct (Forall2_In_l _ _ _ _ Hcd Hl) as (col & Hcol & a & Ha & Hb).
  specialize (Hself col a Hcol Ha). unfold np.flat in Hself. now rewrite Hb in Hself.
Qed.

Lemma increasing_snoc l x :
  increasing l -> Forall (fun i => i < x) l -> increasing (l ++ [x]).
Proof.
  induction l as [|i l IH]; cbn [increasing app]; intros Hinc Hlt.
  - split; [constructor | exact I].
  - destruct Hinc as [Hi Hl]. apply Forall_cons in Hlt as [Hix Hlx]. split.
    + apply Forall_app. split; [exact Hi | repeat constructor; exact Hix].
    + apply IH; assumption.
Qed.

(** The loop of [fromkeys]: with the keys [pre] gone through and the
    first occurrences among them in [seen], going through [rest] leaves
    the first occurrences of all the keys. *)
Lemma fromkeys_fold_first keys :
  forall rest pre seen firsts,
    keys = (pre ++ rest)%list ->
    Forall (fun k => tuple_eqb k k = true) rest ->
    increasing firsts -> Forall (fun i => i < length pre) firsts ->
    Forall2 (first_at keys) firsts seen ->
    (forall k, In k pre -> exists s, In s seen /\ tuple_eqb s k = true) ->
    first_occurrences keys (fold_left fromkeys_step rest seen).
Proof.
  induction rest as [|k rest IH]; intros pre seen firsts Hk Hrefl Hinc Hlt HF Hcov.
  - rewrite app_nil_r in Hk. subst pre. exists firsts. auto.
  - apply Forall_cons in Hrefl as [Hkk Hrest].
    assert (Hk' : keys = ((pre ++ [k]) ++ rest)%list) by (now rewrite <- app_assoc).
    assert (Hlt' : Forall (fun i => i < length (pre ++ [k])) firsts).
    { eapply Forall_impl; [exact Hlt|]. intros i Hi. rewrite length_app. simpl in *. lia. }
    cbn [fold_left]. unfold fromkeys_step at 2.
    destruct (existsb (fun s => tuple_eqb s k) seen) eqn:Hex.
    + apply (IH (pre ++ [k])%list seen firsts); auto.
      intros k' [Hin|[<-|[]]]%in_app_or; [auto|].
      apply existsb_true_In in Hex as (s & Hs & Hsk). eauto.
    + apply existsb_false_Forall in Hex. rewrite Forall_forall in Hex.
      apply (IH (pre ++ [k])%list (seen ++ [k])%list (firsts ++ [length pre])%list); auto.
      * apply increasing_snoc; assumption.
      * apply Forall_app. split; [exact Hlt'|].
        repeat constructor. rewrite length_app. simpl. lia.
      * apply Forall2_app; [exact HF|]. repeat constructor.
        -- rewrite Hk. now rewrite list_lookup_middle.
        -- intros j k' Hj Hjk. rewrite Hk, lookup_app_l in Hjk by exact Hj.
           apply list_elem_of_lookup_2, list_elem_of_In in Hjk.
           destruct (Hcov k' Hjk) as (s & Hs & Hsk').
           destruct (tuple_eqb k' k) eqn:Hkk'; [|reflexivity].
           apply list_elem_of_In, Hex in Hs.
           now rewrite (tuple_eqb_trans _ _ _ Hsk' Hkk') in Hs.
      * intros k' [Hin|[<-|[]]]%in_app_or.
        -- destruct (Hcov k' Hin) as (s & Hs & Hsk). exists s. split; [|exact Hsk].
           apply in_or_app. now left.
        -- exists k. split; [|exact Hkk]. apply in_or_app. right. now left.
Qed.

Lemma fromkeys_first keys :
  Forall (fun k => tuple_eqb k k = true) keys -> first_occurrences keys (fromkeys keys).
Proof.
  intros Hrefl. rewrite fromkeys_fold.
  apply (fromkeys_fold_first keys keys [] [] []); auto; try constructor.
  intros k [].
Qed.

(** A first occurrence is among the positions of a list of first
    occurrences. *)
Lemma first_at_listed keys firsts unique i k :
  Forall2 (first_at keys) firsts unique ->
  (forall k, In k keys -> exists u, In u unique /\ tuple_eqb u k = true) ->
  first_at keys i k -> In i firsts.
Proof.
  intros HF Hcov [Hik Hfirst].
  assert (Hin : In k keys) by (eapply list_elem_of_In, list_elem_of_lookup_2; eauto).
  destruct (Hcov k Hin) as (u & Hu & Huk).
  apply list_elem_of_In, list_elem_of_lookup_1 in Hu as [p Hp].
  destruct (Forall2_lookup_r _ _ _ _ _ HF Hp) as (i' & Hi' & Hiu & Hfirst').
  assert (i' = i) as <-.
  { destruct (Nat.lt_trichotomy i' i) as [Hlt|[Heq|Hgt]]; [|exact Heq|].
    - now rewrite (Hfirst i' u Hlt Hiu) in Huk.
    - specialize (Hfirst' i k Hgt Hik). rewrite tuple_eqb_sym in Hfirst'.
      now rewrite Hfirst' in Huk. }
  eapply list_elem_of_In, list_elem_of_lookup_2; eauto.
Qed.

Lemma increasing_same_elements l :
  forall l', increasing l -> increasing l' -> (forall i, In i l <-> In i l') -> l = l'.
Proof.
  induction l as [|x l IH]; intros [|y l'] Hl Hl' Heq.
  - reflexivity.
  - destruct (proj2 (Heq y)); now left.
  - destruct (proj1 (Heq x)); now left.
  - cbn [increasing] in Hl, Hl'. destruct Hl as [Hx Hl]. destruct Hl' as [Hy Hl'].
    rewrite Forall_forall in Hx, Hy.
    assert (x = y) as <-.
    { destruct (proj1 (Heq x) (or_introl eq_refl)) as [->|Hxl']; [reflexivity|].
      destruct (proj2 (Heq y) (or_introl eq_refl)) as [->|Hyl]; [reflexivity|].
      apply list_elem_of_In, Hy in Hxl'. apply list_elem_of_In, Hx in Hyl. lia. }
    f_equal. apply IH; auto. intros i. split; intros Hi.
    + destruct (proj1 (Heq i) (or_intror Hi)) as [<-|]; [|assumption].
      apply list_elem_of_In, Hx in Hi. lia.
    + destruct (proj2 (Heq i) (or_intror Hi)) as [<-|]; [|assumption].
      apply list_elem_of_In, Hy in Hi. lia.
Qed.

(** There is one list of the keys by first occurrence. *)
Lemma first_occurrences_unique keys unique unique' :
  first_occurrences keys unique -> first_occurrences keys unique' -> unique' = unique.
Proof.
  intros (firsts & Hinc & HF & Hcov) (firsts' & Hinc' & HF' & Hcov').
  assert (Hsame : firsts' = firsts).
  { apply increasing_same_elements; auto. intros i. split; intros Hi.
    - apply list_elem_of_In, list_elem_of_lookup_1 in Hi as [p Hp].
      destruct (Forall2_lookup_l _ _ _ _ _ HF' Hp) as (u & _ & Hu).
      eapply first_at_listed; eauto.
    - apply list_elem_of_In, list_elem_of_lookup_1 in Hi as [p Hp].
      destruct (Forall2_lookup_l _ _ _ _ _ HF Hp) as (u & _ & Hu).
      eapply first_at_listed; eauto. }
  subst firsts'. clear Hinc Hinc' Hcov Hcov'. revert unique' HF'.
  induction HF as [|i u firsts unique [Hiu _] _ IH]; intros unique' HF'.
  - now inversion HF'.
  - inversion HF' as [|? u' ? us' [Hiu' _] Hrest]; subst.
    rewrite Hiu in Hiu'. injection Hiu' as <-. f_equal. now apply IH.
Qed.

(** X13. The unique groups of a table of one-dimensional columns, for
    group-by columns that the table has and that hold no [nan].  With
    [keys] the tuples of the group-by values of the rows, in row order:
    [unique_groups] returns the keys by first occurrence.  Each of its
    groups is the key of a row that no row with an equal key precedes,
    the groups stand in the order of these rows, and the key of every
    row equals one of them; no two of the groups are equal; and no
    other list is like this. *)
Theorem unique_groups_first_occurrences (self : AggMethod.t) (tafra : Tafra) (n : nat) :
  AggMethod._group_by_cols self <> [] ->
  one_dimensional tafra -> row_consistent tafra -> rows tafra = inr n ->
  Forall (fun c => c ∈ columns tafra) (AggMethod._group_by_cols self) ->
  group_values_self_equal tafra (AggMethod._group_by_cols self) ->
  exists cd unique,
    Forall2 (column_is tafra) (AggMethod._group_by_cols self) cd /\
    AggMethod.unique_groups self tafra = inr unique /\
    first_occurrences (transpose n cd) unique /\
    distinct_keys unique /\
    forall unique', first_occurrences (transpose n cd) unique' -> unique' = unique.
Proof.
  intros Hne H1 Hrc Hn Hcols Hself.
  destruct (unique_groups_total self tafra n Hne H1 Hrc Hn Hcols) as (cd & Hcd & Hlen & Hu).
  exists cd, (fromkeys (transpose n cd)). split; [exact Hcd|]. split; [exact Hu|].
  assert (Hrefl : Forall (fun k => tuple_eqb k k = true) (transpose n cd)).
  { eapply transpose_self_equal; eauto. }
  pose proof (fromkeys_first _ Hrefl) as Hfirst.
  split; [exact Hfirst|]. split.
  - now destruct (fromkeys_spec (transpose n cd) Hrefl) as (Hd & _).
  - intros unique' Hu'. eapply first_occurrences_unique; eauto.
Qed.

Lemma unique_groups_first_occurrences_witness :
  AggMethod.unique_groups example_agg example_tafra
  = inr [[str_one; SInt 0]; [str_two; SInt 0]; [str_two; SInt 1]; [str_one; SInt 1]] /\
  exists cd unique,
    Forall2 (column_is example_tafra) ["y"; "z"] cd /\
    AggMethod.unique_groups example_agg example_tafra = inr unique /\
    first_occurrences (transpose 6 cd) unique /\
    distinct_keys unique /\
    forall unique', first_occurrences (transpose 6 cd) unique' -> unique' = unique.
Proof.
  split; [vm_compute; reflexivity|].
  apply (unique_groups_first_occurrences example_agg example_tafra 6).
  - discriminate.
  - exact example_one_dimensional.
  - exact example_row_consistent.
  - reflexivity.
  - repeat constructor; apply list_elem_of_In; simpl; auto.
  - exact example_self_equal.
Defined.

(** *** [IterateBy] *)

Lemma agg_validate_group_cols self tafra :
  AggMethod._validate self tafra = inr tt ->
  Forall (fun c => c ∈ columns tafra) (AggMethod._group_by_cols self).
Proof.
  unfold AggMethod._validate. intros H.
  destruct (decide (Forall (fun c => c ∈ columns tafra) (AggMethod._group_by_cols self)))
    as [Hg|Hg]; [exact Hg|].
  apply not_Forall_Exists in Hg; [|intros c; apply _].
  apply Exists_exists in Hg as (c & Hc & Hnot). apply list_elem_of_In in Hc.
  destruct (check_columns_missing _ _ c Hc Hnot) as (col & _ & _ & H3).
  rewrite H3 in H. discriminate.
Qed.

Lemma result_factory_total self (fn : string -> string -> result ndarray) :
  (forall rename col, exists a, fn rename col = inr a) ->
  exists res, AggMethod.result_factory self fn = inr res.
Proof.
  intros Hfn. unfold AggMethod.result_factory.
  generalize (map (fun col => (col, col)) (AggMethod._group_by_cols self)
              ++ map (fun '(rename, agg) => (rename, snd agg))
                     (AggMethod._aggregation self))%list as pairs.
  intros pairs.
  assert (H : exists items, mapM (fun '(rename, col) =>
                                    let* a := fn rename col in ret (rename, a)) pairs
                            = inr items).
  { induction pairs as [|[r c] pairs [items IH]]; [simpl; eauto|].
    simpl. destruct (Hfn r c) as [a ->]. simpl. rewrite IH. simpl. eauto. }
  destruct H as [items ->]. simpl. eauto.
Qed.

Section iterate.
Context {N : NumPy}.
Variable self : AggMethod.t.
Variable tafra : Tafra.
Variable n : nat.
Variable cd : list (list scalar).
Hypothesis t_1d : one_dimensional tafra.
Hypothesis t_rows : row_consistent tafra.
Hypothesis t_tags : tags_agree tafra.
Hypothesis Hn : rows tafra = inr n.
Hypothesis Hcd : Forall2 (column_is tafra) (AggMethod._group_by_cols self) cd.
Hypothesis Hlen : Forall (fun l => length l = n) cd.

Lemma iterate_group i u :
  length u = length (AggMethod._group_by_cols self) ->
  exists t',
    IterateBy.group self tafra (i, u)
    = inr (map (fun k => tuple_eqb k u) (transpose n cd), (i, t')) /\
    _index (IterateBy.mask_array (map (fun k => tuple_eqb k u) (transpose n cd))) tafra
    = inr t' /\
    (_data tafra <> [] ->
     rows t' = inr (np.count_true (map (fun k => tuple_eqb k u) (transpose n cd)))).
Proof.
  intros Hu.
  pose proof (which_rows_of_arr1 tafra n _ cd u Hn Hcd Hlen Hu) as Hw.
  unfold which_rows_of in Hw. unfold IterateBy.group.
  destruct (all_rows tafra) as [e|w0]; [discriminate|]. cbn [bind] in *.
  destruct (result_factory_total self
              (fun _ _ => ret (np.empty (np.count_true w0) "float64"))) as [res ->];
    [eauto|]. cbn [bind]. rewrite Hw. cbn [bind].
  destruct (index_by_mask tafra n t_1d t_rows t_tags Hn
              (map (fun k => tuple_eqb k u) (transpose n cd)))
    as (t' & Ht' & _ & _ & Hr & _).
  { rewrite length_map. now apply transpose_length. }
  rewrite Ht'. cbn [bind ret]. eauto.
Qed.

Lemma yield_groups_run us :
  Forall (fun u => length u = length (AggMethod._group_by_cols self)) us ->
  forall k, exists ys,
    IterateBy.yield_groups self tafra (zip (seq k (length us)) us) = (ys, None) /\
    map fst ys = key_masks (transpose n cd) us /\
    map (fun y => fst (snd y)) ys = seq k (length us) /\
    Forall (fun y => _index (IterateBy.mask_array (fst y)) tafra = inr (snd (snd y)) /\
                     (_data tafra <> [] ->
                      rows (snd (snd y)) = inr (np.count_true (fst y)))) ys.
Proof.
  induction 1 as [|u us Hu _ IH]; intros k.
  - exists []. repeat split; constructor.
  - destruct (iterate_group k u Hu) as (t' & Hg & Hi & Hr).
    destruct (IH (S k)) as (ys & Hys & Hm & Hix & HF).
    cbn [length seq zip zip_with IterateBy.yield_groups].
    change (zip_with pair (seq (S k) (length us)) us) with (zip (seq (S k) (length us)) us).
    rewrite Hg, Hys. eexists. split; [reflexivity|]. cbn [map fst snd]. repeat split.
    + unfold key_masks in *. cbn [map]. now rewrite Hm.
    + now rewrite Hix.
    + constructor; [split; assumption | exact HF].
Qed.

End iterate.

Lemma columns_nonempty tafra cols :
  cols <> [] -> Forall (fun c => c ∈ columns tafra) cols -> _data tafra <> [].
Proof.
  intros Hne HF Hd. destruct cols as [|c cols]; [congruence|]. invert HF.
  unfold columns in H1. rewrite Hd in H1. now apply elem_of_nil in H1.
Qed.

Lemma unique_key_lengths {A} n (cd : list (list A)) unique :
  (forall u, In u unique -> In u (transpose n cd)) ->
  Forall (fun u => length u = length cd) unique.
Proof.
  intros Hsub. apply Forall_forall. intros u Hu%list_elem_of_In.
  pose proof (transpose_key_length n cd) as HT. rewrite Forall_forall in HT.
  apply HT, list_elem_of_In, Hsub, Hu.
Qed.

(** X15. [IterateBy] on a table of one-dimensional columns whose tags
    agree, grouped by columns it has that hold no [nan]: the generator
    runs to its end without raising; it yields the groups numbered from
    zero, each with the table [tafra[which_rows]] of its mask, which has
    as many rows as the mask has true entries; and the masks partition
    the rows, so the sub-tables have the rows of the table between
    them, each row once. *)
Theorem iterate_by_partitions {N : NumPy} (self : AggMethod.t) (tafra : Tafra) (n : nat) :
  AggMethod._group_by_cols self <> [] ->
  one_dimensional tafra -> row_consistent tafra -> tags_agree tafra ->
  rows tafra = inr n ->
  AggMethod._validate self tafra = inr tt ->
  group_values_self_equal tafra (AggMethod._group_by_cols self) ->
  exists ys,
    IterateBy.run self tafra = (ys, None) /\
    IterateBy.apply self tafra = (map snd ys, None) /\
    map (fun y => fst (snd y)) ys = seq 0 (length ys) /\
    partition_rows n (map fst ys) /\
    Forall (fun y => _index (IterateBy.mask_array (fst y)) tafra = inr (snd (snd y)) /\
                     rows (snd (snd y)) = inr (np.count_true (fst y))) ys.
Proof.
  intros Hne H1 Hrc Htags Hn Hval Hself.
  pose proof (agg_validate_group_cols _ _ Hval) as Hcols.
  destruct (unique_groups_total self tafra n Hne H1 Hrc Hn Hcols) as (cd & Hcd & Hlen & Hu).
  pose proof (transpose_self_equal tafra n _ cd Hself Hcd) as Hrefl.
  destruct (fromkeys_spec _ Hrefl) as (_ & Hsub & _).
  pose proof (unique_key_lengths n cd _ Hsub) as Hul.
  rewrite <- (Forall2_length _ _ _ Hcd) in Hul.
  destruct (yield_groups_run self tafra n cd H1 Hrc Htags Hn Hcd Hlen _ Hul 0)
    as (ys & Hys & Hm & Hix & HF).
  assert (Hrun : IterateBy.run self tafra = (ys, None)).
  { unfold IterateBy.run. rewrite Hval. cbn [bind]. rewrite Hu. exact Hys. }
  exists ys. split; [exact Hrun|]. split; [unfold IterateBy.apply; now rewrite Hrun|].
  assert (Hly : length ys = length (fromkeys (transpose n cd))).
  { rewrite <- (length_map fst ys), Hm. unfold key_masks. now rewrite length_map. }
  split; [now rewrite Hly|]. split.
  - rewrite Hm. rewrite <- (transpose_length n cd Hlen) at 1.
    now apply key_masks_partition.
  - eapply Forall_impl; [exact HF|]. intros y [Hi Hr]. split; [exact Hi|].
    apply Hr. eapply columns_nonempty; eauto.
Qed.

Lemma iterate_by_partitions_witness :
  exists ys,
    IterateBy.run example_agg example_tafra = (ys, None) /\
    IterateBy.apply example_agg example_tafra = (map snd ys, None) /\
    map (fun y => fst (snd y)) ys = seq 0 (length ys) /\
    partition_rows 6 (map fst ys) /\
    Forall (fun y => _index (IterateBy.mask_array (fst y)) example_tafra
                     = inr (snd (snd y)) /\
                     rows (snd (snd y)) = inr (np.count_true (fst y))) ys.
Proof.
  apply (@iterate_by_partitions numpy example_agg example_tafra 6).
  - discriminate.
  - exact example_one_dimensional.
  - exact example_row_consistent.
  - exact example_tags_agree.
  - reflexivity.
  - reflexivity.
  - exact example_self_equal.
Defined.

(** *** [GroupBy]: what the result holds *)

Section stores.
Context {N : NumPy}.

(** One store [result[c][i] = v]. *)
Lemma store_cell U res c i v r r' :
  AggMethod.result_at c res = inr r -> setitem_int r i v = inr r' ->
  cell_holds (dict_set c r' res) c i v /\
  (forall name i0 v0, name <> c \/ i0 <> i ->
                      cell_holds res name i0 v0 -> cell_holds (dict_set c r' res) name i0 v0) /\
  dict_keys (dict_set c r' res) = dict_keys res /\
  same_dtypes res (dict_set c r' res) /\
  (shaped U res -> shaped U (dict_set c r' res)).
Proof.
  unfold AggMethod.result_at, setitem_int. intros Hr Hs.
  destruct (dict_get c res) as [r0|] eqn:Hg; invert Hr.
  destruct (body r) as [|l|] eqn:Hb; try discriminate.
  destruct (decide (i < length l)) as [Hi|]; [|discriminate].
  bind_inv Hs as v' Hv'. invert Hs. split; [|split; [|split; [|split]]].
  - exists {| dtype := dtype r; body := Arr1 (<[i:=v']> l) |}, (<[i:=v']> l), v'.
    rewrite dict_get_set_eq. repeat split; auto. now apply list_lookup_insert_eq.
  - intros name i0 v0 Hne (a & l0 & v0' & Ha & Hl0 & Hc & Hi0).
    destruct (decide (name = c)) as [->|Hn].
    + destruct Hne as [|Hne]; [congruence|]. rewrite Hg in Ha. invert Ha.
      rewrite Hb in Hl0. invert Hl0.
      exists {| dtype := dtype a; body := Arr1 (<[i:=v']> l0) |}, (<[i:=v']> l0), v0'.
      rewrite dict_get_set_eq. repeat split; auto.
      rewrite list_lookup_insert_ne by congruence. exact Hi0.
    + exists a, l0, v0'. rewrite dict_get_set_ne by congruence. auto.
  - eapply dict_keys_set_present; eauto.
  - intros name a' Ha'. destruct (decide (name = c)) as [->|Hn].
    + rewrite dict_get_set_eq in Ha'. invert Ha'. eauto.
    + rewrite dict_get_set_ne in Ha' by congruence. eauto.
  - intros Hsh. unfold shaped in *. apply dict_values_set_Forall; [|exact Hsh].
    rewrite Forall_forall in Hsh. destruct (Hsh r) as (l1 & Hl1 & Hlen).
    { apply list_elem_of_In. eapply dict_get_values; eauto. }
    rewrite Hb in Hl1. invert Hl1.
    exists (<[i:=v']> l1). split; [reflexivity | now rewrite length_insert].
Qed.

Variable tafra : Tafra.
Variable i : nat.

(** The loop over the group-by columns for the group [i]. *)
Lemma group_keys_fold U zs :
  NoDup (map snd zs) ->
  forall w res w' res',
    foldM (fun '(which_rows, res) '(val, col) =>
             let* which_rows := mask_step tafra which_rows (val, col) in
             let* r := AggMethod.result_at col res in
             let* r' := setitem_int r i val in
             ret (which_rows, dict_set col r' res)) zs (w, res) = inr (w', res') ->
    (forall name i0 v0, ~ In name (map snd zs) \/ i0 <> i ->
                        cell_holds res name i0 v0 -> cell_holds res' name i0 v0) /\
    (forall val col, In (val, col) zs -> cell_holds res' col i val) /\
    dict_keys res' = dict_keys res /\
    same_dtypes res res' /\
    (shaped U res -> shaped U res').
Proof.
  induction zs as [|[val col] zs IH]; intros Hnd w res w' res' H.
  - invert H. repeat split; auto; [intros ? ? [] | intros name a' Ha'; eauto].
  - cbn [foldM] in H. bind_inv H as wr Hstep. destruct wr as [w1 res1].
    bind_inv Hstep as w2 Hw2. bind_inv Hstep as r Hr. bind_inv Hstep as r' Hr'.
    invert Hstep. cbn [map snd] in Hnd. apply NoDup_cons in Hnd as [Hnin Hnd].
    destruct (store_cell U _ _ _ _ _ _ Hr Hr') as (Hset & Hkeep & Hkeys & Hdt & Hsh).
    destruct (IH Hnd _ _ _ _ H) as (IHkeep & IHset & IHkeys & IHdt & IHsh).
    split; [|split; [|split; [|split]]].
    + intros name i0 v0 Hne Hc. apply IHkeep.
      * destruct Hne as [Hne|Hne]; [left | now right]. intros Hin. apply Hne. now right.
      * apply Hkeep; [|exact Hc].
        destruct Hne as [Hne|Hne]; [left | now right]. intros ->. apply Hne. now left.
    + intros val' col' [Heq|Hin].
      * invert Heq. apply IHkeep; [|exact Hset]. left.
        intros Hin. apply Hnin. now apply list_elem_of_In.
      * now apply IHset.
    + congruence.
    + intros name a' Ha'. destruct (IHdt _ _ Ha') as (a1 & Ha1 & E1).
      destruct (Hdt _ _ Ha1) as (a0 & Ha0 & E0). exists a0. split; [exact Ha0 | congruence].
    + auto.
Qed.

(** The loop over the aggregations for the group [i], whose mask is [w]. *)
Lemma group_aggs_fold U w ags :
  NoDup (map fst ags) ->
  forall res res',
    foldM (fun res '(rename, (fn, col)) =>
             let* a := getitem_str col tafra in
             let* sub := np.getitem_mask a w in
             let* v := fn sub in
             let* r := AggMethod.result_at rename res in
             let* r' := setitem_int r i v in
             ret (dict_set rename r' res)) ags res = inr res' ->
    (forall name i0 v0, ~ In name (map fst ags) \/ i0 <> i ->
                        cell_holds res name i0 v0 -> cell_holds res' name i0 v0) /\
    (forall rename fn col, In (rename, (fn, col)) ags ->
       exists v, aggregate_is tafra w fn col v /\ cell_holds res' rename i v) /\
    dict_keys res' = dict_keys res /\
    same_dtypes res res' /\
    (shaped U res -> shaped U res').
Proof.
  induction ags as [|[rename [fn col]] ags IH]; intros Hnd res res' H.
  - invert H. repeat split; auto; [intros ? ? ? [] | intros name a' Ha'; eauto].
  - cbn [foldM] in H. bind_inv H as res1 Hstep.
    bind_inv Hstep as a Ha. bind_inv Hstep as sub Hsub. bind_inv Hstep as v Hv.
    bind_inv Hstep as r Hr. bind_inv Hstep as r' Hr'. invert Hstep.
    cbn [map fst] in Hnd. apply NoDup_cons in Hnd as [Hnin Hnd].
    destruct (store_cell U _ _ _ _ _ _ Hr Hr') as (Hset & Hkeep & Hkeys & Hdt & Hsh).
    destruct (IH Hnd _ _ H) as (IHkeep & IHset & IHkeys & IHdt & IHsh).
    split; [|split; [|split; [|split]]].
    + intros name i0 v0 Hne Hc. apply IHkeep.
      * destruct Hne as [Hne|Hne]; [left | now right]. intros Hin. apply Hne. now right.
      * apply Hkeep; [|exact Hc].
        destruct Hne as [Hne|Hne]; [left | now right]. intros ->. apply Hne. now left.
    + intros rename' fn' col' [Heq|Hin].
      * invert Heq. exists v. split; [exists a, sub; auto|].
        apply IHkeep; [|exact Hset]. left.
        intros Hin. apply Hnin. now apply list_elem_of_In.
      * now apply IHset.
    + congruence.
    + intros name a' Ha'. destruct (IHdt _ _ Ha') as (a1 & Ha1 & E1).
      destruct (Hdt _ _ Ha1) as (a0 & Ha0 & E0). exists a0. split; [exact Ha0 | congruence].
    + auto.
Qed.

End stores.

Lemma zip_lookup_In {A B} (xs : list A) (ys : list B) j x y :
  xs !! j = Some x -> ys !! j = Some y -> In (x, y) (zip xs ys).
Proof.
  revert ys j. induction xs as [|x0 xs IH]; intros [|y0 ys] [|j]; simpl; try discriminate.
  - intros [= ->] [= ->]. now left.
  - intros Hx Hy. right. eauto.
Qed.

Lemma map_snd_zip {A B} (xs : list A) (ys : list B) :
  length xs = length ys -> map snd (zip xs ys) = ys.
Proof.
  revert ys. induction xs as [|x xs IH]; intros [|y ys]; simpl; try discriminate; auto.
  intros [= H]. now rewrite IH.
Qed.

Section group_by_rows.
Context {N : NumPy}.
Variable self : AggMethod.t.
Variable tafra : Tafra.

Let cols := AggMethod._group_by_cols self.
Let aggs := AggMethod._aggregation self.

Hypothesis names_distinct : NoDup (cols ++ dict_keys aggs).

(** One group: the cells of its row are stored, the others are kept. *)
Lemma group_by_group U i u res w res' :
  length u = length cols ->
  GroupBy.group self tafra (i, u) res = inr (w, res') ->
  which_rows_of tafra cols u = inr w /\
  (forall name i0 v0, i0 <> i -> cell_holds res name i0 v0 -> cell_holds res' name i0 v0) /\
  (forall j c val, cols !! j = Some c -> u !! j = Some val -> cell_holds res' c i val) /\
  (forall rename fn col, In (rename, (fn, col)) aggs ->
     exists v, aggregate_is tafra w fn col v /\ cell_holds res' rename i v) /\
  dict_keys res' = dict_keys res /\
  same_dtypes res res' /\
  (shaped U res -> shaped U res').
Proof.
  intros Hu H.
  pose proof (GroupBy_group_mask self tafra (i, u) res w res' H) as Hw.
  split; [exact Hw|].
  unfold GroupBy.group in H. bind_inv H as w0 Hw0.
  bind_inv H as wr Hkeys. destruct wr as [w1 res1]. bind_inv H as res2 Haggs. invert H.
  apply NoDup_app in names_distinct as (Hnc & Hdisj & Hna).
  assert (Hzs : NoDup (map snd (zip u cols))) by now rewrite map_snd_zip.
  destruct (group_keys_fold tafra i U (zip u cols) Hzs _ _ _ _ Hkeys)
    as (K1 & K2 & K3 & K5 & K4).
  destruct (group_aggs_fold tafra i U w aggs Hna _ _ Haggs) as (A1 & A2 & A3 & A5 & A4).
  split; [|split; [|split; [|split; [|split]]]].
  - intros name i0 v0 Hne Hc. apply A1; [now right|]. apply K1; [now right | exact Hc].
  - intros j c val Hc Hv. apply A1.
    + left. intros Hin. apply (Hdisj c); [eapply list_elem_of_lookup_2; eauto|].
      now apply list_elem_of_In.
    + apply K2. eapply zip_lookup_In; eauto.
  - exact A2.
  - congruence.
  - intros name a' Ha'. destruct (A5 _ _ Ha') as (a1 & Ha1 & E1).
    destruct (K5 _ _ Ha1) as (a0 & Ha0 & E0). exists a0. split; [exact Ha0 | congruence].
  - auto.
Qed.

(** All the groups, numbered from [k]. *)
Lemma group_by_groups U us :
  Forall (fun u => length u = length cols) us ->
  forall k res masks res',
    AggMethod.for_groups (GroupBy.group self tafra) (zip (seq k (length us)) us) res
    = inr (masks, res') ->
    (forall name i0 v0, i0 < k -> cell_holds res name i0 v0 -> cell_holds res' name i0 v0) /\
    (forall p u, us !! p = Some u ->
       exists w, which_rows_of tafra cols u = inr w /\ masks !! p = Some w /\
         (forall j c val, cols !! j = Some c -> u !! j = Some val ->
                          cell_holds res' c (k + p) val) /\
         (forall rename fn col, In (rename, (fn, col)) aggs ->
            exists v, aggregate_is tafra w fn col v /\ cell_holds res' rename (k + p) v)) /\
    dict_keys res' = dict_keys res /\
    same_dtypes res res' /\
    (shaped U res -> shaped U res').
Proof.
  induction 1 as [|u us Hu _ IH]; intros k res masks res' H.
  - invert H. repeat split; auto; [intros p u [=] | intros name a' Ha'; eauto].
  - cbn [length seq zip zip_with AggMethod.for_groups] in H.
    change (zip_with pair (seq (S k) (length us)) us)
      with (zip (seq (S k) (length us)) us) in H.
    bind_inv H as wr Hg. destruct wr as [w res1].
    bind_inv H as mr Hrest. destruct mr as [masks' res2]. invert H.
    destruct (group_by_group U k u res w res1 Hu Hg)
      as (G0 & G1 & G2 & G3 & G4 & G6 & G5).
    destruct (IH (S k) _ _ _ Hrest) as (R1 & R2 & R3 & R5 & R4).
    split; [|split; [|split; [|split]]].
    + intros name i0 v0 Hlt Hc. apply R1; [lia|]. apply G1; [lia | exact Hc].
    + intros [|p] u' Hp.
      * invert Hp. exists w. split; [exact G0|]. split; [reflexivity|].
        rewrite Nat.add_0_r. split.
        -- intros j c val Hc Hv. apply R1; [lia|]. eapply G2; eauto.
        -- intros rename fn col Hin. destruct (G3 _ _ _ Hin) as (v & Hv & Hc).
           exists v. split; [exact Hv|]. apply R1; [lia | exact Hc].
      * destruct (R2 p u' Hp) as (w' & Hw' & Hm & Hk & Ha).
        exists w'. split; [exact Hw'|]. split; [exact Hm|].
        replace (k + S p) with (S k + p) by lia. auto.
    + congruence.
    + intros name a' Ha'. destruct (R5 _ _ Ha') as (a1 & Ha1 & E1).
      destruct (G6 _ _ Ha1) as (a0 & Ha0 & E0). exists a0. split; [exact Ha0 | congruence].
    + auto.
Qed.

End group_by_rows.

Lemma result_factory_names self (fn : string -> string -> result ndarray) res :
  AggMethod.result_factory self fn = inr res ->
  exists items,
    res = dict_of_items items /\
    map fst items = (AggMethod._group_by_cols self
                     ++ dict_keys (AggMethod._aggregation self))%list /\
    Forall (fun it => exists col, fn (fst it) col = inr (snd it)) items.
Proof.
  unfold AggMethod.result_factory. intros H. bind_inv H as items Hit. invert H.
  exists items. split; [reflexivity|].
  assert (Hgen : forall pairs its,
             mapM (fun '(rename, col) => let* a := fn rename col in ret (rename, a)) pairs
             = inr its ->
             map fst its = map fst pairs /\
             Forall (fun it => exists col, fn (fst it) col = inr (snd it)) its).
  { induction pairs as [|[r c] pairs IH]; intros its Hm; simpl in Hm.
    - invert Hm. split; constructor.
    - bind_inv Hm as ra Hra. bind_inv Hra as a Ha. invert Hra.
      bind_inv Hm as its' Hits. invert Hm. destruct (IH _ Hits) as [H1 H2].
      split; [simpl; now rewrite H1 | constructor; eauto]. }
  destruct (Hgen _ _ Hit) as [H1 H2]. split; [|exact H2].
  rewrite H1, map_app, !map_map. f_equal.
  - now rewrite map_id.
  - unfold dict_keys. apply map_ext. now intros [r [f c]].
Qed.

Lemma shaped_all_len U res : shaped U res -> all_len U res.
Proof.
  unfold shaped, all_len. intros H. eapply Forall_impl; [exact H|].
  intros a (l & Hl & Hlen). unfold np.len. now rewrite Hl, Hlen.
Qed.

(** X14. What [GroupBy] returns for a table with equally long columns,
    when no two of the names of the result (the group-by columns and the
    aggregation names) are the same.  The result has one row for each
    unique group and the named columns.  In the row of a group, a
    group-by column holds the value of the group's key, and an
    aggregation holds the reduction of the source column over the rows
    the mask of the group selects (each as converted to the dtype of the
    result array, which is that of the source column). *)
Theorem group_by_values {N : NumPy} (self : AggMethod.t) (tafra out : Tafra) (n : nat) :
  NoDup (AggMethod._group_by_cols self ++ dict_keys (AggMethod._aggregation self)) ->
  row_consistent tafra -> rows tafra = inr n ->
  GroupBy.apply self tafra = inr out ->
  exists unique,
    AggMethod.unique_groups self tafra = inr unique /\
    (AggMethod._group_by_cols self <> [] \/ AggMethod._aggregation self <> [] ->
     rows out = inr (length unique)) /\
    (forall c, c ∈ columns out <->
               In c (AggMethod._group_by_cols self) \/
               In c (dict_keys (AggMethod._aggregation self))) /\
    forall i u, unique !! i = Some u ->
      exists w, which_rows_of tafra (AggMethod._group_by_cols self) u = inr w /\
        (forall j c val, AggMethod._group_by_cols self !! j = Some c -> u !! j = Some val ->
                         cell_holds (_data out) c i val) /\
        (forall rename fn col, In (rename, (fn, col)) (AggMethod._aggregation self) ->
           exists v, aggregate_is tafra w fn col v /\ cell_holds (_data out) rename i v).
Proof.
  intros Hnd Hrc Hn H. unfold GroupBy.apply in H. bind_inv H as mr Hrun.
  destruct mr as [masks res]. apply init_plain in H.
  unfold GroupBy.run in Hrun. bind_inv Hrun as v Hv. bind_inv Hrun as unique Hu.
  bind_inv Hrun as res0 Hres0. exists unique. split; [exact Hu|].
  assert (Hul : Forall (fun u => length u = length (AggMethod._group_by_cols self)) unique).
  { destruct (decide (AggMethod._group_by_cols self = [])) as [He|Hne].
    - rewrite (unique_groups_no_columns self tafra He) in Hu. invert Hu. constructor.
    - destruct (unique_groups_keys self tafra unique n Hne Hrc Hn Hu)
        as (keys & -> & _ & Hkl & _).
      apply Forall_forall. intros u Hin. rewrite Forall_forall in Hkl. apply Hkl.
      eapply elem_of_sublist; [exact Hin | apply fromkeys_sublist]. }
  destruct (result_factory_names _ _ _ Hres0) as (items & -> & Hnames & Hitems).
  assert (Hsh0 : shaped (length unique) (dict_of_items items)).
  { apply dict_of_items_Forall. apply Forall_forall. intros a Ha.
    apply list_elem_of_In, in_map_iff in Ha as (it & <- & Hin).
    rewrite Forall_forall in Hitems. destruct (Hitems it) as [col Hcol];
      [now apply list_elem_of_In|].
    bind_inv Hcol as a0 Ha0. unfold ret in Hcol. injection Hcol as <-.
    eexists. split; [reflexivity|].
    apply length_replicate. }
  destruct (group_by_groups self tafra Hnd (length unique) unique Hul 0 _ _ _ Hrun)
    as (_ & Hcells & Hkeys & _ & Hsh).
  specialize (Hsh Hsh0). rewrite H. split; [|split].
  - intros Hne. destruct out as [d dt]. cbn [_data] in *. subst d.
    apply rows_all_len; [|now apply shaped_all_len].
    intros Hnil. rewrite Hnil in Hkeys. symmetry in Hkeys.
    apply map_eq_nil in Hkeys. revert Hkeys. apply dict_of_items_nil.
    intros ->. simpl in Hnames. symmetry in Hnames. apply app_eq_nil in Hnames as [H1 H2].
    apply map_eq_nil in H2. tauto.
  - intros c. unfold columns. rewrite H, Hkeys, dict_keys_of_items, Hnames.
    apply in_app_iff.
  - intros i u Hi. destruct (Hcells i u Hi) as (w & Hw & _ & Hk & Ha).
    exists w. auto.
Qed.

Lemma group_by_values_witness :
  exists out unique,
    GroupBy.apply sum_x_agg example_tafra = inr out /\
    AggMethod.unique_groups sum_x_agg example_tafra = inr unique /\
    rows out = inr (length unique) /\
    forall i u, unique !! i = Some u ->
      exists w, which_rows_of example_tafra ["y"; "z"] u = inr w /\
        (forall j c val, ["y"; "z"] !! j = Some c -> u !! j = Some val ->
                         cell_holds (_data out) c i val) /\
        exists v, aggregate_is example_tafra w py_sum "x" v /\
                  cell_holds (_data out) "x" i v.
Proof.
  assert (Hex : exists out, GroupBy.apply sum_x_agg example_tafra = inr out).
  { eexists. vm_compute. reflexivity. }
  destruct Hex as [out Hout].
  assert (Hnd : NoDup (AggMethod._group_by_cols sum_x_agg
                       ++ dict_keys (AggMethod._aggregation sum_x_agg))).
  { change (NoDup ["y"; "z"; "x"]).
    nodup_strings. }
  destruct (@group_by_values numpy sum_x_agg example_tafra out 6 Hnd
              example_row_consistent eq_refl Hout) as (unique & Hu & Hr & _ & Hcells).
  exists out, unique. split; [exact Hout|]. split; [exact Hu|].
  split; [apply Hr; left; discriminate|].
  intros i u Hi. destruct (Hcells i u Hi) as (w & Hw & Hk & Ha).
  exists w. split; [exact Hw|]. split; [exact Hk|].
  apply (Ha "x" py_sum "x"). now left.
Defined.

(** *** [Transform]: what the aggregations hold *)

Lemma lookup_fill {A} (mask : list bool) (l : list A) v r :
  length mask = length l ->
  np.fill mask l v !! r
  = match mask !! r with
    | Some true => Some v
    | _ => l !! r
    end.
Proof.
  unfold np.fill. revert l r. induction mask as [|b mask IH]; intros [|x l] r Hlen;
    try discriminate; [reflexivity|].
  destruct r as [|r]; simpl; [now destruct b|]. apply IH. simpl in Hlen. lia.
Qed.

Section transform_cells.
Context {N : NumPy}.

(** One store [result[c][w] = v]. *)
Lemma store_mask res c w v r r' :
  AggMethod.result_at c res = inr r -> setitem_mask r w v = inr r' ->
  (forall i, w !! i = Some true -> cell_holds (dict_set c r' res) c i v) /\
  (forall name i v0, name <> c \/ w !! i <> Some true ->
                     cell_holds res name i v0 -> cell_holds (dict_set c r' res) name i v0).
Proof.
  unfold AggMethod.result_at, setitem_mask. intros Hr Hs.
  destruct (dict_get c res) as [r0|] eqn:Hg; invert Hr.
  destruct (body r) as [|l|] eqn:Hb; try discriminate.
  destruct (decide (length w = length l)) as [Hlen|]; [|discriminate].
  bind_inv Hs as v' Hv'. invert Hs. split.
  - intros i Hi.
    exists {| dtype := dtype r; body := Arr1 (np.fill w l v') |}, (np.fill w l v'), v'.
    rewrite dict_get_set_eq. repeat split; auto.
    rewrite lookup_fill by exact Hlen. now rewrite Hi.
  - intros name i v0 Hne (a & l0 & v0' & Ha & Hl0 & Hc & Hi0).
    destruct (decide (name = c)) as [->|Hn].
    + destruct Hne as [|Hne]; [congruence|]. rewrite Hg in Ha. invert Ha.
      rewrite Hb in Hl0. invert Hl0.
      exists {| dtype := dtype a; body := Arr1 (np.fill w l0 v') |}, (np.fill w l0 v'), v0'.
      rewrite dict_get_set_eq. repeat split; auto.
      rewrite lookup_fill by exact Hlen.
      destruct (w !! i) as [[|]|]; [congruence | exact Hi0 | exact Hi0].
    + exists a, l0, v0'. rewrite dict_get_set_ne by congruence. auto.
Qed.

Variable tafra : Tafra.

(** The loop of [Transform] over the group-by columns stores under their
    names only. *)
Lemma transform_keys_other zs :
  forall w res w' res',
    foldM (fun '(which_rows, res) '(val, col) =>
             let* which_rows := mask_step tafra which_rows (val, col) in
             let* a := getitem_str col tafra in
             let* sub := np.getitem_mask a which_rows in
             let* r := AggMethod.result_at col res in
             let* r' := setitem_mask_array r which_rows sub in
             ret (which_rows, dict_set col r' res)) zs (w, res) = inr (w', res') ->
    forall name, ~ In name (map snd zs) -> dict_get name res' = dict_get name res.
Proof.
  induction zs as [|[val col] zs IH]; intros w res w' res' H name Hn.
  - now invert H.
  - cbn [foldM] in H. bind_inv H as wr Hstep. destruct wr as [w1 res1].
    bind_inv Hstep as w2 Hw2. bind_inv Hstep as a Ha. bind_inv Hstep as sub Hsub.
    bind_inv Hstep as r Hr. bind_inv Hstep as r' Hr'. invert Hstep.
    rewrite (IH _ _ _ _ H name) by (intros Hin; apply Hn; now right).
    apply dict_get_set_ne. intros ->. apply Hn. now left.
Qed.

(** The loop of [Transform] over the aggregations, for the mask [w]. *)
Lemma transform_aggs_cells w ags :
  NoDup (map fst ags) ->
  forall res res',
    foldM (fun res '(rename, (fn, col)) =>
             let* a := getitem_str col tafra in
             let* sub := np.getitem_mask a w in
             let* v := fn sub in
             let* r := AggMethod.result_at rename res in
             let* r' := setitem_mask r w v in
             ret (dict_set rename r' res)) ags res = inr res' ->
    (forall name i v0, ~ In name (map fst ags) \/ w !! i <> Some true ->
                       cell_holds res name i v0 -> cell_holds res' name i v0) /\
    (forall rename fn col, In (rename, (fn, col)) ags ->
       exists v, aggregate_is tafra w fn col v /\
                 forall i, w !! i = Some true -> cell_holds res' rename i v).
Proof.
  induction ags as [|[rename [fn col]] ags IH]; intros Hnd res res' H.
  - invert H. split; auto. intros ? ? ? [].
  - cbn [foldM] in H. bind_inv H as res1 Hstep.
    bind_inv Hstep as a Ha. bind_inv Hstep as sub Hsub. bind_inv Hstep as v Hv.
    bind_inv Hstep as r Hr. bind_inv Hstep as r' Hr'. invert Hstep.
    cbn [map fst] in Hnd. apply NoDup_cons in Hnd as [Hnin Hnd].
    destruct (store_mask _ _ _ _ _ _ Hr Hr') as (Hset & Hkeep).
    destruct (IH Hnd _ _ H) as (IHkeep & IHset).
    split.
    + intros name i v0 Hne Hc. apply IHkeep.
      * destruct Hne as [Hne|Hne]; [left | now right]. intros Hin. apply Hne. now right.
      * apply Hkeep; [|exact Hc].
        destruct Hne as [Hne|Hne]; [left | now right]. intros ->. apply Hne. now left.
    + intros rename' fn' col' [Heq|Hin].
      * invert Heq. exists v. split; [exists a, sub; auto|].
        intros i Hi. apply IHkeep; [|now apply Hset]. left.
        intros Hin. apply Hnin. now apply list_elem_of_In.
      * now apply IHset.
Qed.

Variable self : AggMethod.t.

Let cols := AggMethod._group_by_cols self.
Let aggs := AggMethod._aggregation self.

Hypothesis names_distinct : NoDup (cols ++ dict_keys aggs).

Lemma cell_holds_ext res res' name i v :
  dict_get name res' = dict_get name res -> cell_holds res name i v ->
  cell_holds res' name i v.
Proof. intros Heq (a & l & v' & Ha & H). exists a, l, v'. now rewrite Heq. Qed.

Lemma transform_group_cells g res w res' :
  length (snd g) = length cols ->
  Transform.group self tafra g res = inr (w, res') ->
  which_rows_of tafra cols (snd g) = inr w /\
  (forall name i v0, ~ In name cols -> w !! i <> Some true ->
                     cell_holds res name i v0 -> cell_holds res' name i v0) /\
  (forall rename fn col, In (rename, (fn, col)) aggs ->
     exists v, aggregate_is tafra w fn col v /\
               forall i, w !! i = Some true -> cell_holds res' rename i v).
Proof.
  intros Hu H.
  pose proof (Transform_group_mask self tafra g res w res' H) as Hw.
  split; [exact Hw|]. destruct g as [i u]. cbn [snd] in Hu.
  unfold Transform.group in H. bind_inv H as w0 Hw0.
  bind_inv H as wr Hkeys. destruct wr as [w1 res1]. bind_inv H as res2 Haggs. invert H.
  apply NoDup_app in names_distinct as (Hnc & Hdisj & Hna).
  pose proof (transform_keys_other _ _ _ _ _ Hkeys) as K.
  rewrite map_snd_zip in K by exact Hu.
  destruct (transform_aggs_cells w aggs Hna _ _ Haggs) as (A1 & A2).
  split; [|exact A2].
  intros name i0 v0 Hn Hi Hc. apply A1; [now right|].
  eapply cell_holds_ext; [apply K; exact Hn | exact Hc].
Qed.

End transform_cells.

Section transform_rows.
Context {N : NumPy}.
Variable self : AggMethod.t.
Variable tafra : Tafra.

Let cols := AggMethod._group_by_cols self.
Let aggs := AggMethod._aggregation self.

Hypothesis names_distinct : NoDup (cols ++ dict_keys aggs).

(** All the groups: what a group stored stays, the masks of the groups
    being disjoint. *)
Lemma transform_groups_cells us :
  Forall (fun u => length u = length cols) us ->
  forall k res masks res',
    AggMethod.for_groups (Transform.group self tafra) (zip (seq k (length us)) us) res
    = inr (masks, res') ->
    (forall i j mi mj r, i <> j -> masks !! i = Some mi -> masks !! j = Some mj ->
                         mi !! r = Some true -> mj !! r = Some true -> False) ->
    (forall name r v0, ~ In name cols -> (forall m, In m masks -> m !! r <> Some true) ->
                       cell_holds res name r v0 -> cell_holds res' name r v0) /\
    (forall p u, us !! p = Some u ->
       exists w, which_rows_of tafra cols u = inr w /\ masks !! p = Some w /\
         forall rename fn col, In (rename, (fn, col)) aggs ->
           exists v, aggregate_is tafra w fn col v /\
                     forall r, w !! r = Some true -> cell_holds res' rename r v).
Proof.
  induction 1 as [|u us Hu _ IH]; intros k res masks res' H Hdis.
  - invert H. split; auto. intros p u [=].
  - cbn [length seq zip zip_with AggMethod.for_groups] in H.
    change (zip_with pair (seq (S k) (length us)) us)
      with (zip (seq (S k) (length us)) us) in H.
    bind_inv H as wr Hg. destruct wr as [w res1].
    bind_inv H as mr Hrest. destruct mr as [masks' res2]. invert H.
    destruct (transform_group_cells tafra self names_distinct (k, u) res w res1 Hu Hg)
      as (G0 & G1 & G2).
    destruct (IH (S k) _ _ _ Hrest) as (R1 & R2).
    { intros i j mi mj r Hij Hi Hj. apply (Hdis (S i) (S j) mi mj r); auto. }
    split.
    + intros name r v0 Hn Hm Hc. apply R1; [exact Hn | |].
      * intros m Hin. apply Hm. now right.
      * apply G1; [exact Hn | apply Hm; now left | exact Hc].
    + intros [|p] u' Hp.
      * invert Hp. exists w. split; [exact G0|]. split; [reflexivity|].
        intros rename fn col Hin. destruct (G2 _ _ _ Hin) as (v & Hv & Hc).
        exists v. split; [exact Hv|]. intros r Hr. apply R1.
        -- apply NoDup_app in names_distinct as (_ & Hd & _). intros Hcol.
           apply (Hd rename); [now apply list_elem_of_In|].
           apply list_elem_of_In, in_map_iff. exists (rename, (fn, col)). auto.
        -- intros m Hm Hmr. apply In_nth_error in Hm as [q Hq].
           apply (Hdis 0 (S q) w m r); auto.
           cbn [lookup list_lookup]. rewrite <- Hq. clear.
           revert q. induction masks' as [|m0 ms IHm]; intros [|q]; simpl; auto.
        -- now apply Hc.
      * destruct (R2 p u' Hp) as (w' & Hw' & Hm & Ha). exists w'. auto.
Qed.

End transform_rows.

(** X16. What [Transform] stores for an aggregation, on a table with
    equally long columns whose group-by values are not [nan], when no
    two names of the result are the same: every row of a group holds, in
    the column of the aggregation, the reduction of the source column
    over the rows of that group (as converted to the dtype of the result
    array). *)
Theorem transform_values {N : NumPy} (self : AggMethod.t) (tafra out : Tafra) (n : nat) :
  NoDup (AggMethod._group_by_cols self ++ dict_keys (AggMethod._aggregation self)) ->
  row_consistent tafra -> rows tafra = inr n ->
  group_values_self_equal tafra (AggMethod._group_by_cols self) ->
  Transform.apply self tafra = inr out ->
  exists unique,
    AggMethod.unique_groups self tafra = inr unique /\
    forall i u, unique !! i = Some u ->
      exists w, which_rows_of tafra (AggMethod._group_by_cols self) u = inr w /\
        forall rename fn col, In (rename, (fn, col)) (AggMethod._aggregation self) ->
          exists v, aggregate_is tafra w fn col v /\
                    forall r, w !! r = Some true -> cell_holds (_data out) rename r v.
Proof.
  intros Hnd Hrc Hn Hself H. unfold Transform.apply in H. bind_inv H as mr Hrun.
  destruct mr as [masks res]. apply init_plain in H.
  unfold Transform.run in Hrun. bind_inv Hrun as v Hv. bind_inv Hrun as unique Hu.
  bind_inv Hrun as res0 Hres0. exists unique. split; [exact Hu|].
  destruct (decide (AggMethod._group_by_cols self = [])) as [He|Hne].
  { rewrite (unique_groups_no_columns self tafra He) in Hu. invert Hu. intros i u [=]. }
  destruct (groups_masks self tafra n unique _ res0 masks res Hne Hrc Hn Hu Hself
              (Transform_group_mask self tafra) Hrun)
    as (keys & -> & Hlen & Hrefl & -> & Hul & _).
  destruct (key_masks_partition keys Hrefl) as (_ & Hdis & _).
  destruct (transform_groups_cells self tafra Hnd _ Hul 0 _ _ _ Hrun Hdis) as (_ & Hcells).
  intros i u Hi. destruct (Hcells i u Hi) as (w & Hw & _ & Ha).
  exists w. rewrite H. auto.
Qed.

Lemma transform_values_witness :
  exists out unique,
    Transform.apply sum_x_agg example_tafra = inr out /\
    AggMethod.unique_groups sum_x_agg example_tafra = inr unique /\
    forall i u, unique !! i = Some u ->
      exists w v, which_rows_of example_tafra ["y"; "z"] u = inr w /\
                  aggregate_is example_tafra w py_sum "x" v /\
                  forall r, w !! r = Some true -> cell_holds (_data out) "x" r v.
Proof.
  assert (Hex : exists out, Transform.apply sum_x_agg example_tafra = inr out).
  { eexists. vm_compute. reflexivity. }
  destruct Hex as [out Hout].
  assert (Hnd : NoDup (AggMethod._group_by_cols sum_x_agg
                       ++ dict_keys (AggMethod._aggregation sum_x_agg))).
  { change (NoDup ["y"; "z"; "x"]).
    nodup_strings. }
  destruct (@transform_values numpy sum_x_agg example_tafra out 6 Hnd
              example_row_consistent eq_refl example_self_equal Hout)
    as (unique & Hu & Hcells).
  exists out, unique. split; [exact Hout|]. split; [exact Hu|].
  intros i u Hi. destruct (Hcells i u Hi) as (w & Hw & Ha).
  destruct (Ha "x" py_sum "x") as (v & Hv & Hc); [now left|].
  exists w, v. auto.
Defined.

(** *** [GroupBy]: the dtypes of the result *)

Lemma dict_update_get_In {V} (items : list (string * V)) :
  forall d k v, dict_get k (dict_update d items) = Some v ->
                dict_get k d = Some v \/ In (k, v) items.
Proof.
  unfold dict_update. induction items as [|[k0 v0] items IH]; intros d k v H; [now left|].
  cbn [fold_left fst snd] in H. destruct (IH _ _ _ H) as [Hd|Hin]; [|right; now right].
  destruct (decide (k0 = k)) as [->|Hne].
  - rewrite dict_get_set_eq in Hd. invert Hd. right. now left.
  - rewrite dict_get_set_ne in Hd by exact Hne. now left.
Qed.

Lemma result_factory_items self (fn : string -> string -> result ndarray) res name a :
  AggMethod.result_factory self fn = inr res ->
  dict_get name res = Some a ->
  exists col,
    In (name, col) (map (fun col => (col, col)) (AggMethod._group_by_cols self)
                    ++ map (fun '(rename, agg) => (rename, snd agg))
                           (AggMethod._aggregation self))%list /\
    fn name col = inr a.
Proof.
  unfold AggMethod.result_factory. intros H Hget. bind_inv H as items Hit. invert H.
  apply dict_update_get_In in Hget as [Hd|Hin]; [discriminate|].
  revert items Hit Hin.
  generalize (map (fun col => (col, col)) (AggMethod._group_by_cols self)
              ++ map (fun '(rename, agg) => (rename, snd agg))
                     (AggMethod._aggregation self))%list as pairs.
  induction pairs as [|[r c] pairs IH]; intros items Hm Hin; simpl in Hm.
  - invert Hm. destruct Hin.
  - bind_inv Hm as ra Hra. bind_inv Hra as a0 Ha0. invert Hra.
    bind_inv Hm as its' Hits. invert Hm. destruct Hin as [Heq|Hin].
    + invert Heq. exists c. split; [now left | exact Ha0].
    + destruct (IH _ Hits Hin) as (col & Hc & Hf). exists col. split; [now right | exact Hf].
Qed.

Lemma NoDup_fst_unique {A B} (l : list (A * B)) x y y' :
  NoDup (map fst l) -> In (x, y) l -> In (x, y') l -> y = y'.
Proof.
  induction l as [|[a b] l IH]; simpl; [tauto|]. intros Hnd H1 H2.
  apply NoDup_cons in Hnd as [Hnin Hnd].
  assert (Hfst : forall z, In (a, z) l -> False).
  { intros z Hz. apply Hnin, list_elem_of_In, in_map_iff. exists (a, z). auto. }
  destruct H1 as [H1|H1], H2 as [H2|H2]; try (invert H1); try (invert H2); auto;
    try (exfalso; eapply Hfst; eassumption).
Qed.

(** X17. The columns [GroupBy] returns have the dtypes of the columns
    they come from, when no two names of the result are the same: a
    group-by column that of the column itself, an aggregation that of
    its source column, whatever the reduction returns; and the tag of
    each is the formatted dtype of that source column. *)
Theorem group_by_dtypes {N : NumPy} (self : AggMethod.t) (tafra out : Tafra) (n : nat) :
  NoDup (AggMethod._group_by_cols self ++ dict_keys (AggMethod._aggregation self)) ->
  row_consistent tafra -> rows tafra = inr n ->
  GroupBy.apply self tafra = inr out ->
  forall name col,
    In (name, col) (map (fun col => (col, col)) (AggMethod._group_by_cols self)
                    ++ map (fun '(rename, agg) => (rename, snd agg))
                           (AggMethod._aggregation self))%list ->
    exists a a', getitem_str col tafra = inr a /\ getitem_str name out = inr a' /\
                 dtype a' = dtype a /\
                 dict_get name (_dtypes out) = Some (_format_type (dtype a)).
Proof.
  intros Hnd Hrc Hn H name col Hin. unfold GroupBy.apply in H. bind_inv H as mr Hrun.
  destruct mr as [masks res]. apply init_no_tags in H as [Hdata [Hall Htag]].
  subst res. unfold GroupBy.run in Hrun. bind_inv Hrun as v Hv. bind_inv Hrun as unique Hu.
  bind_inv Hrun as res0 Hres0.
  assert (Hul : Forall (fun u => length u = length (AggMethod._group_by_cols self)) unique).
  { destruct (decide (AggMethod._group_by_cols self = [])) as [He|Hne].
    - rewrite (unique_groups_no_columns self tafra He) in Hu. invert Hu. constructor.
    - destruct (unique_groups_keys self tafra unique n Hne Hrc Hn Hu)
        as (keys & -> & _ & Hkl & _).
      apply Forall_forall. intros u Hin'. rewrite Forall_forall in Hkl. apply Hkl.
      eapply elem_of_sublist; [exact Hin' | apply fromkeys_sublist]. }
  destruct (group_by_groups self tafra Hnd (length unique) unique Hul 0 _ _ _ Hrun)
    as (_ & _ & Hkeys & Hdt & _).
  destruct (result_factory_names _ _ _ Hres0) as (items & Hres & Hnames & _).
  assert (Hname : name ∈ dict_keys (_data out)).
  { rewrite Hkeys, Hres. apply dict_keys_of_items. rewrite Hnames.
    apply in_app_or in Hin as [Hin|Hin]; apply in_or_app.
    - left. apply in_map_iff in Hin as (c & Hc & Hin). now invert Hc.
    - right. apply in_map_iff in Hin as ([r [f c]] & Hc & Hin). invert Hc.
      apply in_map_iff. exists (name, (f, col)). auto. }
  apply dict_get_of_key in Hname as [a' Ha'].
  destruct (Hdt _ _ Ha') as (a0 & Ha0 & Hd0).
  destruct (result_factory_items _ _ _ _ _ Hres0 Ha0) as (col' & Hin' & Hf).
  assert (col' = col).
  { eapply NoDup_fst_unique; [|exact Hin' | exact Hin].
    rewrite map_app, !map_map. cbn.
    replace (map (fun x : string => x) (AggMethod._group_by_cols self))
      with (AggMethod._group_by_cols self) by (symmetry; apply map_id).
    replace (map (fun x => fst (let '(rename, agg) := x in (rename, snd agg)))
                 (AggMethod._aggregation self))
      with (dict_keys (AggMethod._aggregation self)); [exact Hnd|].
    unfold dict_keys. apply map_ext. now intros [r [f c]]. }
  subst col'. bind_inv Hf as a Ha. invert Hf.
  exists a, a'. split; [exact Ha|].
  assert (Hg : getitem_str name out = inr a').
  { unfold getitem_str. now rewrite Ha'. }
  split; [exact Hg|]. split; [exact Hd0|].
  destruct (Hall name) as [tag Ht].
  { eapply dict_get_key; eauto. }
  destruct (Htag _ _ Ht) as (a1 & Ha1 & Hfmt). rewrite Ha' in Ha1. invert Ha1.
  rewrite Ht. now rewrite Hd0.
Qed.

Lemma group_by_dtypes_witness :
  exists out a a',
    GroupBy.apply sum_x_agg example_tafra = inr out /\
    getitem_str "x" example_tafra = inr a /\ getitem_str "x" out = inr a' /\
    dtype a' = dtype a /\
    dict_get "x" (_dtypes out) = Some (_format_type (dtype a)).
Proof.
  assert (Hex : exists out, GroupBy.apply sum_x_agg example_tafra = inr out).
  { eexists. vm_compute. reflexivity. }
  destruct Hex as [out Hout].
  assert (Hnd : NoDup (AggMethod._group_by_cols sum_x_agg
                       ++ dict_keys (AggMethod._aggregation sum_x_agg))).
  { change (NoDup ["y"; "z"; "x"]).
    nodup_strings. }
  destruct (@group_by_dtypes numpy sum_x_agg example_tafra out 6 Hnd
              example_row_consistent eq_refl Hout "x" "x") as (a & a' & H).
  { simpl. auto. }
  exists out, a, a'. split; [exact Hout | exact H].
Defined.

(** ** [update] and [to_list] *)

Lemma dict_update_get {V} (items : list (string * V)) :
  NoDup (dict_keys items) ->
  forall d c, dict_get c (dict_update d items)
              = match dict_get c items with
                | Some v => Some v
                | None => dict_get c d
                end.
Proof.
  unfold dict_update. induction items as [|[k v] items IH]; intros Hnd d c; [reflexivity|].
  cbn [dict_keys map fst] in Hnd. apply NoDup_cons in Hnd as [Hnin Hnd].
  cbn [fold_left fst snd dict_get]. rewrite IH by exact Hnd.
  destruct (decide (c = k)) as [->|Hne].
  - destruct (dict_get k items) as [v'|] eqn:Hk.
    + exfalso. apply Hnin. eapply dict_get_key; eauto.
    + apply dict_get_set_eq.
  - destruct (dict_get c items); [reflexivity|]. apply dict_get_set_ne. congruence.
Qed.

Section update.
Context {N : NumPy}.

(** The loop of [update] over the columns of the other table. *)
Lemma update_stores r items :
  forall t t1,
    for_each items (fun '(column, values) =>
                      let! n := lift (np.len values) in
                      if decide (n <> r) then mraise (ValueError (other_rows_msg r n))
                      else set_data column values) t = (inr tt, t1) ->
    _data t1 = dict_update (_data t) items /\ _dtypes t1 = _dtypes t /\
    Forall (fun a => np.len a = inr r) (dict_values items).
Proof.
  induction items as [|[c a] items IH]; intros t t1 H.
  - invert H. repeat split. constructor.
  - cbn [for_each] in H. unfold mbind at 1 in H.
    destruct ((let! n := lift (np.len a) in
               if decide (n <> r) then mraise (ValueError (other_rows_msg r n))
               else set_data c a) t) as [[e|[]] t0] eqn:Hstep; [discriminate|].
    unfold mbind, lift, mraise, set_data, modify in Hstep.
    destruct (np.len a) as [e|m] eqn:Hm; [discriminate|]. cbn in Hstep.
    destruct (decide (m <> r)) as [|Heq]; [discriminate|]. apply dec_stable in Heq.
    subst m. invert Hstep. destruct (IH _ _ H) as (Hd & Ht & HF).
    cbn [_data _dtypes] in Hd, Ht. repeat split; auto. constructor; auto.
Qed.

(** X18. What a successful [update] has done, the names of the other
    table's columns being distinct and so the keys of the resulting
    tags: every column of the other table is as long as the table; the
    tags are the table's, updated with the other's; a column of the
    other table is now a column of the table, the other columns stay;
    and each holds its array, converted where the dtype does not format
    to the tag. *)
Theorem update_merges (other t t' : Tafra) :
  NoDup (dict_keys (_data other)) ->
  NoDup (dict_keys (updated_tags (Some (_dtypes other)) t)) ->
  update other t = (inr tt, t') ->
  (exists r, rows t = inr r /\
             Forall (fun a => np.len a = inr r) (dict_values (_data other))) /\
  _dtypes t' = updated_tags (Some (_dtypes other)) t /\
  (forall c a, dict_get c (_data other) = Some a ->
     exists a', retyped (dict_get c (_dtypes t')) a = inr a' /\
                dict_get c (_data t') = Some a') /\
  (forall c a, dict_get c (_data other) = None -> dict_get c (_data t) = Some a ->
     exists a', retyped (dict_get c (_dtypes t')) a = inr a' /\
                dict_get c (_data t') = Some a').
Proof.
  intros Hno Hnd H. unfold update in H. unfold mbind at 1 in H. unfold reads in H.
  destruct (rows t) as [e|r] eqn:Hr; [discriminate|]. unfold mbind at 1 in H.
  destruct (for_each _ _ t) as [[e|[]] t1] eqn:Hst; [discriminate|].
  destruct (update_stores _ _ _ _ Hst) as (Hd1 & Ht1 & HF).
  assert (Htags : updated_tags (Some (_dtypes other)) t1
                  = updated_tags (Some (_dtypes other)) t).
  { cbn [updated_tags]. now rewrite Ht1. }
  rewrite <- Htags in Hnd.
  destruct (update_types_retyped _ _ _ Hnd H) as [Hdt Hdata]. rewrite Htags in *.
  split; [eauto|]. split; [exact Hdt|]. rewrite Hdt. split.
  - intros c a Ha. apply Hdata. rewrite Hd1, dict_update_get by exact Hno. now rewrite Ha.
  - intros c a Hn Ha. apply Hdata. rewrite Hd1, dict_update_get by exact Hno. now rewrite Hn.
Qed.

(** X19. [to_list] gives the arrays of the table in the order of its
    columns; asked for the columns by name, it gives their arrays in the
    order asked, the same list when that is the order of the table (the
    names being distinct), and raises [KeyError] for the first name that
    is not a column. *)
Theorem to_list_columns (t : Tafra) :
  (NoDup (columns t) -> to_list (Some (columns t)) t = to_list None t) /\
  (forall cols arrays, to_list (Some cols) t = inr arrays ->
     Forall2 (fun c a => getitem_str c t = inr a) cols arrays) /\
  (forall cols, Forall (fun c => c ∈ columns t) cols ->
                exists arrays, to_list (Some cols) t = inr arrays) /\
  (forall pre c post, Forall (fun c => c ∈ columns t) pre -> c ∉ columns t ->
                      to_list (Some (pre ++ c :: post)%list) t = inl (KeyError c)).
Proof.
  unfold to_list, columns, getitem_str. split; [|split; [|split]].
  - induction (_data t) as [|[c a] d IH]; intros Hnd; [reflexivity|].
    cbn [dict_keys map fst] in Hnd. apply NoDup_cons in Hnd as [Hnin Hnd].
    cbn [dict_keys map fst mapM dict_get]. rewrite decide_True by reflexivity.
    cbn [bind ret dict_values map snd].
    assert (Heq : mapM (fun c0 => match (if decide (c0 = c) then Some a
                                          else dict_get c0 d) with
                                  | Some a0 => ret a0
                                  | None => raise (KeyError c0)
                                  end) (map fst d)
                  = mapM (fun c0 => match dict_get c0 d with
                                    | Some a0 => ret a0
                                    | None => raise (KeyError c0)
                                    end) (map fst d)).
    { clear IH. revert Hnin. generalize (map fst d) as ks.
      induction ks as [|k ks IHk]; intros Hnin; [reflexivity|]. cbn [mapM].
      rewrite decide_False by (intros ->; apply Hnin; apply list_elem_of_here).
      rewrite IHk; [reflexivity|]. intros Hin. apply Hnin. now apply list_elem_of_further. }
    rewrite Heq. unfold dict_keys, dict_values in IH. rewrite (IH Hnd). reflexivity.
  - intros cols arrays H. now apply mapM_Forall2 in H.
  - induction 1 as [|c cols Hc _ [arrays IH]]; [simpl; eauto|].
    cbn [mapM]. apply dict_get_of_key in Hc as [a ->]. cbn [bind ret]. rewrite IH.
    cbn. eauto.
  - intros pre c post Hpre Hc. induction Hpre as [|c0 pre Hc0 _ IH]; cbn [app mapM].
    + destruct (dict_get c (_data t)) as [a|] eqn:Ha; [|reflexivity].
      exfalso. apply Hc. eapply dict_get_key; eauto.
    + apply dict_get_of_key in Hc0 as [a ->]. cbn [bind ret]. now rewrite IH.
Qed.

End update.

Lemma update_merges_witness :
  _dtypes (snd (update example_other example_tafra))
  = [("x", "int"); ("y", "object"); ("z", "int"); ("w", "int")] /\
  dict_get "x" (_data (snd (update example_other example_tafra)))
  = Some (int64_array [6; 5; 4; 3; 2; 1]%Z) /\
  dict_get "z" (_data (snd (update example_other example_tafra)))
  = Some (int64_array [0; 0; 0; 1; 1; 1]%Z).
Proof.
  assert (H1 : NoDup (dict_keys (_data example_other))).
  { change (NoDup ["x"; "w"]). nodup_strings. }
  assert (H2 : NoDup (dict_keys (updated_tags (Some (_dtypes example_other))
                                              example_tafra))).
  { change (NoDup ["x"; "y"; "z"; "w"]). nodup_strings. }
  destruct (@update_merges numpy example_other example_tafra
              (snd (update example_other example_tafra)) H1 H2)
    as (_ & Hdt & Hnew & Hold).
  { vm_compute. reflexivity. }
  split; [exact Hdt|]. split.
  - destruct (Hnew "x" (int64_array [6; 5; 4; 3; 2; 1]%Z) eq_refl) as (a' & Ha' & Hg).
    rewrite Hg. rewrite Hdt in Ha'. cbn in Ha'. now invert Ha'.
  - destruct (Hold "z" (int64_array [0; 0; 0; 1; 1; 1]%Z) eq_refl eq_refl)
      as (a' & Ha' & Hg).
    rewrite Hg. rewrite Hdt in Ha'. cbn in Ha'. now invert Ha'.
Defined.

Lemma to_list_columns_witness :
  to_list (Some ["x"; "y"; "z"]) example_tafra = to_list None example_tafra /\
  to_list (Some ["x"; "q"; "z"]) example_tafra = inl (KeyError "q").
Proof.
  destruct (to_list_columns example_tafra) as (H1 & _ & _ & H4). split.
  - apply H1. change (NoDup ["x"; "y"; "z"]). nodup_strings.
  - apply (H4 ["x"] "q" ["z"]).
    + repeat constructor.
    + intros H. apply list_elem_of_In in H. simpl in H.
      destruct H as [H|[H|[H|[]]]]; discriminate H.
Defined.

(** ** Records *)

Lemma getitem_row_arr1 a l row d :
  body a = Arr1 l -> getitem_row a row = inr d ->
  exists x, l !! row = Some x /\ d = {| dtype := dtype a; body := Arr1 [x] |}.
Proof.
  unfold getitem_row, np.getitem_array. intros Hl.
  rewrite decide_False by discriminate. cbn [np.is_integer_dtype]. rewrite Hl.
  unfold np.gather. cbn [mapM]. unfold np.axis_index.
  rewrite (proj2 (Z.leb_le 0 (Z.of_nat row))) by lia.
  destruct (Z.of_nat row <? Z.of_nat (length l))%Z eqn:Hlt; cbn.
  - rewrite Nat2Z.id. destruct (l !! row) as [x|]; [|discriminate]. cbn.
    intros H. invert H. eauto.
  - rewrite (proj2 (Z.ltb_ge (Z.of_nat row) 0)) by lia. rewrite andb_false_r. discriminate.
Qed.

(** One field by its tag: a tag other than [float]. *)
Ltac plain_tag :=
  rewrite bool_decide_eq_false_2 by discriminate; rewrite andb_false_r;
  match goal with |- (let* value := ?c in _) = _ <-> _ => destruct c as [e|w] end;
  cbn [bind ret]; cbv [ret];
  (split; [intros Heq; try discriminate; injection Heq as <-; auto 10
          | intros Hor; decompose [or and ex] Hor; try congruence]).

Section records.
Context {B : Builtins}.
Variable t : Tafra.
Hypothesis t_1d : one_dimensional t.

Lemma cast_records_field tag data cast_null x v :
  np_item data = inr x ->
  _cast_records tag data cast_null = inr v <-> field_value tag cast_null x v.
Proof.
  intros Hx. unfold _cast_records, field_value, RECORD_TYPE. cbn [dict_get]. 
  destruct (decide (tag = "int")) as [->|H1].
  { cbn [bind ret]. rewrite Hx. cbn [bind]. plain_tag. }
  destruct (decide (tag = "float")) as [->|H2].
  { cbn [bind ret]. rewrite Hx. cbn [bind].
    rewrite bool_decide_eq_true_2 by reflexivity. rewrite andb_true_r.
    destruct (py_float x) as [e|f]; cbn [bind ret].
    - split; [discriminate|]. intros Hor. decompose [or and ex] Hor; discriminate.
    - destruct cast_null.
      + destruct (isnan x) as [e|null]; cbn [bind ret].
        * split; [discriminate|]. intros Hor. decompose [or and ex] Hor; discriminate.
        * cbv [ret]. split.
          -- intros Heq. right. left. split; [reflexivity|]. exists f. split; [reflexivity|].
             exists null. split; [reflexivity|]. destruct null; now injection Heq as <-.
          -- intros Hor. decompose [or and ex] Hor; try discriminate.
             match goal with Hf : inr f = inr _ |- _ => injection Hf as <- end.
             match goal with Hn : inr null = inr _ |- _ => injection Hn as <- end.
             subst v. now destruct null.
      + cbv [ret]. split.
        * intros Heq. injection Heq as <-. right. left. split; [reflexivity|]. eauto.
        * intros Hor. decompose [or and ex] Hor; try discriminate. congruence. }
  destruct (decide (tag = "bool")) as [->|H3].
  { cbn [bind ret]. rewrite Hx. cbn [bind]. plain_tag. }
  destruct (decide (tag = "str")) as [->|H4].
  { cbn [bind ret]. rewrite Hx. cbn [bind]. plain_tag. }
  destruct (decide (tag = "date")) as [->|H5].
  { cbn [bind ret]. rewrite Hx. cbn [bind]. plain_tag. }
  destruct (decide (tag = "object")) as [->|H6].
  { cbn [bind ret]. rewrite Hx. cbn [bind]. plain_tag. }
  cbn [bind raise]. split; [discriminate|].
  intros Hor. decompose [or and ex] Hor; contradiction.
Qed.

Lemma cast_records_unregistered tag data cast_null :
  tag ∉ ["int"; "float"; "bool"; "str"; "date"; "object"] ->
  _cast_records tag data cast_null = inl (KeyError tag).
Proof.
  intros Hn. unfold _cast_records, RECORD_TYPE. cbn [dict_get].
  repeat (rewrite decide_False;
          [|intros ->; apply Hn; repeat (first [apply list_elem_of_here | apply list_elem_of_further])]).
  reflexivity.
Qed.
Lemma record_fields cols cast_null row r :
  record cols cast_null row t = inr r ->
  Forall2 (field_of t cast_null row) cols r.
Proof.
  unfold record. intros H%mapM_Forall2.
  eapply Forall2_impl; [exact H|]. intros c v Hc. cbn beta in Hc.
  destruct (dict_get c (_dtypes t)) as [tag|] eqn:Htag; [|discriminate].
  cbn [bind ret] in Hc. bind_inv Hc as a Ha. bind_inv Hc as d Hd.
  assert (H1 : exists l, body a = Arr1 l).
  { unfold getitem_str in Ha. destruct (dict_get c (_data t)) as [a0|] eqn:Hg; invert Ha.
    unfold one_dimensional in t_1d. rewrite Forall_forall in t_1d. apply t_1d.
    apply list_elem_of_In. eapply dict_get_values; eauto. }
  destruct H1 as [l Hl].
  destruct (getitem_row_arr1 _ _ _ _ Hl Hd) as (x & Hx & ->).
  exists tag, a, l, x. repeat (split; [assumption|]).
  eapply cast_records_field; [|exact Hc]. reflexivity.
Qed.

Lemma yield_records_fields cols cast_null m :
  forall k recs stop,
    yield_records cols cast_null (seq k m) t = (recs, stop) ->
    length recs <= m /\ (stop = None -> length recs = m) /\
    forall p r, recs !! p = Some r -> Forall2 (field_of t cast_null (k + p)) cols r.
Proof.
  induction m as [|m IH]; intros k recs stop H; cbn [seq yield_records] in H.
  - invert H. repeat split; auto. intros p r [=].
  - destruct (record cols cast_null k t) as [e|r0] eqn:Hr.
    + invert H. repeat split; [simpl; lia | discriminate | intros p r [=]].
    + destruct (yield_records cols cast_null (seq (S k) m) t) as [rs st] eqn:Hrest.
      invert H. destruct (IH _ _ _ Hrest) as (Hle & Hall & Hf).
      repeat split; [simpl; lia | intros Hs; simpl; now rewrite Hall |].
      intros [|p] r Hp.
      * invert Hp. rewrite Nat.add_0_r. now apply record_fields.
      * replace (k + S p) with (S k + p) by lia. now apply Hf.
Qed.

(** X20. [to_records] on a table of one-dimensional columns.  Nothing
    is looked up for a table without rows: whatever columns are asked
    for, the generator yields nothing and does not raise.  Otherwise it
    yields at most one record per row, one for every row when it ends
    without raising, the fields in the order the columns were asked for
    (or the order of the table).  The field of a column in the record
    of a row is made from that element [x] of the column by the tag of
    the column: [int(x)], [float(x)], [bool(x)], [str(x)], the
    [strftime] of a date, [str(x)] of an object, and [None] for a nan of
    a [float] column when nulls are cast.  [_cast_records] returns
    exactly these values, and raises [KeyError] for any other tag. *)
Theorem to_records_fields (cols : option (list string)) (cast_null : bool) (n : nat) :
  rows t = inr n ->
  (n = 0 -> to_records cols cast_null t = ([], None)) /\
  (forall recs stop,
     to_records cols cast_null t = (recs, stop) ->
     length recs <= n /\ (stop = None -> length recs = n) /\
     forall i r, recs !! i = Some r ->
       Forall2 (field_of t cast_null i)
               (match cols with None => columns t | Some cols => cols end) r) /\
  (forall tag data x v, np_item data = inr x ->
     _cast_records tag data cast_null = inr v <-> field_value tag cast_null x v) /\
  (forall tag data, tag ∉ ["int"; "float"; "bool"; "str"; "date"; "object"] ->
     _cast_records tag data cast_null = inl (KeyError tag)).
Proof.
  intros Hn. unfold to_records. rewrite Hn. split; [|split; [|split]].
  - intros ->. reflexivity.
  - intros recs stop H. apply yield_records_fields in H. exact H.
  - intros tag data x v Hx. now apply cast_records_field.
  - intros tag data Hnot. now apply cast_records_unregistered.
Qed.

End records.

Lemma to_records_fields_witness :
  to_records (Some ["q"]) true empty_tafra = ([], None) /\
  to_records (Some ["z"; "x"]) true example_tafra
  = ([[PyInt 0; PyInt 1]; [PyInt 0; PyInt 2]; [PyInt 0; PyInt 3];
      [PyInt 1; PyInt 4]; [PyInt 1; PyInt 5]; [PyInt 1; PyInt 6]]%Z, None) /\
  to_records None true nan_tafra
  = ([[PyNone]; [PyFloat (S754_finite false 4503599627370496 (-52))]], None) /\
  to_records None false nan_tafra
  = ([[PyFloat S754_nan]; [PyFloat (S754_finite false 4503599627370496 (-52))]], None) /\
  (forall recs stop,
     to_records (Some ["z"; "x"]) true example_tafra = (recs, stop) ->
     length recs <= 6 /\ (stop = None -> length recs = 6) /\
     forall i r, recs !! i = Some r ->
       Forall2 (field_of example_tafra true i) ["z"; "x"] r) /\
  _cast_records "timedelta64[ns]" (int64_array [1]%Z) true
  = inl (KeyError "timedelta64[ns]").
Proof.
  assert (H0 : one_dimensional empty_tafra) by constructor.
  split.
  { apply (@to_records_fields builtins empty_tafra H0 (Some ["q"]) true 0); reflexivity. }
  split; [vm_compute; reflexivity|]. split; [vm_compute; reflexivity|].
  split; [vm_compute; reflexivity|].
  destruct (@to_records_fields builtins example_tafra example_one_dimensional
              (Some ["z"; "x"]) true 6 eq_refl) as (_ & Hrec & _ & Hkey).
  split; [exact Hrec|]. apply Hkey.
  intros Hin. repeat (apply elem_of_cons in Hin as [Hin|Hin]; [discriminate|]).
  now apply elem_of_nil in Hin.
Defined.

(** ** [from_dataframe] *)

Lemma dict_set_fresh {V} k (v : V) (d : list (string * V)) :
  k ∉ dict_keys d -> dict_set k v d = (d ++ [(k, v)])%list.
Proof.
  induction d as [|[k' v'] d IH]; intros Hk; [reflexivity|]. simpl.
  rewrite decide_False by (intros ->; apply Hk; apply list_elem_of_here).
  rewrite IH; [reflexivity|]. intros Hin. apply Hk. now apply list_elem_of_further.
Qed.

Lemma dict_update_fresh {V} (items : list (string * V)) :
  NoDup (map fst items) ->
  forall d, (forall k, In k (map fst items) -> k ∉ dict_keys d) ->
            dict_update d items = (d ++ items)%list.
Proof.
  unfold dict_update. induction items as [|[k v] items IH]; intros Hnd d Hfresh.
  - simpl. now rewrite app_nil_r.
  - cbn [map fst] in Hnd. apply NoDup_cons in Hnd as [Hnin Hnd].
    cbn [fold_left fst snd]. rewrite dict_set_fresh by (apply Hfresh; now left).
    rewrite IH; [now rewrite <- app_assoc | exact Hnd |].
    intros k' Hk' Hin. unfold dict_keys in Hin. rewrite map_app in Hin.
    apply elem_of_app in Hin as [Hin|Hin].
    + apply (Hfresh k'); [now right | exact Hin].
    + simpl in Hin. apply list_elem_of_singleton in Hin. subst k'.
      apply Hnin. now apply list_elem_of_In.
Qed.

Lemma dict_of_items_nodup {V} (items : list (string * V)) :
  NoDup (map fst items) -> dict_of_items items = items.
Proof.
  intros Hnd. unfold dict_of_items. rewrite dict_update_fresh; [reflexivity | exact Hnd |].
  intros k _ Hin. now apply elem_of_nil in Hin.
Qed.

Lemma mapM_keyed {A} (f : string -> result A) cols items :
  mapM (fun c => let* a := f c in ret (c, a)) cols = inr items ->
  map fst items = cols /\ Forall (fun it => f (fst it) = inr (snd it)) items.
Proof.
  revert items. induction cols as [|c cols IH]; intros items H; simpl in H.
  - invert H. split; constructor.
  - bind_inv H as ca Hca. bind_inv Hca as a Ha. invert Hca.
    bind_inv H as its Hits. invert H. destruct (IH _ Hits) as [H1 H2].
    split; [simpl; now rewrite H1 | constructor; auto].
Qed.

Section frames.
Context {N : NumPy}.

(** X21. [from_dataframe] on a frame with distinct column names.  The
    table has the columns of the frame, in order, and the tag of each is
    the formatted dtype given for it (or that of the frame), which is a
    registered tag.  For the first column of the frame: a dtype mapping
    without it raises [KeyError] for the column, and a tag that is not
    registered raises [KeyError] for the tag, where [update_types] would
    raise [ValueError]. *)
Theorem from_dataframe_tags (df : DataFrame) (dtypes : option (list (string * string))) :
  NoDup (df_columns df) ->
  (forall t, from_dataframe df dtypes = inr t ->
     columns t = df_columns df /\
     forall c, c ∈ df_columns df ->
       exists tag, dict_get c (frame_tags df dtypes) = Some tag /\
                   dict_get c (_dtypes t) = Some tag /\
                   dict_mem tag TAFRA_TYPE = true) /\
  (forall c col rest, df = (c, col) :: rest ->
     (dict_get c (frame_tags df dtypes) = None ->
      from_dataframe df dtypes = inl (KeyError c)) /\
     (forall tag, dict_get c (frame_tags df dtypes) = Some tag ->
                  dict_mem tag TAFRA_TYPE = false ->
                  from_dataframe df dtypes = inl (KeyError tag))).
Proof.
  intros Hnd. unfold from_dataframe. fold (frame_tags df dtypes). split.
  - intros t H. bind_inv H as data Hdata. bind_inv H as tags Htags.
    assert (Hd : map fst data = df_columns df /\
                 Forall (fun it => exists tag v,
                           dict_get (fst it) (frame_tags df dtypes) = Some tag /\
                           _apply_type tag v = inr (snd it)) data).
    { clear H Htags. revert data Hdata. generalize (df_columns df) as cols.
      induction cols as [|c cols IH]; intros data Hm; simpl in Hm.
      - invert Hm. split; constructor.
      - bind_inv Hm as ca Hca. bind_inv Hca as tag Htag. bind_inv Hca as v Hv.
        bind_inv Hca as a Ha. invert Hca. bind_inv Hm as its Hits. invert Hm.
        destruct (IH _ Hits) as [H1 H2]. split; [simpl; now rewrite H1|].
        constructor; [|exact H2]. exists tag, v. split; [|exact Ha]. cbn [fst].
        destruct (dict_get c (frame_tags df dtypes)); now invert Htag. }
    destruct Hd as [Hdk Hdv].
    destruct (mapM_keyed _ _ _ Htags) as [Htk Htv].
    rewrite dict_of_items_nodup in H by now rewrite Hdk.
    rewrite dict_of_items_nodup in H by now rewrite Htk.
    destruct (init_given_tags _ _ _ H) as (Hkeys & _ & Hgiven).
    split; [unfold columns; now rewrite Hkeys|].
    intros c Hc. rewrite <- Htk in Hc. apply list_elem_of_In, in_map_iff in Hc.
    destruct Hc as ([c' tag] & Hfst & Hin). cbn [fst] in Hfst. subst c'.
    rewrite Forall_forall in Htv. specialize (Htv _ (proj2 (list_elem_of_In _ _) Hin)).
    cbn [fst snd] in Htv.
    assert (Htag : dict_get c (frame_tags df dtypes) = Some tag).
    { destruct (dict_get c (frame_tags df dtypes)); now invert Htv. }
    exists tag. split; [exact Htag|]. split.
    + apply Hgiven. rewrite <- (dict_of_items_nodup tags) by now rewrite Htk.
      apply dict_of_items_get; [exact Hin|]. intros tag' Hin'.
      eapply NoDup_fst_unique; [|exact Hin' | exact Hin]. now rewrite Htk.
    + assert (Hc' : In c (map fst data)).
      { rewrite Hdk, <- Htk. apply in_map_iff. exists (c, tag). auto. }
      apply in_map_iff in Hc' as ([c' a] & Hfst & Hin'). cbn [fst] in Hfst. subst c'.
      rewrite Forall_forall in Hdv.
      destruct (Hdv _ (proj2 (list_elem_of_In _ _) Hin')) as (tag' & v & Ht' & Hap).
      cbn [fst snd] in Ht', Hap. rewrite Htag in Ht'. invert Ht'.
      unfold _apply_type in Hap. unfold dict_mem. apply bool_decide_eq_true.
      destruct (dict_get tag' TAFRA_TYPE); [eauto | discriminate].
  - intros c col rest ->. cbn [df_columns map fst mapM]. split.
    + intros ->. reflexivity.
    + intros tag -> Hm. cbn [bind ret]. unfold df_values. cbn [dict_get].
      rewrite decide_True by reflexivity. destruct col as [dt a]. cbn [bind ret].
      unfold _apply_type. unfold dict_mem in Hm. apply bool_decide_eq_false in Hm.
      destruct (dict_get tag TAFRA_TYPE) eqn:E; [exfalso; eauto | reflexivity].
Qed.

End frames.

Lemma from_dataframe_tags_witness :
  (exists t, from_dataframe example_frame None = inr t /\
     columns t = ["a"; "b"] /\
     dict_get "a" (_dtypes t) = Some "int" /\ dict_get "b" (_dtypes t) = Some "bool") /\
  from_dataframe example_frame (Some [("b", "bool")]) = inl (KeyError "a") /\
  from_dataframe timedelta_frame None = inl (KeyError "timedelta64[ns]").
Proof.
  assert (H1 : NoDup (df_columns example_frame)).
  { change (NoDup ["a"; "b"]). nodup_strings. }
  assert (H2 : NoDup (df_columns timedelta_frame)).
  { change (NoDup ["d"]). nodup_strings. }
  split; [|split].
  - assert (Hex : exists t, from_dataframe example_frame None = inr t).
    { eexists. vm_compute. reflexivity. }
    destruct Hex as [t Ht]. exists t. split; [exact Ht|].
    destruct (@from_dataframe_tags numpy example_frame None H1) as [Hok _].
    destruct (Hok t Ht) as [Hc Htags]. split; [exact Hc|]. split.
    + destruct (Htags "a") as (tag & Hf & Hd & _); [repeat constructor|].
      vm_compute in Hf. invert Hf. exact Hd.
    + destruct (Htags "b") as (tag & Hf & Hd & _); [repeat constructor|].
      vm_compute in Hf. invert Hf. exact Hd.
  - destruct (@from_dataframe_tags numpy example_frame (Some [("b", "bool")]) H1)
      as [_ Herr].
    destruct (Herr "a" _ _ eq_refl) as [Hmiss _]. apply Hmiss. reflexivity.
  - destruct (@from_dataframe_tags numpy timedelta_frame None H2) as [_ Herr].
    destruct (Herr "d" _ _ eq_refl) as [_ Hbad].
    apply (Hbad "timedelta64[ns]"); reflexivity.
Defined.

(** ** Arrays shared and arrays of one's own *)

Lemma index_columns_fresh dt ix items :
  forall h items' h1,
    Objects.index_columns dt ix items h = inr (items', h1) ->
    Store.extends h h1 /\
    Forall (fun l => Store.next h <= l < Store.next h1) (dict_values items').
Proof.
  induction items as [|[c l] items IH]; intros h items' h1 H; cbn [Objects.index_columns] in H.
  - invert H. split; [apply extends_refl | constructor].
  - bind_inv H as a Ha.
    destruct (Store.alloc a h) as [l' h2] eqn:Hal.
    destruct (alloc_extends _ _ _ _ Hal) as (Hl' & Hn & _ & He).
    bind_inv H as rh Hrest. destruct rh as [rest h3]. invert H.
    destruct (IH _ _ _ Hrest) as [He' HF]. split; [eapply extends_trans; eauto|].
    simpl. constructor.
    + destruct He' as [Hle _]. lia.
    + eapply Forall_impl; [exact HF|]. intros l0. simpl. lia.
Qed.

Section objects.
Context {N : NumPy}.

(** X22. Indexing a table with an array gives a table of new arrays:
    an in-place change of any array of [t[index]] leaves every column
    of [t] as it was.  (The sub-tables [IterateBy] yields are made this
    way.) *)
Theorem index_independent (h : Store.heap) (self : Store.t) (index : ndarray)
        (sub : Store.t) (h' : Store.heap) :
  Store.valid h self ->
  Objects._index index self h = inr (sub, h') ->
  Store.fresh_from (Store.next h) h' sub /\
  forall name' l' a,
    dict_get name' (Store._data sub) = Some l' ->
    forall name, Store.column (Store.write l' a h') self name = Store.column h self name.
Proof.
  intros Hv H. unfold Objects._index in H.
  destruct (body index) as [|ix|]; try discriminate.
  bind_inv H as dh Hcols. destruct dh as [data h1].
  destruct (index_columns_fresh _ _ _ _ _ _ Hcols) as [He HF].
  destruct (init_fresh (Store.next h) _ _ _ _ _ HF H) as [He' Hf].
  split; [exact Hf|]. intros name' l' a Hl' name.
  rewrite column_write_other.
  - apply column_extends; [exact Hv | eapply extends_trans; eauto].
  - intros l0 Hl0 ->. unfold Store.valid in Hv. unfold Store.fresh_from in Hf.
    rewrite Forall_forall in Hv, Hf.
    apply list_elem_of_In, Hv in Hl0. apply dict_get_values, list_elem_of_In, Hf in Hl'.
    lia.
Qed.

(** The loop of [update_types] keeps the array of a column whose dtype
    formats to its tag. *)
Lemma update_types_loop_keeps c l tag cols :
  forall self h self' h',
    Store.update_types_loop cols self h = inr (self', h') ->
    l < Store.next h ->
    dict_get c (Store._data self) = Some l ->
    dict_get c (Store._dtypes self) = Some tag ->
    _format_type (dtype (Store.cell h l)) = tag ->
    dict_get c (Store._data self') = Some l /\ Store._dtypes self' = Store._dtypes self /\
    Store.extends h h'.
Proof.
  induction cols as [|c0 cols IH]; intros self h self' h' H Hl Hc Htag Hfmt;
    cbn [Store.update_types_loop] in H.
  - invert H. split; [|split]; auto using extends_refl.
  - destruct (dict_get c0 (Store._data self)) as [l0|] eqn:Hl0; [|discriminate].
    destruct (dict_get c0 (Store._dtypes self)) as [tag0|] eqn:Ht0; [|discriminate].
    destruct (decide (_format_type (dtype (Store.cell h l0)) <> tag0)) as [Hne|]; [|eauto].
    bind_inv H as a' Ha'.
    destruct (Store.alloc a' h) as [l1 h1] eqn:Hal.
    destruct (alloc_extends _ _ _ _ Hal) as (Hl1 & Hn1 & _ & He).
    assert (Hc0 : c0 <> c).
    { intros ->. rewrite Hc in Hl0. rewrite Htag in Ht0. invert Hl0. invert Ht0.
      contradiction. }
    destruct (IH _ _ _ _ H) as (K1 & K2 & K3); cbn [Store._data Store._dtypes].
    + lia.
    + now rewrite dict_get_set_ne.
    + exact Htag.
    + destruct He as [_ He]. now rewrite He.
    + split; [|split]; auto. eapply extends_trans; eauto.
Qed.

Lemma update_types_loop_dtypes cols :
  forall self h self' h',
    Store.update_types_loop cols self h = inr (self', h') ->
    Store._dtypes self' = Store._dtypes self.
Proof.
  induction cols as [|c0 cols IH]; intros self h self' h' H;
    cbn [Store.update_types_loop] in H.
  - now invert H.
  - destruct (dict_get c0 (Store._data self)) as [l0|]; [|discriminate].
    destruct (dict_get c0 (Store._dtypes self)) as [tag0|]; [|discriminate].
    destruct (decide (_format_type (dtype (Store.cell h l0)) <> tag0)); [|eauto].
    bind_inv H as a' Ha'.
    destruct (Store.alloc a' h) as [l1 h1].
    now apply IH in H.
Qed.

Lemma update_store_loop r h items :
  forall d d',
    foldM (fun data '(column, l) =>
             let* n := np.len (Store.cell h l) in
             if decide (n <> r) then raise (ValueError (other_rows_msg r n))
             else ret (dict_set column l data)) items d = inr d' ->
    d' = dict_update d items.
Proof.
  induction items as [|[c l] items IH]; intros d d' H; cbn [foldM] in H.
  - now invert H.
  - bind_inv H as d1 Hd1. bind_inv Hd1 as n Hn.
    destruct (decide (n <> r)); [discriminate|]. invert Hd1.
    now apply IH in H.
Qed.

(** X23. [update] stores the arrays of the other table, not copies: a
    column of the other table whose dtype formats to the tag it gets is,
    after the update, the same array in both tables, so that what is
    written into it shows in both. *)
Theorem update_shares_arrays (h : Store.heap) (other self self' : Store.t)
        (h' : Store.heap) (c : string) (l : Store.loc) (tag : string) :
  Store.valid h other -> NoDup (dict_keys (Store._data other)) ->
  Objects.update other self h = inr (self', h') ->
  dict_get c (Store._data other) = Some l ->
  dict_get c (Store._dtypes self') = Some tag ->
  _format_type (dtype (Store.cell h l)) = tag ->
  dict_get c (Store._data self') = Some l /\
  forall a, Store.column (Store.write l a h') self' c = Some a /\
            Store.column (Store.write l a h') other c = Some a.
Proof.
  intros Hv Hnd H Hl Htag Hfmt. unfold Objects.update in H.
  bind_inv H as r Hr. bind_inv H as data Hdata. bind_inv H as dtypes Hdt.
  apply update_store_loop in Hdata. unfold Store.update_types in H.
  cbn [Store._dtypes] in H.
  assert (Hlt : l < Store.next h).
  { unfold Store.valid in Hv. rewrite Forall_forall in Hv.
    apply Hv, list_elem_of_In. eapply dict_get_values; eauto. }
  assert (Hget : dict_get c data = Some l).
  { rewrite Hdata, dict_update_get by exact Hnd. now rewrite Hl. }
  pose proof (update_types_loop_dtypes _ _ _ _ _ H) as Htags. cbn [Store._dtypes] in Htags.
  rewrite Htags in Htag.
  destruct (update_types_loop_keeps c l tag _ _ _ _ _ H Hlt Hget Htag Hfmt) as (K1 & _ & He).
  split; [exact K1|]. intros a.
  unfold Store.column. rewrite K1, Hl. unfold Store.write, Store.cell. simpl.
  destruct (decide (l = l)); [auto|contradiction].
Qed.

End objects.

Lemma index_independent_witness :
  exists sub h',
    Objects._index (int64_array [0; 2]%Z) Store.example Store.example_heap = inr (sub, h') /\
    dict_get "x" (Store._data sub) = Some 3 /\
    Store.column h' sub "x" = Some (int64_array [1; 3]%Z) /\
    forall name, Store.column (Store.write 3 (int64_array [9; 9]%Z) h') Store.example name
                 = Store.column Store.example_heap Store.example name.
Proof.
  assert (Hv : Store.valid Store.example_heap Store.example).
  { unfold Store.valid. simpl. repeat constructor. }
  destruct (Objects._index (int64_array [0; 2]%Z) Store.example Store.example_heap)
    as [e|[sub h']] eqn:Hi; [vm_compute in Hi; discriminate|].
  exists sub, h'. split; [reflexivity|].
  assert (Hx : dict_get "x" (Store._data sub) = Some 3 /\
               Store.column h' sub "x" = Some (int64_array [1; 3]%Z)).
  { vm_compute in Hi. invert Hi. split; reflexivity. }
  destruct Hx as [Hx Hc]. split; [exact Hx|]. split; [exact Hc|].
  intros name.
  exact (proj2 (@index_independent numpy _ _ _ _ _ Hv Hi) "x" 3 _ Hx name).
Defined.

Lemma update_shares_arrays_witness :
  exists self' h',
    Objects.update {| Store._data := [("w", 2)]; Store._dtypes := [("w", "int")] |}
                   Store.example Store.example_heap = inr (self', h') /\
    dict_get "w" (Store._data self') = Some 2 /\
    forall a, Store.column (Store.write 2 a h') self' "w" = Some a /\
              Store.column (Store.write 2 a h')
                           {| Store._data := [("w", 2)]; Store._dtypes := [("w", "int")] |} "w"
              = Some a.
Proof.
  set (other := {| Store._data := [("w", 2)]; Store._dtypes := [("w", "int")] |}).
  destruct (Objects.update other Store.example Store.example_heap)
    as [e|[self' h']] eqn:Hu; [vm_compute in Hu; discriminate|].
  exists self', h'. split; [reflexivity|].
  assert (Hv : Store.valid Store.example_heap other).
  { unfold Store.valid. simpl. repeat constructor. }
  assert (Hnd : NoDup (dict_keys (Store._data other))).
  { simpl. apply NoDup_cons. split; [apply not_elem_of_nil | apply NoDup_nil_2]. }
  assert (Htag : dict_get "w" (Store._dtypes self') = Some "int").
  { vm_compute in Hu. invert Hu. reflexivity. }
  exact (@update_shares_arrays numpy _ _ _ _ _ "w" 2 "int" Hv Hnd Hu eq_refl Htag eq_refl).
Defined.
